(** * AttendMate: the attendance calculator, its routes and the page script

    The server keeps one flat collection of subjects and attaches, on every
    response, statistics computed by [calculateAttendance]; the page script
    sends the bodies of the requests and shows the statistics.  The program
    is JavaScript, so every number is an IEEE 754 binary64 value: the
    embedding uses the Standard Library's executable specification of binary
    floating point ([SpecFloat]) at precision 53 and maximal exponent 1024,
    and every arithmetic operator of the source is the correctly rounded
    operation of that specification. *)

From Stdlib Require Import ZArith Bool List String Ascii Lia.
From Stdlib Require Import Reals Lra Zfloor.
From Stdlib Require Import Floats.SpecFloat.
Import ListNotations.

Local Open Scope Z_scope.

(* ================================================================== *)
(** * The JavaScript runtime the program relies on *)

Module JS.

(** ** Numbers *)

Definition prec : Z := 53.
Definition emax : Z := 1024.

Abbreviation number := spec_float.

Definition NaN : number := S754_nan.
Definition Infinity : number := S754_infinity false.
Definition zero : number := S754_zero false.

(** The Number value of an integer literal. *)
Definition of_Z (n : Z) : number := binary_normalize prec emax n 0 false.

(** The Number value of the fraction [n/d] carrying sign [s]: the quotient
    of the two integers, rounded once. *)
Definition of_ratio (s : bool) (n d : Z) : number :=
  match n, d with
  | Zpos n', Zpos d' =>
      SFdiv prec emax (S754_finite s n' 0) (S754_finite false d' 0)
  | _, _ => S754_zero s
  end.

Definition add : number -> number -> number := SFadd prec emax.
Definition sub : number -> number -> number := SFsub prec emax.
Definition mul : number -> number -> number := SFmul prec emax.
Definition div : number -> number -> number := SFdiv prec emax.

(** Relational operators; every comparison with [NaN] is false. *)
Definition le (x y : number) : bool := SFleb x y.
Definition lt (x y : number) : bool := SFltb x y.
Definition ge (x y : number) : bool := SFleb y x.
Definition gt (x y : number) : bool := SFltb y x.

(** The integer a finite number stands for once its fraction is dropped
    towards minus infinity, and towards plus infinity. *)
Definition signed (s : bool) (m : positive) : Z := cond_Zopp s (Zpos m).

Definition floorZ (s : bool) (m : positive) (e : Z) : Z :=
  if 0 <=? e then signed s m * 2 ^ e else signed s m / 2 ^ (- e).

Definition ceilZ (s : bool) (m : positive) (e : Z) : Z :=
  - floorZ (negb s) m e.

(** [Math.floor] and [Math.ceil].  Zeros, infinities and [NaN] are returned
    unchanged; a number that is already an integer is returned unchanged;
    [Math.floor] of a value in (0,1) is [+0] and [Math.ceil] of a value in
    (-1,0) is [-0]. *)
Definition Math_floor (x : number) : number :=
  match x with
  | S754_finite s m e =>
      if 0 <=? e then x else binary_normalize prec emax (floorZ s m e) 0 false
  | _ => x
  end.

Definition Math_ceil (x : number) : number :=
  match x with
  | S754_finite s m e =>
      if 0 <=? e then x else binary_normalize prec emax (ceilZ s m e) 0 true
  | _ => x
  end.

(** [x.toFixed(2)] prints the integer [n] for which [n/100] is closest to
    the magnitude of [x], the larger one on a tie, with two digits after the
    point and the sign of [x]. *)
Definition hundredths (m : positive) (e : Z) : Z :=
  if 0 <=? e then 100 * Zpos m * 2 ^ e
  else (200 * Zpos m + 2 ^ (- e)) / 2 ^ (1 - e).

(** [Number(x.toFixed(2))]: the text printed by [toFixed] read back as a
    Number.  [NaN] and the infinities print as their names and are read back
    unchanged; a zero of either sign prints as "0.00"; a negative value that
    rounds to no hundredths prints as "-0.00", which reads back as [-0]. *)
Definition Number_toFixed2 (x : number) : number :=
  match x with
  | S754_finite s m e => of_ratio s (hundredths m e) 100
  | S754_zero _ => zero
  | _ => x
  end.

(** ** Values *)

Inductive value : Type :=
  | Undefined
  | Null
  | Boolean (b : bool)
  | Num (x : number)
  | Str (s : string).

Coercion Num : number >-> value.

(** ** Reading a string as a Number

    Strings are taken to be ASCII text.  Leading and trailing white space
    is skipped; the empty text is [+0]; a decimal literal may carry a sign,
    a fraction and an exponent; binary, octal and hexadecimal integers are
    unsigned; anything else is [NaN]. *)

(** The text the embedding reads faithfully: every character is below 128.
    Among these characters the white space of JavaScript is TAB, LF, VT, FF,
    CR and SPACE.  Text with other characters, such as U+00A0 or U+FEFF,
    which [trim] and [Number] also strip, is outside the embedding, and a
    statement about text a user types carries [ascii_text] as a
    hypothesis. *)
Fixpoint ascii_text (s : string) : bool :=
  match s with
  | EmptyString => true
  | String c s' => (nat_of_ascii c <? 128)%nat && ascii_text s'
  end.

Definition is_space (c : ascii) : bool :=
  match nat_of_ascii c with
  | 9%nat | 10%nat | 11%nat | 12%nat | 13%nat | 32%nat => true
  | _ => false
  end.

Fixpoint skip_space (s : string) : string :=
  match s with
  | String c s' => if is_space c then skip_space s' else s
  | EmptyString => s
  end.

Definition digit_of (base : Z) (c : ascii) : option Z :=
  let n := Z.of_nat (nat_of_ascii c) in
  let d :=
    if (48 <=? n) && (n <=? 57) then n - 48
    else if (97 <=? n) && (n <=? 102) then n - 87
    else if (65 <=? n) && (n <=? 70) then n - 55
    else base in
  if d <? base then Some d else None.

(** The longest run of digits at the head of [s]: its value on top of
    [acc], how many digits were read on top of [cnt], and the rest. *)
Fixpoint read_digits (base : Z) (s : string) (acc cnt : Z) : Z * Z * string :=
  match s with
  | String c s' =>
      match digit_of base c with
      | Some d => read_digits base s' (acc * base + d) (cnt + 1)
      | None => (acc, cnt, s)
      end
  | EmptyString => (acc, cnt, s)
  end.

Definition read_sign (s : string) : bool * string :=
  match s with
  | String "-" s' => (true, s')
  | String "+" s' => (false, s')
  | _ => (false, s)
  end.

Definition at_end (s : string) : bool :=
  match skip_space s with EmptyString => true | _ => false end.

Definition drop (n : nat) (s : string) : string :=
  substring n (String.length s - n) s.

(** The exponent part, if any: [None] when the text is malformed. *)
Definition read_exponent (s : string) : option (Z * string) :=
  match s with
  | String c s' =>
      if (Ascii.eqb c "e" || Ascii.eqb c "E")%bool then
        let '(neg, s1) := read_sign s' in
        let '(v, cnt, rest) := read_digits 10 s1 0 0 in
        if 0 <? cnt then Some (if neg then - v else v, rest) else None
      else Some (0, s)
  | EmptyString => Some (0, s)
  end.

Definition read_decimal (s : string) : number :=
  let '(neg, s1) := read_sign s in
  if prefix "Infinity" s1 then
    if at_end (drop 8 s1) then S754_infinity neg else NaN
  else
    let '(ip, ci, s2) := read_digits 10 s1 0 0 in
    let '(fp, cf, s3) :=
      match s2 with
      | String "." s2' => read_digits 10 s2' ip 0
      | _ => (ip, 0, s2)
      end in
    if (ci + cf =? 0) then NaN
    else
      match read_exponent s3 with
      | Some (ex, s4) =>
          if at_end s4 then
            let k := ex - cf in
            if 0 <=? k then of_ratio neg (fp * 10 ^ k) 1
            else of_ratio neg fp (10 ^ (- k))
          else NaN
      | None => NaN
      end.

Definition read_radix (base : Z) (s : string) : number :=
  let '(v, cnt, rest) := read_digits base s 0 0 in
  if (0 <? cnt) && at_end rest then of_ratio false v 1 else NaN.

Definition StringToNumber (s : string) : number :=
  match skip_space s with
  | EmptyString => zero
  | String "0" (String c s') as t =>
      if (Ascii.eqb c "x" || Ascii.eqb c "X")%bool then read_radix 16 s'
      else if (Ascii.eqb c "o" || Ascii.eqb c "O")%bool then read_radix 8 s'
      else if (Ascii.eqb c "b" || Ascii.eqb c "B")%bool then read_radix 2 s'
      else read_decimal t
  | t => read_decimal t
  end.

(** ** Conversions and operators on values *)

(** [Number(v)]. *)
Definition ToNumber (v : value) : number :=
  match v with
  | Undefined => NaN
  | Null => zero
  | Boolean b => if b then of_Z 1 else zero
  | Num x => x
  | Str s => StringToNumber s
  end.

(** Truthiness: what [!v], [v || w] and [v ? a : b] test. *)
Definition ToBoolean (v : value) : bool :=
  match v with
  | Undefined | Null => false
  | Boolean b => b
  | Num (S754_zero _) | Num S754_nan => false
  | Num _ => true
  | Str EmptyString => false
  | Str _ => true
  end.

(** [v >= w]: two strings are compared as text, code unit by code unit;
    in every other case both operands are converted to numbers. *)
Definition ge_value (v w : value) : bool :=
  match v, w with
  | Str s1, Str s2 => String.leb s2 s1
  | _, _ => ge (ToNumber v) (ToNumber w)
  end.

(** [v == null]. *)
Definition eq_null (v : value) : bool :=
  match v with
  | Undefined | Null => true
  | _ => false
  end.

(** [v || w]. *)
Definition or (v w : value) : value := if ToBoolean v then v else w.

(** [Math.max] and [Math.min] of two arguments: [NaN] when either is
    [NaN]; [+0] counts as larger than [-0]. *)
Definition Math_max (x y : number) : number :=
  match x, y with
  | S754_nan, _ | _, S754_nan => NaN
  | S754_zero sx, S754_zero sy => S754_zero (sx && sy)
  | _, _ => if lt x y then y else x
  end.

Definition Math_min (x y : number) : number :=
  match x, y with
  | S754_nan, _ | _, S754_nan => NaN
  | S754_zero sx, S754_zero sy => S754_zero (sx || sy)
  | _, _ => if lt y x then y else x
  end.

(** ** Text *)

(** [s.trim()], on ASCII text. *)
Fixpoint trim_end (s : string) : string :=
  match s with
  | EmptyString => EmptyString
  | String c s' =>
      match trim_end s' with
      | EmptyString => if is_space c then EmptyString else String c EmptyString
      | rest => String c rest
      end
  end.

Definition trim (s : string) : string := trim_end (skip_space s).

(** ** JSON *)

(** What [JSON.parse] reads back from [JSON.stringify] of a property:
    a finite number is printed so that it reads back as itself, except that
    [-0] is printed as 0; [NaN] and the infinities are printed as null; a
    property that is undefined is left out, and is undefined again when the
    parsed object is read. *)
Definition JSON_value (v : value) : value :=
  match v with
  | Num (S754_zero _) => Num zero
  | Num (S754_finite _ _ _ as x) => Num x
  | Num _ => Null
  | _ => v
  end.

End JS.

Import JS.

(* ================================================================== *)
(** * ATTENDANCE LOGIC *)

(** A template literal: its text chunks and the numbers substituted between
    them, in order. *)
Inductive chunk : Type :=
  | Text (s : string)
  | Subst (x : number).

Record AttendanceStats : Type := {
  currentPercent : number;
  canBunk : number;
  needToAttend : number;
  message : list chunk
}.

Definition no_classes : AttendanceStats :=
  {| currentPercent := zero;
     canBunk := zero;
     needToAttend := zero;
     message := [Text "No classes conducted yet."] |}.

Section Calculator.

(** The quotient operator is a parameter of the body, so that a theorem
    can say that a path through the function performs no division. *)
Variable quot : number -> number -> number.

Definition calculateAttendance_with
    (attended total requiredPercent : value) : AttendanceStats :=
  let attended := ToNumber attended in
  let total := ToNumber total in
  let requiredPercent := ToNumber requiredPercent in
  if le total zero then no_classes
  else
    let r := quot requiredPercent (of_Z 100) in
    let currentPercent := mul (quot attended total) (of_Z 100) in
    let '(canBunk, needToAttend) :=
      if ge currentPercent requiredPercent then
        let nMax := Math_floor (quot (sub attended (mul r total)) r) in
        (if gt nMax zero then nMax else zero, zero)
      else
        let xMin :=
          Math_ceil (quot (sub (mul r total) attended) (sub (of_Z 1) r)) in
        (zero, if gt xMin zero then xMin else zero) in
    {| currentPercent := Number_toFixed2 currentPercent;
       canBunk := canBunk;
       needToAttend := needToAttend;
       message :=
         if ge currentPercent requiredPercent then
           [Text "You are safe. You can bunk around "; Subst canBunk;
            Text " classes."]
         else
           [Text "You need to attend around "; Subst needToAttend;
            Text " more classes to reach "; Subst requiredPercent;
            Text "%."] |}.

End Calculator.

Definition calculateAttendance : value -> value -> value -> AttendanceStats :=
  calculateAttendance_with div.

(* ================================================================== *)
(** * API ROUTES *)

(** The four fields of a subject, as they travel in a request body, in the
    object handed to [Subject.create] and in a stored document.  A property
    that is absent reads as [Undefined]. *)
Record SubjectFields : Type := {
  subjectName : value;
  total : value;
  attended : value;
  requiredPercent : value
}.

Inductive ResponseBody (document : Type) : Type :=
  | ErrorJson (error : string)
  | SubjectJson (doc : document) (stats : AttendanceStats).

Arguments ErrorJson {document} error.
Arguments SubjectJson {document} doc stats.

Record Response (document : Type) : Type := {
  status : Z;
  json : ResponseBody document
}.

Arguments status {document} _.
Arguments json {document} _.

(** What an awaited call of the persistence layer comes to.
    [Subject.findByIdAndUpdate] resolves to the updated document, resolves
    to nothing when no document has the identifier, or rejects. *)
Inductive settled (A : Type) : Type :=
  | Resolved (a : A)
  | Rejected.

Arguments Resolved {A} a.
Arguments Rejected {A}.

Section Routes.

(** The persistence layer is an external collaborator: the collection is a
    state of some type [db], a stored document exposes its four fields,
    and [Subject.create] either stores a document and returns it or
    rejects, in which case the route answers 500. *)
Variable db : Type.
Variable document : Type.
Variable fields : document -> SubjectFields.
Variable Subject_create : SubjectFields -> db -> option document * db.

Definition stats_of (subject : document) : AttendanceStats :=
  calculateAttendance (attended (fields subject)) (total (fields subject))
    (requiredPercent (fields subject)).

(** POST /api/subjects *)
Definition post_subjects (body : SubjectFields) (st : db)
    : Response document * db :=
  if (negb (ToBoolean (subjectName body)) || eq_null (total body)
      || eq_null (attended body))%bool
  then ({| status := 400; json := ErrorJson "Missing required fields" |}, st)
  else
    match Subject_create
            {| subjectName := subjectName body;
               total := total body;
               attended := attended body;
               requiredPercent := or (requiredPercent body) (of_Z 75) |} st
    with
    | (Some subject, st') =>
        ({| status := 201; json := SubjectJson subject (stats_of subject) |},
         st')
    | (None, st') =>
        ({| status := 500; json := ErrorJson "Failed to create subject" |},
         st')
    end.

(** PUT /api/subjects/:id *)
Variable identifier : Type.
Variable Subject_findByIdAndUpdate :
  identifier -> SubjectFields -> db -> settled (option document) * db.

Definition put_subject (id : identifier) (body : SubjectFields) (st : db)
    : Response document * db :=
  match Subject_findByIdAndUpdate id
          {| subjectName := subjectName body;
             total := total body;
             attended := attended body;
             requiredPercent := requiredPercent body |} st
  with
  | (Resolved (Some subject), st') =>
      ({| status := 200; json := SubjectJson subject (stats_of subject) |}, st')
  | (Resolved None, st') =>
      ({| status := 404; json := ErrorJson "Subject not found" |}, st')
  | (Rejected, st') =>
      ({| status := 500; json := ErrorJson "Failed to update subject" |}, st')
  end.

End Routes.

(* ================================================================== *)
(** * The page script *)

(** A subject as the page holds it: a document read from a response.  The
    schema gives [total] and [attended] the type Number, so the page reads
    Numbers there. *)
Record Subject : Type := {
  s_subjectName : value;
  s_requiredPercent : value;
  s_total : number;
  s_attended : number
}.

(** The body [handleSubjectUpdate] sends with its PUT request. *)
Definition handleSubjectUpdate (subject : Subject) (newTotal newAttended : number)
    : SubjectFields :=
  {| subjectName := s_subjectName subject;
     requiredPercent := s_requiredPercent subject;
     total := newTotal;
     attended := newAttended |}.

(** The four counter buttons of a card: the new total and the new attended
    count each hands to [handleSubjectUpdate]. *)
Definition btn_inc_total (s : Subject) : number * number :=
  let newTotal := add (s_total s) (of_Z 1) in
  let newAttended := s_attended s in
  (newTotal, newAttended).

Definition btn_dec_total (s : Subject) : number * number :=
  let newTotal := Math_max zero (sub (s_total s) (of_Z 1)) in
  let newAttended := s_attended s in
  let newAttended := if gt newAttended newTotal then newTotal else newAttended in
  (newTotal, newAttended).

Definition btn_inc_attended (s : Subject) : number * number :=
  let newAttended := Math_min (s_total s) (add (s_attended s) (of_Z 1)) in
  (s_total s, newAttended).

Definition btn_dec_attended (s : Subject) : number * number :=
  let newAttended := Math_max zero (sub (s_attended s) (of_Z 1)) in
  (s_total s, newAttended).

(** The badge of a card, from the statistics and the target as they arrive
    in the response. *)
Definition isSafe (currentPercent requiredPercent : value) : bool :=
  ge_value currentPercent requiredPercent.

(** The submit handler of the form, from the text of its four inputs: it
    alerts, or sends a body with a POST request. *)
Inductive submission : Type :=
  | Alert (text : string)
  | Post (payload : SubjectFields).

Definition submit (subject total attended required : string) : submission :=
  let subjectName := trim subject in
  if negb (ToBoolean (Str subjectName)) then
    Alert "Please enter a subject name."
  else if gt (ToNumber (Str attended)) (ToNumber (Str total)) then
    Alert "Attended classes cannot be more than total classes."
  else
    Post {| subjectName := Str subjectName;
            total := ToNumber (Str total);
            attended := ToNumber (Str attended);
            requiredPercent := ToNumber (Str required) |}.

(** A request body as the server reads it. *)
Definition JSON_body (payload : SubjectFields) : SubjectFields :=
  {| subjectName := JSON_value (subjectName payload);
     total := JSON_value (total payload);
     attended := JSON_value (attended payload);
     requiredPercent := JSON_value (requiredPercent payload) |}.

(* ================================================================== *)
(** * The vocabulary of the statements

    Numbers as the reals they stand for, what it means for an operation
    to be correctly rounded, and the quantities and conditions that the
    statements about the calculator, the routes and the page speak of. *)

Local Open Scope R_scope.

(** [2^e] as a real, for any integer [e]. *)
Definition bpow (e : Z) : R := powerRZ 2 e.

(** [inloc m l x]: the real [x] lies in [[m, m+1)] at the place [l] says. *)
Definition inloc (m : Z) (l : location) (x : R) : Prop :=
  match l with
  | loc_Exact => x = IZR m
  | loc_Inexact Lt => IZR m < x < IZR m + /2
  | loc_Inexact Eq => x = IZR m + /2
  | loc_Inexact Gt => IZR m + /2 < x < IZR m + 1
  end.

(** A shifted mantissa with its round and sticky bits stands for the real
    [x]. *)
Definition represents (mrs : shr_record) (x : R) : Prop :=
  (0 <= shr_m mrs)%Z /\ inloc (shr_m mrs) (loc_of_shr_record mrs) x.

(** Nearest integer, the even one on a tie. *)
Definition ZnearestE (x : R) : Z :=
  let f := Zfloor x in
  if Rlt_dec (x - IZR f) (/2) then f
  else if Rlt_dec (/2) (x - IZR f) then (f + 1)%Z
  else if Z.even f then f else (f + 1)%Z.

Local Close Scope R_scope.

(** The exponent of the smallest positive number. *)
Definition emin : Z := -1074.

Local Open Scope R_scope.

(** [binade e x]: the non-negative real [x] is rounded on the grid of
    multiples of [2^e]. *)
Definition binade (e : Z) (x : R) : Prop :=
  (emin <= e)%Z /\ x < bpow (e + prec) /\ ((emin < e)%Z -> bpow (e + prec - 1) <= x).

(** The number with sign [s] and magnitude [n * 2^e], for [0 <= n <= 2^prec]. *)
Definition pack (s : bool) (n e : Z) : number :=
  match n with
  | Z0 => S754_zero s
  | Zpos p =>
      if (n =? 2 ^ prec)%Z then
        if (e + 1 <=? emax - prec)%Z then S754_finite s (2 ^ 52) (e + 1)
        else S754_infinity s
      else if (e <=? emax - prec)%Z then S754_finite s p e
      else S754_infinity s
  | Zneg _ => S754_nan
  end.

(** [z] has sign [s] and, as magnitude, the non-negative real [x] rounded
    to nearest even on the grid of its binade. *)
Definition rounds_to (s : bool) (x : R) (z : number) : Prop :=
  exists e, binade e x /\ z = pack s (ZnearestE (x / bpow e)) e.

Local Close Scope R_scope.

(** The numbers of binary64: a finite one has its mantissa and exponent in
    canonical form. *)
Definition valid (x : number) : Prop := valid_binary prec emax x = true.

(** [Number.isFinite]. *)
Definition is_finite (x : number) : bool :=
  match x with
  | S754_finite _ _ _ | S754_zero _ => true
  | _ => false
  end.

(** [Number.isNaN]. *)
Definition is_nan (x : number) : bool :=
  match x with S754_nan => true | _ => false end.

Local Open Scope R_scope.

(** The real [m * 2^e]. *)
Definition F2R (m e : Z) : R := IZR m * bpow e.

(** The real a number stands for; an infinity stands for [2^emax] with its
    sign, which no finite number reaches, and [NaN] for nothing. *)
Definition R_of (x : number) : R :=
  match x with
  | S754_finite s m e => F2R (signed s m) e
  | S754_infinity s => if s then - bpow emax else bpow emax
  | _ => 0
  end.

(** The comparison of two reals. *)
Definition Rcmp (x y : R) : comparison :=
  if Rlt_dec x y then Lt else if Rlt_dec y x then Gt else Eq.

(** A magnitude with its sign bit. *)
Definition sgn (s : bool) (r : R) : R := if s then - r else r.

(** The multiple of [2^e] nearest to [x]. *)
Definition rnd (e : Z) (x : R) : R := IZR (ZnearestE (x / bpow e)) * bpow e.

(** [Rounded X z]: the number [z] is the real [X] rounded to nearest, ties
    to even, in binary64; beyond the largest finite number it is an
    infinity. *)
Definition Rounded (X : R) (z : number) : Prop :=
  exists s, rounds_to s (Rabs X) z /\ (X < 0 -> s = true) /\ (0 < X -> s = false).

(** [Number.MIN_VALUE], the smallest positive number. *)
Definition min_number : number := S754_finite false 1 emin.

Local Close Scope R_scope.

(** [x > 0 ? x : 0] *)
Definition clamp (x : number) : number := if gt x zero then x else zero.

Local Open Scope R_scope.

(** The largest number below 1. *)
Definition pred_one : number := S754_finite false 9007199254740991 (-53).

(** The attended counts the specification speaks of: between 0 and the
    total. *)
Definition in_range (t a : number) : Prop :=
  valid a /\ is_finite a = true /\ 0 <= R_of a <= R_of t.

(** The percentage before it is rounded for display. *)
Definition cp (t a : number) : number := mul (div a t) (of_Z 100).

(** The count of the safe branch. *)
Definition bunk (t p a : number) : number :=
  let r := div p (of_Z 100) in
  let m := mul r t in
  clamp (Math_floor (div (sub a m) r)).

(** The count of the unsafe branch. *)
Definition need (t p a : number) : number :=
  let r := div p (of_Z 100) in
  let m := mul r t in
  let d := sub (of_Z 1) r in
  clamp (Math_ceil (div (sub m a) d)).

(** The unit roundoff, [2^-53]. *)
Definition roundoff : R := / 9007199254740992.

(** A bound on the error of a rounding that underflows, [2^-100]. *)
Definition eta : R := / 1267650600228229401496703205376.

(** The count of the safe branch on whole numbers. *)
Definition bunk_value (a t p : Z) : number :=
  let r := div (of_Z p) (of_Z 100) in
  let m := mul r (of_Z t) in
  clamp (Math_floor (div (sub (of_Z a) m) r)).

(** The percentage on whole numbers, before it is rounded for display. *)
Definition percent (a t : Z) : number :=
  mul (div (of_Z a) (of_Z t)) (of_Z 100).

(** The count of the unsafe branch on whole numbers. *)
Definition need_value (a t p : Z) : number :=
  let r := div (of_Z p) (of_Z 100) in
  let m := mul r (of_Z t) in
  let d := sub (of_Z 1) r in
  clamp (Math_ceil (div (sub m (of_Z a)) d)).

Local Close Scope R_scope.

(** What the two counts can be: [+0], a positive whole number, or
    [+Infinity]. *)
Definition is_count (x : number) : Prop :=
  x = zero \/ x = Infinity \/
  (is_finite x = true /\ exists n, 0 < n /\ R_of x = IZR n).

(** A value whose number, if it is one, is a number of binary64. *)
Definition well_formed (v : value) : Prop :=
  match v with Num x => valid x | _ => True end.

(** The values that count as false in a condition. *)
Definition falsy (v : value) : Prop :=
  v = Undefined \/ v = Null \/ v = Boolean false \/
  (exists s, v = Num (S754_zero s)) \/ v = Num NaN \/ v = Str EmptyString.

(** The values that [== null] accepts. *)
Definition nullish (v : value) : Prop := v = Undefined \/ v = Null.

(** What the create route does once the required fields are there. *)
Definition created (db document : Type) (fields : document -> SubjectFields)
    (Subject_create : SubjectFields -> db -> option document * db)
    (doc : SubjectFields) (st : db) : Response document * db :=
  match Subject_create doc st with
  | (Some subject, st') =>
      ({| status := 201;
          json := SubjectJson subject (stats_of document fields subject) |}, st')
  | (None, st') =>
      ({| status := 500; json := ErrorJson "Failed to create subject" |}, st')
  end.

(** A store that keeps every object it is given. *)
Definition keep_all (doc : SubjectFields) (st : list SubjectFields)
    : option SubjectFields * list SubjectFields :=
  (Some doc, doc :: st).

(** The message of the unsafe branch. *)
Definition need_message (x p : number) : list chunk :=
  [Text "You need to attend around "; Subst x;
   Text " more classes to reach "; Subst p; Text "%."].

(** The message of the safe branch. *)
Definition safe_message (n : number) : list chunk :=
  [Text "You are safe. You can bunk around "; Subst n; Text " classes."].

(** A pair of a total and an attended count that a card may show. *)
Definition in_order (c : number * number) : Prop :=
  le zero (snd c) = true /\ le (snd c) (fst c) = true.

(** A finite number as it arrives in a request body. *)
Definition sent (x : number) : number :=
  match x with S754_zero _ => zero | _ => x end.

(** The target the create route settles on for a number typed in the form:
    the number itself when it is finite and not zero, and 75 otherwise. *)
Definition settled_target (x : number) : number :=
  match x with S754_finite _ _ _ => x | _ => of_Z 75 end.

(** What the update route does with the object it hands on. *)
Definition updated (db document : Type) (fields : document -> SubjectFields)
    (identifier : Type)
    (Subject_findByIdAndUpdate :
       identifier -> SubjectFields -> db -> settled (option document) * db)
    (id : identifier) (doc : SubjectFields) (st : db)
    : Response document * db :=
  match Subject_findByIdAndUpdate id doc st with
  | (Resolved (Some subject), st') =>
      ({| status := 200;
          json := SubjectJson subject (stats_of document fields subject) |}, st')
  | (Resolved None, st') =>
      ({| status := 404; json := ErrorJson "Subject not found" |}, st')
  | (Rejected, st') =>
      ({| status := 500; json := ErrorJson "Failed to update subject" |}, st')
  end.

(** A store in which every identifier is that of the one subject it holds. *)
Definition replace_it (id : unit) (doc : SubjectFields) (st : list SubjectFields)
    : settled (option SubjectFields) * list SubjectFields :=
  (Resolved (Some doc), [doc]).

Local Open Scope R_scope.

(** A division that gives up on every divisor that is not finite and
    positive. *)
Definition guarded_div (x y : number) : number :=
  if is_finite y && lt zero y then div x y else NaN.

Local Close Scope R_scope.

(* ================================================================== *)
(** * Powers of two *)

Section Rounding.
Local Open Scope R_scope.

Lemma bpow_gt_0 e : 0 < bpow e.
Proof. apply powerRZ_lt; lra. Qed.

Lemma bpow_plus a b : bpow (a + b) = bpow a * bpow b.
Proof. apply powerRZ_add; lra. Qed.

Lemma bpow_opp a : bpow (- a) = / bpow a.
Proof. apply powerRZ_neg'. Qed.

Lemma bpow_0 : bpow 0 = 1.
Proof. reflexivity. Qed.

Lemma bpow_1 : bpow 1 = 2.
Proof. unfold bpow; simpl; lra. Qed.

Lemma bpow_succ a : bpow (a + 1) = 2 * bpow a.
Proof. rewrite bpow_plus, bpow_1; lra. Qed.

Lemma bpow_minus a b : bpow (a - b) = bpow a / bpow b.
Proof. unfold Z.sub, Rdiv. now rewrite bpow_plus, bpow_opp. Qed.

Lemma bpow_le_nonneg k : (0 <= k)%Z -> 1 <= bpow k.
Proof.
  intros Hk; pattern k; apply natlike_ind; [rewrite bpow_0; lra | | exact Hk].
  intros x Hx IH. unfold Z.succ. rewrite bpow_succ. lra.
Qed.

Lemma bpow_le a b : (a <= b)%Z -> bpow a <= bpow b.
Proof.
  intros H. replace b with (a + (b - a))%Z by lia.
  rewrite bpow_plus. pose proof (bpow_gt_0 a).
  pose proof (bpow_le_nonneg (b - a) ltac:(lia)). nra.
Qed.

Lemma bpow_lt a b : (a < b)%Z -> bpow a < bpow b.
Proof.
  intros H. apply Rlt_le_trans with (bpow (a + 1)).
  - rewrite bpow_succ. pose proof (bpow_gt_0 a). lra.
  - apply bpow_le; lia.
Qed.

Lemma bpow_lt_inv a b : bpow a < bpow b -> (a < b)%Z.
Proof.
  intros H. destruct (Z_lt_le_dec a b) as [|Hle]; [assumption|].
  apply bpow_le in Hle. lra.
Qed.

Lemma bpow_IZR k : (0 <= k)%Z -> bpow k = IZR (2 ^ k).
Proof.
  intros Hk; pattern k; apply natlike_ind; [reflexivity | | exact Hk].
  intros x Hx IH. unfold Z.succ. rewrite bpow_succ, IH, Z.pow_add_r by lia.
  rewrite mult_IZR. change (2 ^ 1)%Z with 2%Z. lra.
Qed.

End Rounding.

(* ================================================================== *)
(** * Shifting with sticky bits, and rounding to nearest even *)

Lemma digits2_pos_bounds (m : positive) :
  2 ^ (Zpos (digits2_pos m) - 1) <= Zpos m < 2 ^ Zpos (digits2_pos m).
Proof.
  induction m as [m IH | m IH | ]; cbn [digits2_pos].
  - rewrite Pos2Z.inj_succ. replace (Z.succ (Zpos (digits2_pos m)) - 1) with (Zpos (digits2_pos m) - 1 + 1) by lia.
    unfold Z.succ. rewrite !Z.pow_add_r by lia. change (2 ^ 1) with 2. lia.
  - rewrite Pos2Z.inj_succ. replace (Z.succ (Zpos (digits2_pos m)) - 1) with (Zpos (digits2_pos m) - 1 + 1) by lia.
    unfold Z.succ. rewrite !Z.pow_add_r by lia. change (2 ^ 1) with 2. lia.
  - cbn. lia.
Qed.

Section Loc.
Local Open Scope R_scope.

Lemma inloc_bounds m l x : inloc m l x -> IZR m <= x < IZR m + 1.
Proof. destruct l as [|[]]; simpl; lra. Qed.

Lemma loc_of_shr_record_of_loc m l :
  loc_of_shr_record (shr_record_of_loc m l) = l.
Proof. now destruct l as [|[]]. Qed.

Lemma shr_m_shr_record_of_loc m l : shr_m (shr_record_of_loc m l) = m.
Proof. now destruct l as [|[]]. Qed.

Lemma shr_1_represents mrs x :
  represents mrs x -> represents (shr_1 mrs) (x / 2).
Proof.
  destruct mrs as [m r s]. unfold represents. cbn [shr_m].
  intros [Hm H].
  destruct m as [|p|p]; [| |lia].
  - destruct r, s; cbn [shr_m loc_of_shr_record inloc shr_1 orb] in *; split; try lia; lra.
  - destruct p as [p|p|].
    + pose proof (IZR_POS_xI p) as E.
      destruct r, s; cbn [shr_m loc_of_shr_record inloc shr_1 orb] in *;
        (split; [lia|]); lra.
    + pose proof (IZR_POS_xO p) as E.
      destruct r, s; cbn [shr_m loc_of_shr_record inloc shr_1 orb] in *;
        (split; [lia|]); lra.
    + destruct r, s; cbn [shr_m loc_of_shr_record inloc shr_1 orb] in *;
        (split; [lia|]); lra.
Qed.

Lemma iter_pos_shr_1_represents p : forall mrs x,
  represents mrs x -> represents (iter_pos shr_1 p mrs) (x / bpow (Zpos p)).
Proof.
  induction p as [p IH | p IH | ]; intros mrs x H; cbn [iter_pos].
  - apply shr_1_represents, IH, IH in H.
    replace (x / bpow (Zpos p~1)) with (x / 2 / bpow (Zpos p) / bpow (Zpos p)); [exact H|].
    rewrite Pos2Z.inj_xI. replace (2 * Z.pos p + 1)%Z with (1 + Z.pos p + Z.pos p)%Z by lia.
    rewrite !bpow_plus, bpow_1. pose proof (bpow_gt_0 (Zpos p)). field. lra.
  - apply IH, IH in H.
    replace (x / bpow (Zpos p~0)) with (x / bpow (Zpos p) / bpow (Zpos p)); [exact H|].
    rewrite Pos2Z.inj_xO. replace (2 * Z.pos p)%Z with (Z.pos p + Z.pos p)%Z by lia.
    rewrite !bpow_plus. pose proof (bpow_gt_0 (Zpos p)). field. lra.
  - apply shr_1_represents in H. now rewrite bpow_1.
Qed.

(** Shifting right by [n] places divides the value by [2^n]; a shift by no
    place, or by a negative count, does nothing. *)
Lemma shr_represents mrs e n x mrs' e' :
  shr mrs e n = (mrs', e') ->
  represents mrs x ->
  e' = (e + Z.max n 0)%Z /\ represents mrs' (x / bpow (Z.max n 0)).
Proof.
  intros E H. destruct n as [|p|p]; cbn [shr] in E; injection E as <- <-.
  - rewrite Z.max_id, bpow_0, Z.add_0_r. split; [reflexivity|]. now replace (x / 1) with x by field.
  - rewrite Z.max_l by lia. split; [reflexivity|]. now apply iter_pos_shr_1_represents.
  - rewrite Z.max_r by lia. rewrite bpow_0, Z.add_0_r. split; [reflexivity|]. now replace (x / 1) with x by field.
Qed.

Lemma round_nearest_even_correct m l x :
  inloc m l x -> round_nearest_even m l = ZnearestE x.
Proof.
  intros H. assert (Hf : Zfloor x = m) by (apply Zfloor_eq, inloc_bounds with l, H).
  unfold ZnearestE. rewrite Hf.
  destruct l as [|[]]; cbn in *.
  - destruct (Rlt_dec _ _); [reflexivity | lra].
  - destruct (Rlt_dec _ _); [lra|]. destruct (Rlt_dec _ _); [lra|reflexivity].
  - destruct (Rlt_dec _ _); [reflexivity | lra].
  - destruct (Rlt_dec _ _); [lra|]. destruct (Rlt_dec _ _); [reflexivity|lra].
Qed.

Lemma ZnearestE_IZR n : ZnearestE (IZR n) = n.
Proof.
  unfold ZnearestE. rewrite ZfloorZ.
  destruct (Rlt_dec _ _); [reflexivity | lra].
Qed.

Lemma ZnearestE_error x : Rabs (IZR (ZnearestE x) - x) <= /2.
Proof.
  unfold ZnearestE. pose proof (Zfloor_bound x) as Hb.
  destruct (Rlt_dec _ _); [apply Rabs_le; lra|].
  destruct (Rlt_dec _ _); [rewrite plus_IZR; apply Rabs_le; lra|].
  destruct (Z.even _); [|rewrite plus_IZR]; apply Rabs_le; lra.
Qed.

Lemma ZnearestE_floor_or_succ x :
  ZnearestE x = Zfloor x \/ ZnearestE x = (Zfloor x + 1)%Z.
Proof.
  unfold ZnearestE. repeat destruct (Rlt_dec _ _); try destruct (Z.even _); auto.
Qed.

Lemma ZnearestE_le x y : x <= y -> (ZnearestE x <= ZnearestE y)%Z.
Proof.
  intros Hxy.
  pose proof (Zfloor_le _ _ Hxy) as Hf.
  destruct (Z.eq_dec (Zfloor x) (Zfloor y)) as [E|NE].
  - unfold ZnearestE. rewrite <- E.
    repeat destruct (Rlt_dec _ _); try destruct (Z.even _); try lia; lra.
  - destruct (ZnearestE_floor_or_succ x) as [-> | ->],
             (ZnearestE_floor_or_succ y) as [-> | ->]; lia.
Qed.

(** An integer lower or upper bound of [x] bounds its nearest integer. *)
Lemma ZnearestE_ge n x : IZR n <= x -> (n <= ZnearestE x)%Z.
Proof. intros H. rewrite <- (ZnearestE_IZR n). now apply ZnearestE_le. Qed.

Lemma ZnearestE_le_IZR n x : x <= IZR n -> (ZnearestE x <= n)%Z.
Proof. intros H. rewrite <- (ZnearestE_IZR n). now apply ZnearestE_le. Qed.

End Loc.

(* ================================================================== *)
(** * The rounding step shared by the arithmetic operations *)

Lemma emin_eq : SpecFloat.emin prec emax = emin.
Proof. reflexivity. Qed.

Lemma fexp_eq z : fexp prec emax z = Z.max (z - 53) emin.
Proof. reflexivity. Qed.

Lemma Zdigits2_bounds m : 0 < m -> 2 ^ (Zdigits2 m - 1) <= m < 2 ^ Zdigits2 m.
Proof.
  destruct m as [|p|p]; try lia. intros _. apply digits2_pos_bounds.
Qed.

Lemma Zdigits2_nonneg m : 0 <= Zdigits2 m.
Proof. destruct m; cbn; lia. Qed.

Lemma Zdigits2_pos_gt m : 0 < m -> 0 < Zdigits2 m.
Proof. destruct m; cbn; lia. Qed.

(** If [m < 2^k] then [m] has at most [k] binary digits. *)
Lemma Zdigits2_le m k : 0 < m -> m < 2 ^ k -> Zdigits2 m <= k.
Proof.
  intros Hm Hk. pose proof (Zdigits2_bounds m Hm) as [Hl _].
  pose proof (Zdigits2_pos_gt m Hm).
  destruct (Z_le_gt_dec (Zdigits2 m) k) as [|Hgt]; [assumption|].
  assert (0 <= k) by (destruct k; try lia; cbn in Hk; lia).
  assert (2 ^ k <= 2 ^ (Zdigits2 m - 1)) by (apply Z.pow_le_mono_r; lia). lia.
Qed.

Lemma Zdigits2_ge m k : 0 <= k -> 2 ^ k <= m -> k + 1 <= Zdigits2 m.
Proof.
  intros Hk Hm. assert (0 < m) by (pose proof (Z.pow_pos_nonneg 2 k); lia).
  pose proof (Zdigits2_bounds m H) as [_ Hu].
  destruct (Z_le_gt_dec (k + 1) (Zdigits2 m)) as [|Hgt]; [assumption|].
  assert (2 ^ Zdigits2 m <= 2 ^ k) by (apply Z.pow_le_mono_r; lia). lia.
Qed.

Section Round.
Local Open Scope R_scope.

Lemma binade_unique e1 e2 x : binade e1 x -> binade e2 x -> e1 = e2.
Proof.
  intros (L1 & U1 & N1) (L2 & U2 & N2).
  destruct (Z.lt_trichotomy e1 e2) as [H|[H|H]]; [exfalso|assumption|exfalso].
  - assert (bpow (e1 + prec) <= bpow (e2 + prec - 1)) by (apply bpow_le; lia).
    specialize (N2 ltac:(lia)). lra.
  - assert (bpow (e2 + prec) <= bpow (e1 + prec - 1)) by (apply bpow_le; lia).
    specialize (N1 ltac:(lia)). lra.
Qed.

Lemma div_bpow x a b : x / bpow a / bpow b = x / bpow (a + b).
Proof.
  rewrite bpow_plus. pose proof (bpow_gt_0 a). pose proof (bpow_gt_0 b).
  field; lra.
Qed.

Lemma IZR_le_div_bpow n x e : IZR n <= x / bpow e <-> IZR n * bpow e <= x.
Proof.
  pose proof (bpow_gt_0 e) as H. unfold Rdiv. split; intros H1.
  - apply Rmult_le_compat_r with (r := bpow e) in H1; [|lra].
    rewrite Rmult_assoc, Rinv_l in H1; lra.
  - apply Rmult_le_reg_r with (bpow e); [lra|].
    rewrite Rmult_assoc, Rinv_l; lra.
Qed.

Lemma div_bpow_lt x e k : x < bpow (e + k) <-> x / bpow e < bpow k.
Proof.
  pose proof (bpow_gt_0 e) as H. rewrite bpow_plus. unfold Rdiv. split; intros H1.
  - apply Rmult_lt_reg_r with (bpow e); [lra|].
    rewrite Rmult_assoc, Rinv_l; lra.
  - apply Rmult_lt_compat_r with (r := bpow e) in H1; [|lra].
    rewrite Rmult_assoc, Rinv_l in H1; lra.
Qed.

Lemma div_bpow_ge x e k : bpow (e + k) <= x <-> bpow k <= x / bpow e.
Proof.
  pose proof (bpow_gt_0 e) as H. rewrite bpow_plus. unfold Rdiv. split; intros H1.
  - apply Rmult_le_reg_r with (bpow e); [lra|].
    rewrite Rmult_assoc, Rinv_l; lra.
  - apply Rmult_le_compat_r with (r := bpow e) in H1; [|lra].
    rewrite Rmult_assoc, Rinv_l in H1; lra.
Qed.

Theorem binary_round_aux_correct s m e l x :
  (0 <= m)%Z ->
  inloc m l (x / bpow e) ->
  (e <= fexp prec emax (Zdigits2 m + e))%Z ->
  rounds_to s x (binary_round_aux prec emax s m e l).
Proof.
  intros Hm Hl He.
  unfold binary_round_aux, shr_fexp.
  set (e1 := fexp prec emax (Zdigits2 m + e)) in *.
  destruct (shr (shr_record_of_loc m l) e (e1 - e)) as [mrs1 e1'] eqn:E1.
  apply shr_represents with (x := x / bpow e) in E1;
    [|split; rewrite ?shr_m_shr_record_of_loc, ?loc_of_shr_record_of_loc; assumption].
  destruct E1 as [-> [Hm1 Hl1]].
  rewrite Z.max_l in * by lia. replace (e + (e1 - e))%Z with e1 in * by lia.
  rewrite div_bpow in Hl1. replace (e + (e1 - e))%Z with e1 in * by lia.
  pose proof (inloc_bounds _ _ _ Hl) as Hb.
  (* the binade of x *)
  assert (Hbin : binade e1 x).
  { unfold binade. subst e1. rewrite fexp_eq in *.
    destruct (Z.eq_dec m 0) as [->|Hm0].
    - cbn [Zdigits2] in *. rewrite Z.add_0_l in *.
      assert (e <= emin)%Z by lia. rewrite Z.max_r by lia.
      split; [lia|]. split; [|lia].
      apply Rlt_le_trans with (bpow e).
      + assert (Hx : x / bpow e < bpow 0) by (rewrite bpow_0; lra).
        apply div_bpow_lt in Hx. now rewrite Z.add_0_r in Hx.
      + apply bpow_le. unfold prec. lia.
    - pose proof (Zdigits2_bounds m ltac:(lia)) as [Hd1 Hd2].
      pose proof (Zdigits2_pos_gt m ltac:(lia)) as Hd0.
      apply IZR_le in Hd1. apply IZR_lt in Hd2.
      rewrite <- !bpow_IZR in * by lia.
      split; [lia|]. split.
      + apply Rlt_le_trans with (bpow (e + Zdigits2 m)).
        * apply div_bpow_lt.
          assert (IZR m + 1 <= bpow (Zdigits2 m)).
          { rewrite bpow_IZR by lia. rewrite <- plus_IZR. apply IZR_le.
            rewrite bpow_IZR in Hd2 by lia. apply lt_IZR in Hd2. lia. }
          lra.
        * apply bpow_le. unfold prec. lia.
      + intros Hgt. rewrite Z.max_l by lia.
        replace (Zdigits2 m + e - 53 + prec - 1)%Z with (e + (Zdigits2 m - 1))%Z by (unfold prec; lia).
        apply div_bpow_ge. lra. }
  exists e1. split; [exact Hbin|].
  rewrite (round_nearest_even_correct _ _ _ Hl1).
  set (n := ZnearestE (x / bpow e1)).
  destruct Hbin as (Hemin & Hup & Hlow).
  assert (Hn0 : (0 <= n)%Z).
  { apply ZnearestE_ge. pose proof (inloc_bounds _ _ _ Hl1). apply IZR_le in Hm1. lra. }
  assert (Hn1 : (n <= 2 ^ prec)%Z).
  { apply ZnearestE_le_IZR. rewrite <- bpow_IZR by (unfold prec; lia).
    apply Rlt_le. now apply div_bpow_lt. }
  destruct (Z.eq_dec n (2 ^ prec)) as [En|Nn].
  - rewrite En. vm_compute (Zdigits2 (2 ^ prec)).
    rewrite fexp_eq. replace (Z.max (54 + e1 - 53) emin - e1)%Z with 1%Z by lia.
    cbn -[Z.leb Z.add Z.sub]. reflexivity.
  - destruct n as [|p|p]; [| |lia].
    + cbn [Zdigits2]. rewrite fexp_eq, Z.add_0_l.
      assert (Hs : (Z.max (e1 - 53) emin - e1 <= 0)%Z) by lia.
      destruct (Z.max (e1 - 53) emin - e1)%Z; try lia; reflexivity.
    + assert (Hd : (Zdigits2 (Zpos p) <= prec)%Z) by (apply Zdigits2_le; lia).
      rewrite fexp_eq.
      assert (Hs : (Z.max (Zdigits2 (Zpos p) + e1 - 53) emin - e1 <= 0)%Z) by (unfold prec in Hd; lia).
      unfold pack. apply Z.eqb_neq in Nn. rewrite Nn.
      destruct (Z.max (Zdigits2 (Zpos p) + e1 - 53) emin - e1)%Z; try lia; reflexivity.
Qed.

End Round.

(* ================================================================== *)
(** * Numbers as reals, and their order *)

(** What [bounded] says of a mantissa and its exponent. *)
Lemma bounded_inv m e :
  bounded prec emax m e = true ->
  emin <= e <= emax - prec /\ Zpos m < 2 ^ prec /\ (emin < e -> 2 ^ (prec - 1) <= Zpos m).
Proof.
  unfold bounded, canonical_mantissa. rewrite andb_true_iff, Z.eqb_eq, Z.leb_le, fexp_eq.
  intros [Hc He].
  pose proof (digits2_pos_bounds m) as [Hl Hu].
  set (d := Zpos (digits2_pos m)) in *.
  assert (Hd : 0 < d) by (unfold d; lia).
  split; [lia|]. split.
  - assert (d <= prec) by (unfold prec; lia).
    assert (2 ^ d <= 2 ^ prec) by (apply Z.pow_le_mono_r; lia). lia.
  - intros Hgt. assert (d = prec) by (unfold prec; lia). subst d. rewrite H in Hl. exact Hl.
Qed.

Lemma bounded_intro m e :
  emin <= e <= emax - prec -> Zpos m < 2 ^ prec -> (emin < e -> 2 ^ (prec - 1) <= Zpos m) ->
  bounded prec emax m e = true.
Proof.
  intros He Hu Hl.
  unfold bounded, canonical_mantissa. rewrite andb_true_iff, Z.eqb_eq, Z.leb_le, fexp_eq.
  split; [|lia].
  assert (Hd1 : Zdigits2 (Zpos m) <= prec) by (apply Zdigits2_le; lia).
  cbn [Zdigits2] in Hd1.
  destruct (Z.eq_dec e emin) as [->|Hne].
  - unfold prec in *. lia.
  - assert (Hd2 : prec - 1 + 1 <= Zdigits2 (Zpos m)) by (apply Zdigits2_ge; [unfold prec|]; lia).
    cbn [Zdigits2] in Hd2. unfold prec in *. lia.
Qed.

Section Values.
Local Open Scope R_scope.

Lemma F2R_pos m e : 0 < F2R (Zpos m) e.
Proof.
  unfold F2R. apply Rmult_lt_0_compat; [apply IZR_lt; lia | apply bpow_gt_0].
Qed.

Lemma F2R_neg m e : F2R (- m) e = - F2R m e.
Proof. unfold F2R. rewrite opp_IZR. ring. Qed.

Lemma F2R_lt_emax m e : bounded prec emax m e = true -> F2R (Zpos m) e < bpow emax.
Proof.
  intros H. apply bounded_inv in H. destruct H as (He & Hm & _).
  unfold F2R. apply Rlt_le_trans with (bpow prec * bpow e).
  - apply Rmult_lt_compat_r; [apply bpow_gt_0|].
    rewrite bpow_IZR by (unfold prec; lia). now apply IZR_lt.
  - rewrite <- bpow_plus. apply bpow_le. lia.
Qed.

Lemma F2R_lt_exp m1 e1 m2 e2 :
  bounded prec emax m1 e1 = true -> bounded prec emax m2 e2 = true ->
  (e1 < e2)%Z -> F2R (Zpos m1) e1 < F2R (Zpos m2) e2.
Proof.
  intros H1 H2 He. apply bounded_inv in H1, H2.
  destruct H1 as (He1 & Hm1 & _), H2 as (He2 & _ & Hm2).
  specialize (Hm2 ltac:(lia)).
  unfold F2R. apply Rlt_le_trans with (bpow prec * bpow e1).
  - apply Rmult_lt_compat_r; [apply bpow_gt_0|].
    rewrite bpow_IZR by (unfold prec; lia). now apply IZR_lt.
  - apply Rle_trans with (bpow (prec - 1) * bpow e2).
    + rewrite <- !bpow_plus. apply bpow_le. lia.
    + apply Rmult_le_compat_r; [apply Rlt_le, bpow_gt_0|].
      rewrite bpow_IZR by (unfold prec; lia). now apply IZR_le.
Qed.

Lemma Rcmp_Lt x y : x < y -> Rcmp x y = Lt.
Proof. intros H. unfold Rcmp. destruct (Rlt_dec x y); [reflexivity | lra]. Qed.

Lemma Rcmp_Gt x y : y < x -> Rcmp x y = Gt.
Proof.
  intros H. unfold Rcmp. destruct (Rlt_dec x y); [lra|].
  destruct (Rlt_dec y x); [reflexivity | lra].
Qed.

Lemma Rcmp_Eq x y : x = y -> Rcmp x y = Eq.
Proof.
  intros H. unfold Rcmp. destruct (Rlt_dec x y); [lra|].
  destruct (Rlt_dec y x); [lra | reflexivity].
Qed.

Lemma Rcmp_opp x y : Rcmp (- x) (- y) = CompOpp (Rcmp x y).
Proof.
  destruct (Rtotal_order x y) as [H|[H|H]].
  - rewrite (Rcmp_Lt x y H), Rcmp_Gt; [reflexivity | lra].
  - rewrite (Rcmp_Eq x y H), Rcmp_Eq; [reflexivity | lra].
  - rewrite (Rcmp_Gt x y H), Rcmp_Lt; [reflexivity | lra].
Qed.

Lemma finite_compare m1 e1 m2 e2 :
  bounded prec emax m1 e1 = true -> bounded prec emax m2 e2 = true ->
  match (e1 ?= e2)%Z with
  | Lt => Lt
  | Gt => Gt
  | Eq => Pos.compare_cont Eq m1 m2
  end = Rcmp (F2R (Zpos m1) e1) (F2R (Zpos m2) e2).
Proof.
  intros H1 H2. destruct (Z.compare_spec e1 e2) as [E|L|G].
  - subst e2. change (Pos.compare_cont Eq m1 m2) with (Pos.compare m1 m2).
    pose proof (bpow_gt_0 e1) as Hp. unfold F2R.
    destruct (Pos.compare_spec m1 m2) as [E|L|G].
    + subst. symmetry. now apply Rcmp_Eq.
    + symmetry. apply Rcmp_Lt. apply Rmult_lt_compat_r; [assumption|]. apply IZR_lt. lia.
    + symmetry. apply Rcmp_Gt. apply Rmult_lt_compat_r; [assumption|]. apply IZR_lt. lia.
  - symmetry. apply Rcmp_Lt. now apply F2R_lt_exp.
  - symmetry. apply Rcmp_Gt. now apply F2R_lt_exp.
Qed.

(** On valid numbers other than [NaN], the comparison of the runtime is the
    comparison of the reals they stand for. *)
Theorem SFcompare_R_of x y :
  valid x -> valid y -> is_nan x = false -> is_nan y = false ->
  SFcompare x y = Some (Rcmp (R_of x) (R_of y)).
Proof.
  unfold valid.
  pose proof (bpow_gt_0 emax) as Hemax.
  destruct x as [sx|sx| |sx mx ex], y as [sy|sy| |sy my ey];
    cbn [valid_binary is_nan SFcompare R_of]; intros Vx Vy Nx Ny; try discriminate.
  - now rewrite Rcmp_Eq.
  - destruct sy; [rewrite Rcmp_Gt | rewrite Rcmp_Lt]; try reflexivity; lra.
  - pose proof (F2R_pos my ey). destruct sy; cbn [signed cond_Zopp]; [rewrite F2R_neg, Rcmp_Gt | rewrite Rcmp_Lt]; try reflexivity; lra.
  - destruct sx; [rewrite Rcmp_Lt | rewrite Rcmp_Gt]; try reflexivity; lra.
  - destruct sx, sy; [rewrite Rcmp_Eq | rewrite Rcmp_Lt | rewrite Rcmp_Gt | rewrite Rcmp_Eq]; try reflexivity; lra.
  - pose proof (F2R_pos my ey). pose proof (F2R_lt_emax my ey Vy).
    destruct sx, sy; cbn [signed cond_Zopp]; rewrite ?F2R_neg;
      [rewrite Rcmp_Lt | rewrite Rcmp_Lt | rewrite Rcmp_Gt | rewrite Rcmp_Gt]; try reflexivity; lra.
  - pose proof (F2R_pos mx ex). destruct sx; cbn [signed cond_Zopp]; [rewrite F2R_neg, Rcmp_Lt | rewrite Rcmp_Gt]; try reflexivity; lra.
  - pose proof (F2R_pos mx ex). pose proof (F2R_lt_emax mx ex Vx).
    destruct sx, sy; cbn [signed cond_Zopp]; rewrite ?F2R_neg;
      [rewrite Rcmp_Gt | rewrite Rcmp_Lt | rewrite Rcmp_Gt | rewrite Rcmp_Lt]; try reflexivity; lra.
  - pose proof (F2R_pos mx ex). pose proof (F2R_pos my ey).
    destruct sx, sy; cbn [signed cond_Zopp]; rewrite ?F2R_neg.
    + rewrite Rcmp_opp. f_equal.
      rewrite <- (finite_compare mx ex my ey Vx Vy).
      destruct (ex ?= ey)%Z; reflexivity.
    + rewrite Rcmp_Lt; [reflexivity | lra].
    + rewrite Rcmp_Gt; [reflexivity | lra].
    + now rewrite <- (finite_compare mx ex my ey Vx Vy).
Qed.

Corollary le_R_of x y :
  valid x -> valid y -> is_nan x = false -> is_nan y = false ->
  (le x y = true <-> R_of x <= R_of y).
Proof.
  intros Vx Vy Nx Ny. unfold le, SFleb. rewrite (SFcompare_R_of x y Vx Vy Nx Ny).
  unfold Rcmp. destruct (Rlt_dec _ _); [split; [lra | reflexivity]|].
  destruct (Rlt_dec _ _); split; try reflexivity; try discriminate; lra.
Qed.

Corollary lt_R_of x y :
  valid x -> valid y -> is_nan x = false -> is_nan y = false ->
  (lt x y = true <-> R_of x < R_of y).
Proof.
  intros Vx Vy Nx Ny. unfold lt, SFltb. rewrite (SFcompare_R_of x y Vx Vy Nx Ny).
  unfold Rcmp. destruct (Rlt_dec _ _); [split; [lra | reflexivity]|].
  destruct (Rlt_dec _ _); split; try reflexivity; try discriminate; lra.
Qed.

End Values.

(* ================================================================== *)
(** * Correct rounding *)

Section Rounded.
Local Open Scope R_scope.

Lemma binade_nearest e x :
  0 <= x -> binade e x ->
  (0 <= ZnearestE (x / bpow e) <= 2 ^ prec)%Z /\
  ((emin < e)%Z -> (2 ^ (prec - 1) <= ZnearestE (x / bpow e))%Z).
Proof.
  intros Hx (He & Hu & Hl). pose proof (bpow_gt_0 e) as Hp. split; [split|].
  - apply ZnearestE_ge. apply IZR_le_div_bpow. lra.
  - apply ZnearestE_le_IZR. rewrite <- bpow_IZR by (unfold prec; lia).
    apply Rlt_le. now apply div_bpow_lt.
  - intros Hgt. apply ZnearestE_ge. rewrite <- bpow_IZR by (unfold prec; lia).
    apply (proj1 (div_bpow_ge x e (prec - 1))).
    replace (e + (prec - 1))%Z with (e + prec - 1)%Z by lia. exact (Hl Hgt).
Qed.

Lemma pack_valid s n e :
  (emin <= e)%Z -> (0 <= n <= 2 ^ prec)%Z -> ((emin < e)%Z -> (2 ^ (prec - 1) <= n)%Z) ->
  valid (pack s n e).
Proof.
  intros He Hn Hl. unfold valid, pack.
  destruct n as [|p|p]; [reflexivity | | reflexivity].
  destruct (Z.eqb_spec (Zpos p) (2 ^ prec)) as [E|NE].
  - destruct (Z.leb_spec (e + 1) (emax - prec)); [|reflexivity].
    cbn [valid_binary]. apply bounded_intro; [lia | reflexivity | intros _; apply Z.le_refl ].
  - destruct (Z.leb_spec e (emax - prec)); [|reflexivity].
    cbn [valid_binary]. apply bounded_intro; lia.
Qed.

Lemma pack_not_nan s n e : (0 <= n)%Z -> is_nan (pack s n e) = false.
Proof.
  intros Hn. unfold pack. destruct n as [|p|p]; [reflexivity | | lia].
  destruct (_ =? _)%Z; destruct (_ <=? _)%Z; reflexivity.
Qed.

Lemma pack_R_of s n e :
  (emin <= e)%Z -> (0 <= n <= 2 ^ prec)%Z -> ((emin < e)%Z -> (2 ^ (prec - 1) <= n)%Z) ->
  R_of (pack s n e) = sgn s (Rmin (IZR n * bpow e) (bpow emax)).
Proof.
  intros He Hn Hl. unfold pack.
  pose proof (bpow_gt_0 e) as Hp. pose proof (bpow_gt_0 emax) as Hq.
  destruct n as [|p|p]; [| | lia].
  - cbn [R_of]. rewrite Rmult_0_l, Rmin_left by lra. destruct s; cbn; lra.
  - destruct (Z.eqb_spec (Zpos p) (2 ^ prec)) as [E|NE].
    + rewrite E. rewrite <- bpow_IZR, <- bpow_plus by (unfold prec; lia).
      destruct (Z.leb_spec (e + 1) (emax - prec)).
      * cbn [R_of]. rewrite Rmin_left by (apply bpow_le; lia).
        unfold F2R. replace (prec + e)%Z with (52 + (e + 1))%Z by (unfold prec; lia).
        rewrite bpow_plus.
        assert (E52 : IZR (Zpos (2 ^ 52)) = bpow 52)
          by (rewrite bpow_IZR by lia; apply f_equal; reflexivity).
        destruct s; cbn [signed cond_Zopp sgn]; rewrite ?opp_IZR, E52, !bpow_plus; ring.
      * cbn [R_of]. rewrite Rmin_right by (apply bpow_le; lia).
        destruct s; reflexivity.
    + assert (Hlt : IZR (Zpos p) < bpow prec).
      { rewrite bpow_IZR by (unfold prec; lia). apply IZR_lt. lia. }
      destruct (Z.leb_spec e (emax - prec)).
      * cbn [R_of]. rewrite Rmin_left.
        -- unfold F2R. destruct s; cbn [signed cond_Zopp sgn]; rewrite ?opp_IZR; ring.
        -- apply Rle_trans with (bpow prec * bpow e); [nra|].
           rewrite <- bpow_plus. apply bpow_le. lia.
      * cbn [R_of]. rewrite Rmin_right; [destruct s; reflexivity|].
        specialize (Hl ltac:(unfold emin, emax, prec in *; lia)).
        apply IZR_le in Hl. rewrite <- bpow_IZR in Hl by (unfold prec; lia).
        apply Rle_trans with (bpow (prec - 1) * bpow e); [|nra].
        rewrite <- bpow_plus. apply bpow_le. lia.
Qed.

Lemma rounds_to_valid s x z : 0 <= x -> rounds_to s x z -> valid z.
Proof.
  intros Hx (e & Hb & ->). pose proof (binade_nearest e x Hx Hb) as [H1 H2].
  destruct Hb as (He & _). now apply pack_valid.
Qed.

Lemma rounds_to_not_nan s x z : 0 <= x -> rounds_to s x z -> is_nan z = false.
Proof.
  intros Hx (e & Hb & ->). pose proof (binade_nearest e x Hx Hb) as [H1 H2].
  apply pack_not_nan. lia.
Qed.

Lemma rounds_to_R_of s x z :
  0 <= x -> rounds_to s x z ->
  exists e, binade e x /\ R_of z = sgn s (Rmin (rnd e x) (bpow emax)).
Proof.
  intros Hx (e & Hb & ->). exists e. split; [assumption|].
  pose proof (binade_nearest e x Hx Hb) as [H1 H2].
  destruct Hb as (He & _). now apply pack_R_of.
Qed.

Lemma rnd_nonneg e x : 0 <= x -> 0 <= rnd e x.
Proof.
  intros Hx. unfold rnd. pose proof (bpow_gt_0 e).
  apply Rmult_le_pos; [|lra]. apply IZR_le. apply ZnearestE_ge.
  apply IZR_le_div_bpow. lra.
Qed.

Lemma rnd_le ex ey x y :
  0 <= x <= y -> binade ex x -> binade ey y -> rnd ex x <= rnd ey y.
Proof.
  intros [Hx Hxy] Bx By.
  pose proof (binade_nearest ex x Hx Bx) as [Hx1 Hx2].
  pose proof (binade_nearest ey y ltac:(lra) By) as [Hy1 Hy2].
  destruct Bx as (Lx & Ux & Nx), By as (Ly & Uy & Ny).
  pose proof (bpow_gt_0 ex). pose proof (bpow_gt_0 ey).
  destruct (Z.lt_trichotomy ex ey) as [H1|[H1|H1]].
  - specialize (Hy2 ltac:(lia)). unfold rnd.
    apply Rle_trans with (bpow prec * bpow ex).
    + apply Rmult_le_compat_r; [lra|]. rewrite (bpow_IZR prec) by (unfold prec; lia). apply IZR_le, Hx1.
    + apply Rle_trans with (bpow (prec - 1) * bpow ey).
      * rewrite <- !bpow_plus. apply bpow_le. lia.
      * apply Rmult_le_compat_r; [lra|]. rewrite (bpow_IZR (prec - 1)) by (unfold prec; lia). now apply IZR_le.
  - subst ey. unfold rnd. apply Rmult_le_compat_r; [lra|]. apply IZR_le, ZnearestE_le.
    unfold Rdiv. apply Rmult_le_compat_r; [|lra]. apply Rlt_le, Rinv_0_lt_compat. lra.
  - exfalso. specialize (Nx ltac:(lia)).
    assert (bpow (ey + prec) <= bpow (ex + prec - 1)) by (apply bpow_le; lia). lra.
Qed.

Lemma rnd_error e x : Rabs (rnd e x - x) <= bpow e / 2.
Proof.
  unfold rnd. pose proof (bpow_gt_0 e) as Hp.
  pose proof (ZnearestE_error (x / bpow e)) as H.
  replace (IZR (ZnearestE (x / bpow e)) * bpow e - x)
    with ((IZR (ZnearestE (x / bpow e)) - x / bpow e) * bpow e) by (field; lra).
  rewrite Rabs_mult, (Rabs_pos_eq (bpow e)) by lra. nra.
Qed.

Lemma Rounded_valid X z : Rounded X z -> valid z.
Proof. intros (s & H & _). apply rounds_to_valid with s (Rabs X); [apply Rabs_pos | assumption]. Qed.

Lemma Rounded_not_nan X z : Rounded X z -> is_nan z = false.
Proof. intros (s & H & _). apply rounds_to_not_nan with s (Rabs X); [apply Rabs_pos | assumption]. Qed.

Lemma Rounded_R_of X z :
  Rounded X z ->
  exists e, binade e (Rabs X) /\
    R_of z = if Rlt_dec X 0 then - Rmin (rnd e (- X)) (bpow emax)
             else Rmin (rnd e X) (bpow emax).
Proof.
  intros (s & H & Hneg & Hpos).
  apply rounds_to_R_of in H; [|apply Rabs_pos].
  destruct H as (e & Hb & HR). exists e. split; [assumption|]. rewrite HR.
  destruct (Rlt_dec X 0) as [Hlt|Hge].
  - rewrite (Hneg Hlt). rewrite Rabs_left by assumption. reflexivity.
  - destruct (Rle_lt_or_eq_dec 0 X ltac:(lra)) as [Hgt|Heq].
    + rewrite (Hpos Hgt). rewrite Rabs_pos_eq by lra. reflexivity.
    + subst X. rewrite Rabs_R0. unfold rnd, Rdiv. rewrite Rmult_0_l, ZnearestE_IZR, Rmult_0_l.
      pose proof (bpow_gt_0 emax). rewrite Rmin_left by lra. destruct s; cbn; lra.
Qed.

Theorem Rounded_le X Y zx zy :
  Rounded X zx -> Rounded Y zy -> X <= Y -> R_of zx <= R_of zy.
Proof.
  intros HX HY Hle.
  apply Rounded_R_of in HX, HY.
  destruct HX as (ex & Bx & ->), HY as (ey & By & ->).
  pose proof (bpow_gt_0 emax) as Hq.
  destruct (Rlt_dec X 0) as [Xn|Xp], (Rlt_dec Y 0) as [Yn|Yp]; try lra.
  - rewrite Rabs_left in Bx, By by assumption.
    pose proof (rnd_le ey ex (- Y) (- X) ltac:(lra) By Bx).
    apply Ropp_le_contravar. apply Rle_min_compat_r. assumption.
  - pose proof (rnd_nonneg ex (- X) ltac:(lra)). pose proof (rnd_nonneg ey Y ltac:(lra)).
    assert (0 <= Rmin (rnd ex (- X)) (bpow emax)) by (apply Rmin_glb; lra).
    assert (0 <= Rmin (rnd ey Y) (bpow emax)) by (apply Rmin_glb; lra). lra.
  - rewrite Rabs_pos_eq in Bx, By by lra.
    pose proof (rnd_le ex ey X Y ltac:(lra) Bx By).
    apply Rle_min_compat_r. assumption.
Qed.

Theorem Rounded_self z :
  valid z -> is_finite z = true -> Rounded (R_of z) z.
Proof.
  unfold valid. destruct z as [s| | |s m e]; try discriminate; intros V _.
  - exists s. cbn [R_of]. rewrite Rabs_R0. split; [|split; intros; lra].
    exists emin. split.
    + split; [lia|]. split; [apply bpow_gt_0 | lia].
    + unfold Rdiv. rewrite Rmult_0_l, ZnearestE_IZR. reflexivity.
  - cbn [valid_binary] in V. pose proof (bounded_inv m e V) as (He & Hu & Hl).
    pose proof (F2R_pos m e) as Hpos. pose proof (bpow_gt_0 e) as Hp.
    assert (Habs : Rabs (R_of (S754_finite s m e)) = F2R (Zpos m) e).
    { cbn [R_of]. destruct s; cbn [signed cond_Zopp]; rewrite ?F2R_neg.
      - rewrite Rabs_left; lra.
      - rewrite Rabs_pos_eq; lra. }
    exists s. rewrite Habs. split; [|split].
    + exists e. split.
      * split; [lia|]. split.
        -- unfold F2R. rewrite bpow_plus, Rmult_comm.
           apply Rmult_lt_compat_l; [assumption|].
           rewrite bpow_IZR by (unfold prec; lia). now apply IZR_lt.
        -- intros Hgt. specialize (Hl Hgt).
           replace (e + prec - 1)%Z with (e + (prec - 1))%Z by lia.
           unfold F2R. rewrite bpow_plus, Rmult_comm.
           apply Rmult_le_compat_r; [lra|].
           rewrite bpow_IZR by (unfold prec; lia). now apply IZR_le.
      * unfold F2R. replace (IZR (Zpos m) * bpow e / bpow e) with (IZR (Zpos m)) by (field; lra).
        rewrite ZnearestE_IZR. unfold pack.
        destruct (Z.eqb_spec (Zpos m) (2 ^ prec)); [lia|].
        destruct (Z.leb_spec e (emax - prec)); [reflexivity | lia].
    + cbn [R_of]. destruct s; [reflexivity|]. cbn [signed cond_Zopp]. lra.
    + cbn [R_of]. destruct s; [|reflexivity]. cbn [signed cond_Zopp]. rewrite F2R_neg. lra.
Qed.

(** Rounding a real that a number stands for gives back that real. *)
Corollary Rounded_exact z0 z :
  valid z0 -> is_finite z0 = true -> Rounded (R_of z0) z -> R_of z = R_of z0.
Proof.
  intros V F H. pose proof (Rounded_self z0 V F) as H0.
  apply Rle_antisym; [apply (Rounded_le _ _ _ _ H H0) | apply (Rounded_le _ _ _ _ H0 H)]; lra.
Qed.

End Rounded.

(* ================================================================== *)
(** * Normalisation and multiplication *)

Lemma iter_xO m d : Zpos (Pos.iter xO m d) = Zpos m * 2 ^ Zpos d.
Proof.
  induction d as [|d IH] using Pos.peano_ind.
  - cbn. lia.
  - rewrite Pos.iter_succ, Pos2Z.inj_succ, Z.pow_succ_r by lia.
    rewrite Pos2Z.inj_xO, IH. lia.
Qed.

Lemma shl_align_spec m e e' :
  let '(m', e'') := shl_align m e e' in
  e'' = Z.min e e' /\ Zpos m' = Zpos m * 2 ^ (e - e'').
Proof.
  unfold shl_align. destruct (e' - e) as [|d|d] eqn:E.
  - split; [lia|]. replace (e - e) with 0 by lia. lia.
  - split; [lia|]. replace (e - e) with 0 by lia. lia.
  - split; [lia|]. rewrite iter_xO. f_equal. f_equal. lia.
Qed.

Lemma Zdigits2_mul_pow m k :
  0 < m -> 0 <= k -> Zdigits2 m + k <= Zdigits2 (m * 2 ^ k).
Proof.
  intros Hm Hk. pose proof (Zdigits2_bounds m Hm) as [Hl _].
  pose proof (Zdigits2_pos_gt m Hm).
  replace (Zdigits2 m + k) with (Zdigits2 m - 1 + k + 1) by lia.
  apply Zdigits2_ge; [lia|]. rewrite Z.pow_add_r by lia.
  apply Z.mul_le_mono_nonneg_r; [apply Z.pow_nonneg; lia | assumption].
Qed.

Lemma fexp_mono a b : a <= b -> fexp prec emax a <= fexp prec emax b.
Proof. rewrite !fexp_eq. lia. Qed.

Section Ops.
Local Open Scope R_scope.

Lemma F2R_shift m e k : (0 <= k)%Z -> F2R (m * 2 ^ k) (e - k) = F2R m e.
Proof.
  intros Hk. unfold F2R. rewrite mult_IZR, <- bpow_IZR by assumption.
  rewrite Rmult_assoc, <- bpow_plus. f_equal. f_equal. lia.
Qed.

Lemma F2R_div_bpow m e : F2R m e / bpow e = IZR m.
Proof. unfold F2R. pose proof (bpow_gt_0 e). field. lra. Qed.

Theorem binary_round_correct s m e :
  rounds_to s (F2R (Zpos m) e) (binary_round prec emax s m e).
Proof.
  unfold binary_round.
  pose proof (shl_align_spec m e (fexp prec emax (Zpos (digits2_pos m) + e))) as H.
  destruct (shl_align m e _) as [mz ez]. destruct H as [Hez Hmz].
  set (e1 := fexp prec emax (Zpos (digits2_pos m) + e)) in *.
  assert (Hk : (0 <= e - ez)%Z) by lia.
  apply binary_round_aux_correct.
  - lia.
  - cbn [inloc]. rewrite Hmz.
    rewrite <- (F2R_shift (Zpos m) e (e - ez) Hk).
    replace (e - (e - ez))%Z with ez by lia. apply F2R_div_bpow.
  - rewrite Hmz.
    apply Z.le_trans with e1; [lia|]. unfold e1. apply fexp_mono.
    pose proof (Zdigits2_mul_pow (Zpos m) (e - ez) ltac:(lia) Hk) as Hd.
    change (Zdigits2 (Zpos m)) with (Zpos (digits2_pos m)) in Hd. lia.
Qed.

Lemma R_of_finite s m e : R_of (S754_finite s m e) = sgn s (F2R (Zpos m) e).
Proof. cbn [R_of]. destruct s; cbn [signed cond_Zopp sgn]; [apply F2R_neg | reflexivity]. Qed.

Lemma rounds_to_zero s : rounds_to s 0 (S754_zero s).
Proof.
  exists emin. split.
  - split; [lia|]. split; [apply bpow_gt_0 | lia].
  - unfold Rdiv. rewrite Rmult_0_l, ZnearestE_IZR. reflexivity.
Qed.

Lemma Rounded_zero s : Rounded 0 (S754_zero s).
Proof.
  exists s. rewrite Rabs_R0. split; [apply rounds_to_zero | split; intros; lra].
Qed.

(** An integer mantissa at an exponent, normalised. *)
Theorem binary_normalize_correct m e sz :
  Rounded (F2R m e) (binary_normalize prec emax m e sz).
Proof.
  destruct m as [|p|p]; cbn [binary_normalize].
  - unfold F2R. rewrite Rmult_0_l. apply Rounded_zero.
  - pose proof (F2R_pos p e). exists false. rewrite Rabs_pos_eq by lra.
    split; [apply binary_round_correct | split; intros; [lra | reflexivity]].
  - pose proof (F2R_pos p e). exists true.
    change (Zneg p) with (- Zpos p)%Z. rewrite F2R_neg, Rabs_left by lra.
    rewrite Ropp_involutive.
    split; [apply binary_round_correct | split; intros; [reflexivity | lra]].
Qed.

(** Multiplication of finite valid numbers rounds the exact product. *)
Theorem mul_finite_correct sx mx ex sy my ey :
  bounded prec emax mx ex = true -> bounded prec emax my ey = true ->
  Rounded (R_of (S754_finite sx mx ex) * R_of (S754_finite sy my ey))
          (mul (S754_finite sx mx ex) (S754_finite sy my ey)).
Proof.
  intros Vx Vy. unfold mul. cbn [SFmul]. rewrite !R_of_finite.
  pose proof (F2R_pos mx ex) as Px. pose proof (F2R_pos my ey) as Py.
  assert (Pxy : 0 < F2R (Zpos mx) ex * F2R (Zpos my) ey) by nra.
  assert (E : F2R (Zpos mx) ex * F2R (Zpos my) ey = F2R (Zpos (mx * my)) (ex + ey)).
  { unfold F2R. rewrite Pos2Z.inj_mul, mult_IZR, bpow_plus. ring. }
  exists (xorb sx sy). split; [|split].
  - replace (Rabs (sgn sx (F2R (Zpos mx) ex) * sgn sy (F2R (Zpos my) ey)))
      with (F2R (Zpos (mx * my)) (ex + ey)).
    + apply binary_round_aux_correct.
      * lia.
      * cbn [inloc]. apply F2R_div_bpow.
      * unfold bounded, canonical_mantissa in Vx, Vy.
        rewrite andb_true_iff, Z.eqb_eq, Z.leb_le, fexp_eq in Vx, Vy.
        pose proof (digits2_pos_bounds mx) as [Hx _].
        pose proof (digits2_pos_bounds my) as [Hy _].
        assert (Hd : (Zpos (digits2_pos mx) - 1 + (Zpos (digits2_pos my) - 1) + 1
                      <= Zdigits2 (Zpos (mx * my)))%Z).
        { apply Zdigits2_ge; [lia|]. rewrite Z.pow_add_r by lia.
          rewrite Pos2Z.inj_mul. apply Z.mul_le_mono_nonneg; try lia; apply Z.pow_nonneg; lia. }
        rewrite fexp_eq. unfold emin in *. lia.
    + rewrite <- E. destruct sx, sy; cbn [sgn]; [rewrite Rabs_pos_eq | rewrite Rabs_left | rewrite Rabs_left | rewrite Rabs_pos_eq]; nra.
  - destruct sx, sy; cbn [sgn xorb]; intros; try reflexivity; nra.
  - destruct sx, sy; cbn [sgn xorb]; intros; try reflexivity; nra.
Qed.

Lemma new_location_correct q d r :
  (0 < d)%Z -> (0 <= r < d)%Z ->
  inloc q (new_location d r) (IZR q + IZR r / IZR d).
Proof.
  intros Hd Hr.
  assert (Hd' : 0 < IZR d) by (apply IZR_lt; lia).
  assert (Hr1 : IZR r < IZR d) by (apply IZR_lt; lia).
  destruct (Z.eq_dec r 0) as [Hr0|Hr'].
  - subst r. unfold new_location, new_location_even, new_location_odd.
    destruct (IntDef.Z.even d); cbn [Z.eqb inloc]; unfold Rdiv; lra.
  - set (f := IZR r / IZR d).
    assert (E : IZR r = f * IZR d) by (unfold f; field; lra).
    assert (Hrpos : 0 < IZR r) by (apply IZR_lt; lia).
    assert (Hf0 : 0 < f) by nra. assert (Hf1 : f < 1) by nra.
    unfold new_location, new_location_even, new_location_odd.
    destruct (IntDef.Z.even d) eqn:Ev; change (IntDef.Z.even d) with (Z.even d) in Ev;
      destruct (Z.eqb_spec r 0) as [|_]; try contradiction.
    + destruct (Z.compare_spec (2 * r) d) as [C|C|C]; cbn [inloc].
      * apply (f_equal IZR) in C. rewrite mult_IZR in C. nra.
      * apply IZR_lt in C. rewrite mult_IZR in C. nra.
      * apply IZR_lt in C. rewrite mult_IZR in C. nra.
    + assert (Hodd : (2 * r <> d)%Z).
      { intros C. rewrite <- C, Z.even_mul in Ev. discriminate. }
      destruct (Z.compare_spec (2 * r + 1) d) as [C|C|C]; cbn [inloc].
      * assert (L : (2 * r < d)%Z) by lia. apply IZR_lt in L. rewrite mult_IZR in L. nra.
      * assert (L : (2 * r < d)%Z) by lia. apply IZR_lt in L. rewrite mult_IZR in L. nra.
      * assert (G : (d < 2 * r)%Z) by lia. apply IZR_lt in G. rewrite mult_IZR in G. nra.
Qed.

End Ops.

(* ================================================================== *)
(** * Division, subtraction and the comparison of rounded values *)

Lemma div_core_digits m1 m2 s q r d1 d2 :
  0 < m1 -> 0 < m2 -> 0 <= s ->
  2 ^ (d1 - 1) <= m1 -> m2 < 2 ^ d2 -> 0 < d1 -> 0 < d2 ->
  m1 * 2 ^ s = m2 * q + r -> 0 <= r < m2 ->
  0 <= q /\ (0 <= d1 + s - 1 - d2 -> d1 + s - d2 <= Zdigits2 q).
Proof.
  intros Hm1 Hm2 Hs Hd1 Hd2 Pd1 Pd2 E Hr.
  assert (Hq : 0 <= q) by nia.
  split; [assumption|]. intros Hk.
  assert (Hp : 2 ^ (d1 - 1) * 2 ^ s <= m1 * 2 ^ s)
    by (apply Z.mul_le_mono_nonneg_r; [apply Z.pow_nonneg; lia | assumption]).
  rewrite <- Z.pow_add_r in Hp by lia.
  replace (d1 - 1 + s) with ((d1 + s - 1 - d2) + d2) in Hp by lia.
  rewrite Z.pow_add_r in Hp by lia.
  set (k := d1 + s - 1 - d2) in *.
  assert (Hk2 : 0 < 2 ^ k) by (apply Z.pow_pos_nonneg; lia).
  assert (H2 : 2 ^ k <= q) by nia.
  replace (d1 + s - d2) with (k + 1) by (unfold k; lia).
  now apply Zdigits2_ge.
Qed.

Section Ops2.
Local Open Scope R_scope.

Lemma sgn_div sx sy a b :
  0 < a -> 0 < b -> sgn sx a / sgn sy b = sgn (xorb sx sy) (a / b).
Proof. intros Ha Hb. destruct sx, sy; cbn [sgn xorb]; field; lra. Qed.

Lemma Rounded_sgn s X z : 0 < X -> rounds_to s X z -> Rounded (sgn s X) z.
Proof.
  intros HX H. exists s. destruct s; cbn [sgn].
  - rewrite Rabs_left by lra. rewrite Ropp_involutive.
    split; [assumption | split; intros; [reflexivity | lra]].
  - rewrite Rabs_pos_eq by lra.
    split; [assumption | split; intros; [lra | reflexivity]].
Qed.

Theorem div_finite_correct sx mx ex sy my ey :
  Rounded (R_of (S754_finite sx mx ex) / R_of (S754_finite sy my ey))
          (div (S754_finite sx mx ex) (S754_finite sy my ey)).
Proof.
  unfold div. cbn [SFdiv]. unfold SFdiv_core_binary.
  set (d1 := Zdigits2 (Zpos mx)). set (d2 := Zdigits2 (Zpos my)).
  set (e' := Z.min (fexp prec emax (d1 + ex - (d2 + ey))) (ex - ey)).
  set (s := (ex - ey - e')%Z).
  assert (Hs : (0 <= s)%Z) by (unfold s, e'; lia).
  assert (Hm' : match s with
                | Zpos _ => Z.shiftl (Zpos mx) s
                | Z0 => Zpos mx
                | Zneg _ => 0%Z
                end = (Zpos mx * 2 ^ s)%Z).
  { destruct s as [|p|p]; [lia | | lia]. now rewrite Z.shiftl_mul_pow2 by lia. }
  rewrite Hm'.
  pose proof (Z_div_mod (Zpos mx * 2 ^ s) (Zpos my) ltac:(lia)) as Hdm.
  destruct (Z.div_eucl (Zpos mx * 2 ^ s) (Zpos my)) as [q r]. destruct Hdm as [Eq Hr].
  pose proof (digits2_pos_bounds mx) as [Hx1 Hx2].
  pose proof (digits2_pos_bounds my) as [Hy1 Hy2].
  pose proof (div_core_digits (Zpos mx) (Zpos my) s q r d1 d2 ltac:(lia) ltac:(lia) Hs
                Hx1 Hy2 ltac:(unfold d1; cbn; lia) ltac:(unfold d2; cbn; lia) Eq Hr) as [Hq Hdq].
  rewrite !R_of_finite.
  pose proof (F2R_pos mx ex) as Px. pose proof (F2R_pos my ey) as Py.
  assert (Pxy : 0 < F2R (Zpos mx) ex / F2R (Zpos my) ey)
    by (apply Rdiv_lt_0_compat; assumption).
  rewrite sgn_div by assumption. apply Rounded_sgn; [assumption|].
  apply binary_round_aux_correct.
  - assumption.
  - replace (F2R (Zpos mx) ex / F2R (Zpos my) ey / bpow e')
      with (IZR q + IZR r / IZR (Zpos my)); [apply new_location_correct; lia|].
    assert (Hmy : 0 < IZR (Zpos my)) by (apply IZR_lt; lia).
    apply (f_equal IZR) in Eq. rewrite plus_IZR, !mult_IZR, <- bpow_IZR in Eq by assumption.
    unfold F2R. replace ex with (s + ey + e')%Z by (unfold s; lia).
    rewrite !bpow_plus.
    pose proof (bpow_gt_0 ey). pose proof (bpow_gt_0 e'). pose proof (bpow_gt_0 s).
    apply Rmult_eq_reg_r with (IZR (Zpos my)); [|lra].
    transitivity (IZR (Zpos my) * IZR q + IZR r); [field; lra|].
    rewrite <- Eq. field. lra.
  - destruct (Z_le_gt_dec 0 (d1 + s - 1 - d2)) as [Hk|Hk].
    + specialize (Hdq Hk).
      apply Z.le_trans with (fexp prec emax (d1 + ex - (d2 + ey))); [unfold e'; lia|].
      apply fexp_mono. unfold s in Hdq. lia.
    + pose proof (Zdigits2_nonneg q). rewrite fexp_eq. clear Hm' Eq Hdq.
      unfold s, e' in *. rewrite fexp_eq in *. lia.
Qed.

Theorem sub_finite_correct sx mx ex sy my ey :
  Rounded (R_of (S754_finite sx mx ex) - R_of (S754_finite sy my ey))
          (sub (S754_finite sx mx ex) (S754_finite sy my ey)).
Proof.
  unfold sub. cbn [SFsub].
  pose proof (shl_align_spec mx ex (Z.min ex ey)) as Hx.
  pose proof (shl_align_spec my ey (Z.min ex ey)) as Hy.
  destruct (shl_align mx ex (Z.min ex ey)) as [mx' ex'].
  destruct (shl_align my ey (Z.min ex ey)) as [my' ey'].
  cbn [fst]. destruct Hx as [Hex Hmx], Hy as [Hey Hmy].
  set (ez := Z.min ex ey) in *.
  assert (Eex : ex' = ez) by lia. assert (Eey : ey' = ez) by lia. subst ex' ey'.
  match goal with |- Rounded ?X (binary_normalize _ _ ?M _ _) =>
    replace X with (F2R M ez); [apply binary_normalize_correct|] end.
  rewrite !R_of_finite. unfold F2R. rewrite minus_IZR.
  assert (Ex : IZR (Zpos mx') * bpow ez = IZR (Zpos mx) * bpow ex).
  { rewrite Hmx. apply (F2R_shift (Zpos mx) ex (ex - ez)) || idtac.
    rewrite mult_IZR, <- bpow_IZR, Rmult_assoc, <- bpow_plus by lia. do 2 f_equal. lia. }
  assert (Ey : IZR (Zpos my') * bpow ez = IZR (Zpos my) * bpow ey).
  { rewrite Hmy.
    rewrite mult_IZR, <- bpow_IZR, Rmult_assoc, <- bpow_plus by lia. do 2 f_equal. lia. }
  destruct sx, sy; cbn [cond_Zopp sgn]; rewrite ?opp_IZR; lra.
Qed.

(** ** The operators on all finite valid numbers *)

Theorem mul_correct x y :
  valid x -> valid y -> is_finite x = true -> is_finite y = true ->
  Rounded (R_of x * R_of y) (mul x y).
Proof.
  unfold valid.
  destruct x as [sx| | |sx mx ex], y as [sy| | |sy my ey]; try discriminate;
    intros Vx Vy _ _.
  - cbn [R_of]. rewrite Rmult_0_l. apply Rounded_zero.
  - cbn [R_of mul SFmul]. rewrite Rmult_0_l. apply Rounded_zero.
  - cbn [R_of mul SFmul]. rewrite Rmult_0_r. apply Rounded_zero.
  - now apply mul_finite_correct.
Qed.

Theorem div_correct x y :
  is_finite x = true -> is_finite y = true -> R_of y <> 0 ->
  Rounded (R_of x / R_of y) (div x y).
Proof.
  destruct x as [sx| | |sx mx ex], y as [sy| | |sy my ey]; try discriminate;
    intros _ _ Hy.
  - cbn [R_of] in Hy. lra.
  - cbn [div SFdiv]. change (R_of (S754_zero sx)) with 0. unfold Rdiv.
    rewrite Rmult_0_l. apply Rounded_zero.
  - cbn [R_of] in Hy. lra.
  - apply div_finite_correct.
Qed.

Theorem sub_correct x y :
  valid x -> valid y -> is_finite x = true -> is_finite y = true ->
  Rounded (R_of x - R_of y) (sub x y).
Proof.
  destruct x as [sx| | |sx mx ex], y as [sy| | |sy my ey]; try discriminate;
    intros Vx Vy _ _.
  - cbn [R_of]. rewrite Rminus_0_r.
    destruct sx, sy; cbn [sub SFsub]; apply Rounded_zero.
  - cbn [sub SFsub]. change (R_of (S754_zero sx)) with 0.
    replace (0 - R_of (S754_finite sy my ey)) with (R_of (S754_finite (negb sy) my ey)).
    + now apply Rounded_self.
    + rewrite !R_of_finite. destruct sy; cbn [sgn negb]; lra.
  - cbn [sub SFsub]. change (R_of (S754_zero sy)) with 0. rewrite Rminus_0_r.
    now apply Rounded_self.
  - apply sub_finite_correct.
Qed.

(** Two roundings compare as the reals they round. *)
Lemma Rounded_le_bool X Y zx zy :
  Rounded X zx -> Rounded Y zy -> X <= Y -> le zx zy = true.
Proof.
  intros HX HY Hle.
  apply le_R_of; eauto using Rounded_valid, Rounded_not_nan, Rounded_le.
Qed.

End Ops2.

(* ================================================================== *)
(** * Finite results *)

Section Finite.
Local Open Scope R_scope.

Lemma valid_R_of_lt x : valid x -> is_finite x = true -> Rabs (R_of x) < bpow emax.
Proof.
  unfold valid. destruct x as [s| | |s m e]; try discriminate; intros V _.
  - cbn [R_of]. rewrite Rabs_R0. apply bpow_gt_0.
  - cbn [valid_binary] in V. pose proof (F2R_lt_emax m e V). pose proof (F2R_pos m e).
    rewrite R_of_finite. destruct s; cbn [sgn]; [rewrite Rabs_left | rewrite Rabs_pos_eq]; lra.
Qed.

Lemma finite_of_R_of_lt z :
  is_nan z = false -> Rabs (R_of z) < bpow emax -> is_finite z = true.
Proof.
  destruct z as [s|s| |s m e]; try reflexivity; try discriminate.
  intros _. cbn [R_of]. pose proof (bpow_gt_0 emax).
  destruct s; [rewrite Rabs_left | rewrite Rabs_pos_eq]; lra.
Qed.

(** A rounding bounded by finite numbers on both sides is finite. *)
Lemma Rounded_finite X z lo hi :
  Rounded X z -> valid lo -> valid hi -> is_finite lo = true -> is_finite hi = true ->
  R_of lo <= X <= R_of hi -> is_finite z = true.
Proof.
  intros HX Vl Vh Fl Fh [H1 H2].
  pose proof (Rounded_le _ _ _ _ (Rounded_self lo Vl Fl) HX H1).
  pose proof (Rounded_le _ _ _ _ HX (Rounded_self hi Vh Fh) H2).
  pose proof (valid_R_of_lt lo Vl Fl) as Bl. pose proof (valid_R_of_lt hi Vh Fh) as Bh.
  apply finite_of_R_of_lt; [eapply Rounded_not_nan; eassumption|].
  apply Rabs_def1; [|apply Rabs_def2 in Bl]; apply Rabs_def2 in Bh; lra.
Qed.

Lemma Rounded_bounds X z lo hi :
  Rounded X z -> valid lo -> valid hi -> is_finite lo = true -> is_finite hi = true ->
  R_of lo <= X <= R_of hi -> R_of lo <= R_of z <= R_of hi.
Proof.
  intros HX Vl Vh Fl Fh [H1 H2]. split.
  - apply (Rounded_le _ _ _ _ (Rounded_self lo Vl Fl) HX H1).
  - apply (Rounded_le _ _ _ _ HX (Rounded_self hi Vh Fh) H2).
Qed.

(** Every finite valid number is an integer multiple of [2^emin]. *)
Lemma valid_multiple x :
  valid x -> is_finite x = true -> exists k, R_of x = IZR k * bpow emin.
Proof.
  unfold valid. destruct x as [s| | |s m e]; try discriminate; intros V _.
  - exists 0%Z. cbn [R_of]. now rewrite Rmult_0_l.
  - cbn [valid_binary] in V. apply bounded_inv in V. destruct V as (He & _).
    exists (signed s m * 2 ^ (e - emin))%Z. cbn [R_of]. unfold F2R.
    rewrite mult_IZR, <- bpow_IZR by lia. rewrite Rmult_assoc, <- bpow_plus.
    do 2 f_equal. lia.
Qed.

Lemma min_number_valid : valid min_number.
Proof. reflexivity. Qed.

Lemma R_of_min_number : R_of min_number = bpow emin.
Proof. unfold min_number. rewrite R_of_finite. cbn [sgn]. unfold F2R. lra. Qed.

(** The difference of two finite valid numbers never rounds to zero unless
    they are equal. *)
Lemma sub_pos x y :
  valid x -> valid y -> is_finite x = true -> is_finite y = true ->
  R_of y < R_of x -> 0 < R_of (sub x y).
Proof.
  intros Vx Vy Fx Fy Hlt.
  destruct (valid_multiple x Vx Fx) as [kx Ex], (valid_multiple y Vy Fy) as [ky Ey].
  pose proof (bpow_gt_0 emin) as Hp.
  assert (Hk : (ky < kx)%Z).
  { apply lt_IZR. rewrite Ex, Ey in Hlt. nra. }
  assert (Hge : bpow emin <= R_of x - R_of y).
  { rewrite Ex, Ey. assert (IZR ky + 1 <= IZR kx) by (rewrite <- plus_IZR; apply IZR_le; lia). nra. }
  pose proof (Rounded_le _ _ _ _ (Rounded_self _ min_number_valid eq_refl)
                (sub_correct x y Vx Vy Fx Fy)) as H.
  rewrite R_of_min_number in H. specialize (H Hge). lra.
Qed.

End Finite.

(** ** Validity is kept by every operator *)

Lemma mul_valid x y : valid x -> valid y -> valid (mul x y).
Proof.
  intros Vx Vy.
  destruct x as [sx|sx| |sx mx ex], y as [sy|sy| |sy my ey]; try reflexivity.
  eapply Rounded_valid. apply mul_finite_correct; assumption.
Qed.

Lemma div_valid x y : valid x -> valid y -> valid (div x y).
Proof.
  intros Vx Vy.
  destruct x as [sx|sx| |sx mx ex], y as [sy|sy| |sy my ey]; try reflexivity.
  eapply Rounded_valid. apply div_finite_correct.
Qed.

Lemma sub_valid x y : valid x -> valid y -> valid (sub x y).
Proof.
  intros Vx Vy.
  destruct x as [sx|sx| |sx mx ex], y as [sy|sy| |sy my ey]; try reflexivity;
    try assumption.
  - destruct sx, sy; reflexivity.
  - destruct sx, sy; reflexivity.
  - eapply Rounded_valid. apply sub_finite_correct.
Qed.

Lemma of_Z_correct n : Rounded (IZR n) (of_Z n).
Proof.
  unfold of_Z. replace (IZR n) with (F2R n 0); [apply binary_normalize_correct|].
  unfold F2R. rewrite bpow_0. ring.
Qed.

Lemma of_Z_valid n : valid (of_Z n).
Proof. eapply Rounded_valid, of_Z_correct. Qed.

(* ================================================================== *)
(** * Math.floor and Math.ceil *)

Lemma div_pow2_abs_le M k : 0 <= k -> Z.abs (M / 2 ^ k) <= Z.abs M.
Proof.
  intros Hk. assert (Hp : 0 < 2 ^ k) by (apply Z.pow_pos_nonneg; lia).
  destruct (Z_le_gt_dec 0 M) as [H|H].
  - pose proof (Z.div_pos M (2 ^ k) H Hp).
    assert (M / 2 ^ k <= M) by (apply Z.div_le_upper_bound; nia). lia.
  - assert (M / 2 ^ k < 0) by (apply Z.div_lt_upper_bound; lia).
    assert (M <= M / 2 ^ k) by (apply Z.div_le_lower_bound; nia). lia.
Qed.

Section Integers.
Local Open Scope R_scope.

(** Integers of magnitude below [2^53] are rounded to themselves. *)
Lemma Rounded_int n z :
  Rounded (IZR n) z -> (Z.abs n < 2 ^ 53)%Z -> R_of z = IZR n /\ is_finite z = true.
Proof.
  intros H Hn.
  assert (Hfin : forall r, R_of z = r -> Rabs r < bpow 53 -> is_finite z = true).
  { intros r <- Hr. apply finite_of_R_of_lt; [eapply Rounded_not_nan; eassumption|].
    apply Rlt_trans with (bpow 53); [assumption | apply bpow_lt; unfold emax; lia]. }
  assert (Habs : Rabs (IZR n) < bpow 53).
  { rewrite <- abs_IZR, bpow_IZR by lia. now apply IZR_lt. }
  enough (R_of z = IZR n) by (split; [assumption | eapply Hfin; eassumption]).
  destruct (Rounded_R_of _ _ H) as (e & Hb & HR).
  assert (He : (emin <= e <= 0)%Z).
  { destruct Hb as (He & _ & Hl). split; [assumption|].
    destruct (Z.eq_dec e emin) as [->|Hne]; [unfold emin; lia|].
    specialize (Hl ltac:(lia)).
    assert (bpow (e + prec - 1) < bpow 53) by lra.
    apply bpow_lt_inv in H0. unfold prec in H0. lia. }
  assert (Hrnd : forall k : Z, rnd e (IZR k) = IZR k).
  { intros k. unfold rnd.
    replace (IZR k / bpow e) with (IZR (k * 2 ^ (- e))).
    - rewrite ZnearestE_IZR, mult_IZR, <- bpow_IZR, Rmult_assoc, <- bpow_plus by lia.
      replace (- e + e)%Z with 0%Z by lia. rewrite bpow_0. ring.
    - rewrite mult_IZR, <- bpow_IZR, bpow_opp by lia. reflexivity. }
  assert (Hmax : bpow 53 < bpow emax) by (apply bpow_lt; unfold emax; lia).
  rewrite HR. destruct (Rlt_dec (IZR n) 0) as [Hneg|Hpos].
  - rewrite <- opp_IZR, Hrnd, opp_IZR. rewrite Rabs_left in Habs by assumption.
    rewrite Rmin_left by lra. ring.
  - rewrite Hrnd. rewrite Rabs_pos_eq in Habs by lra. apply Rmin_left. lra.
Qed.

Lemma Zfloor_div a b : (0 < b)%Z -> Zfloor (IZR a / IZR b) = (a / b)%Z.
Proof.
  intros Hb. apply Zfloor_eq.
  assert (Hb' : 0 < IZR b) by (apply IZR_lt; lia).
  pose proof (Z.div_mod a b ltac:(lia)) as E.
  pose proof (Z.mod_pos_bound a b Hb) as [M1 M2].
  apply (f_equal IZR) in E. rewrite plus_IZR, mult_IZR in E.
  apply IZR_le in M1. apply IZR_lt in M2.
  set (q := IZR (a / b)) in *. set (r := IZR (a mod b)) in *.
  replace (IZR a / IZR b) with (q + r / IZR b) by (rewrite E; field; lra).
  assert (0 <= r / IZR b < 1).
  { split; [apply Rmult_le_pos; [lra | apply Rlt_le, Rinv_0_lt_compat; lra]|].
    apply Rmult_lt_reg_r with (IZR b); [lra|]. unfold Rdiv.
    rewrite Rmult_assoc, Rinv_l; lra. }
  lra.
Qed.

Lemma floorZ_correct s m e : floorZ s m e = Zfloor (F2R (signed s m) e).
Proof.
  unfold floorZ, F2R. destruct (Z.leb_spec 0 e) as [He|He].
  - rewrite bpow_IZR, <- mult_IZR by assumption. now rewrite ZfloorZ.
  - replace (bpow e) with (/ IZR (2 ^ (- e))).
    + symmetry. apply Zfloor_div. apply Z.pow_pos_nonneg; lia.
    + rewrite <- bpow_IZR, <- bpow_opp by lia. f_equal. lia.
Qed.

Lemma ceilZ_correct s m e : ceilZ s m e = Zceil (F2R (signed s m) e).
Proof.
  unfold ceilZ, Zceil. rewrite floorZ_correct. do 2 f_equal.
  rewrite <- F2R_neg. f_equal. destruct s; cbn [negb signed cond_Zopp]; lia.
Qed.

Lemma floorZ_abs s m e : (e < 0)%Z -> (Z.abs (floorZ s m e) <= Zpos m)%Z.
Proof.
  intros He. unfold floorZ. destruct (Z.leb_spec 0 e); [lia|].
  pose proof (div_pow2_abs_le (signed s m) (- e) ltac:(lia)).
  destruct s; cbn [signed cond_Zopp] in *; lia.
Qed.

(** [Math.floor] and [Math.ceil] of a finite number. *)
Theorem Math_floor_correct x :
  valid x -> is_finite x = true ->
  is_finite (Math_floor x) = true /\ valid (Math_floor x) /\
  R_of (Math_floor x) = IZR (Zfloor (R_of x)).
Proof.
  unfold valid. destruct x as [s| | |s m e]; try discriminate; intros V _.
  - cbn [Math_floor R_of is_finite]. rewrite ZfloorZ. auto.
  - cbn [Math_floor]. destruct (Z.leb_spec 0 e) as [He|He].
    + split; [reflexivity|]. split; [assumption|].
      cbn [R_of]. unfold F2R. rewrite bpow_IZR, <- mult_IZR by assumption.
      now rewrite ZfloorZ.
    + cbn [valid_binary] in V. apply bounded_inv in V. destruct V as (_ & Hm & _).
      pose proof (floorZ_abs s m e He) as Ha.
      pose proof (binary_normalize_correct (floorZ s m e) 0 false) as HR.
      replace (F2R (floorZ s m e) 0) with (IZR (floorZ s m e)) in HR
        by (unfold F2R; rewrite bpow_0; ring).
      destruct (Rounded_int _ _ HR ltac:(unfold prec in Hm; lia)) as [E F].
      split; [assumption|]. split; [eapply Rounded_valid; eassumption|].
      rewrite E. cbn [R_of]. now rewrite floorZ_correct.
Qed.

Theorem Math_ceil_correct x :
  valid x -> is_finite x = true ->
  is_finite (Math_ceil x) = true /\ valid (Math_ceil x) /\
  R_of (Math_ceil x) = IZR (Zceil (R_of x)).
Proof.
  unfold valid. destruct x as [s| | |s m e]; try discriminate; intros V _.
  - cbn [Math_ceil R_of is_finite]. unfold Zceil. rewrite Ropp_0, ZfloorZ. auto.
  - cbn [Math_ceil]. destruct (Z.leb_spec 0 e) as [He|He].
    + split; [reflexivity|]. split; [assumption|].
      cbn [R_of]. unfold F2R. rewrite bpow_IZR, <- mult_IZR by assumption.
      unfold Zceil. rewrite <- opp_IZR, ZfloorZ, Z.opp_involutive. reflexivity.
    + cbn [valid_binary] in V. apply bounded_inv in V. destruct V as (_ & Hm & _).
      pose proof (floorZ_abs (negb s) m e He) as Ha.
      pose proof (binary_normalize_correct (ceilZ s m e) 0 true) as HR.
      replace (F2R (ceilZ s m e) 0) with (IZR (ceilZ s m e)) in HR
        by (unfold F2R; rewrite bpow_0; ring).
      destruct (Rounded_int _ _ HR ltac:(unfold ceilZ; unfold prec in Hm; lia)) as [E F].
      split; [assumption|]. split; [eapply Rounded_valid; eassumption|].
      rewrite E. cbn [R_of]. now rewrite ceilZ_correct.
Qed.

Lemma Math_floor_valid x : valid x -> valid (Math_floor x).
Proof.
  intros V. destruct (is_finite x) eqn:F.
  - now apply Math_floor_correct.
  - destruct x; try discriminate; assumption.
Qed.

Lemma Math_ceil_valid x : valid x -> valid (Math_ceil x).
Proof.
  intros V. destruct (is_finite x) eqn:F.
  - now apply Math_ceil_correct.
  - destruct x; try discriminate; assumption.
Qed.

End Integers.

(* ================================================================== *)
(** * Clamping at zero *)

Section Order.
Local Open Scope R_scope.

Lemma R_of_of_Z n : (Z.abs n < 2 ^ 53)%Z -> R_of (of_Z n) = IZR n.
Proof. intros H. apply (Rounded_int n _ (of_Z_correct n) H). Qed.

Lemma of_Z_finite n : (Z.abs n < 2 ^ 53)%Z -> is_finite (of_Z n) = true.
Proof. intros H. apply (Rounded_int n _ (of_Z_correct n) H). Qed.

Lemma zero_valid : valid zero.
Proof. reflexivity. Qed.

Lemma valid_not_nan_of_finite x : is_finite x = true -> is_nan x = false.
Proof. destruct x; try discriminate; reflexivity. Qed.

Lemma gt_zero_R_of x : valid x -> is_nan x = false -> (gt x zero = true <-> 0 < R_of x).
Proof.
  intros V N. unfold gt. change (SFltb zero x) with (lt zero x).
  rewrite (lt_R_of zero x zero_valid V eq_refl N). reflexivity.
Qed.

Lemma clamp_valid x : valid x -> valid (clamp x).
Proof. intros V. unfold clamp. destruct (gt x zero); [assumption | reflexivity]. Qed.

Lemma clamp_not_nan x : is_nan (clamp x) = false.
Proof.
  unfold clamp. destruct (gt x zero) eqn:E; [|reflexivity].
  destruct x; try reflexivity. discriminate.
Qed.

Lemma R_of_clamp x : valid x -> is_nan x = false -> R_of (clamp x) = Rmax (R_of x) 0.
Proof.
  intros V N. unfold clamp. destruct (gt x zero) eqn:E.
  - apply gt_zero_R_of in E; try assumption. rewrite Rmax_left; lra.
  - assert (~ 0 < R_of x) by (rewrite <- gt_zero_R_of, E by assumption; discriminate).
    rewrite Rmax_right by lra. reflexivity.
Qed.

Lemma clamp_nan : clamp NaN = zero.
Proof. reflexivity. Qed.

Lemma le_zero_clamp x : valid x -> le zero (clamp x) = true.
Proof.
  intros V. destruct (is_nan x) eqn:N.
  - destruct x; try discriminate. reflexivity.
  - apply le_R_of; [reflexivity | now apply clamp_valid | reflexivity | apply clamp_not_nan|].
    rewrite R_of_clamp by assumption. change (R_of zero) with 0. apply Rmax_r.
Qed.

Lemma clamp_le x y :
  valid x -> valid y -> is_nan x = false -> is_nan y = false ->
  R_of x <= R_of y -> le (clamp x) (clamp y) = true.
Proof.
  intros Vx Vy Nx Ny H.
  apply le_R_of; try apply clamp_valid; try apply clamp_not_nan; try assumption.
  rewrite !R_of_clamp by assumption. apply Rle_max_compat_r. assumption.
Qed.

(** What [Math.floor] and [Math.ceil] keep on numbers other than [NaN]. *)
Lemma Math_floor_not_nan x : valid x -> is_nan x = false -> is_nan (Math_floor x) = false.
Proof.
  intros V N. destruct (is_finite x) eqn:F.
  - apply valid_not_nan_of_finite. now apply Math_floor_correct.
  - destruct x; try discriminate; reflexivity.
Qed.

Lemma Math_ceil_not_nan x : valid x -> is_nan x = false -> is_nan (Math_ceil x) = false.
Proof.
  intros V N. destruct (is_finite x) eqn:F.
  - apply valid_not_nan_of_finite. now apply Math_ceil_correct.
  - destruct x; try discriminate; reflexivity.
Qed.

Lemma R_of_bounds x : valid x -> - bpow emax <= R_of x <= bpow emax.
Proof.
  intros V. pose proof (bpow_gt_0 emax).
  destruct x as [s|s| |s m e]; cbn [R_of]; try lra.
  - destruct s; lra.
  - pose proof (valid_R_of_lt (S754_finite s m e) V eq_refl) as B.
    apply Rabs_def2 in B. cbn [R_of] in B. lra.
Qed.

Lemma bpow_emax_IZR : bpow emax = IZR (2 ^ emax).
Proof. apply bpow_IZR. unfold emax. lia. Qed.

Lemma Math_floor_le x y :
  valid x -> valid y -> is_nan x = false -> is_nan y = false ->
  R_of x <= R_of y -> R_of (Math_floor x) <= R_of (Math_floor y).
Proof.
  intros Vx Vy Nx Ny H.
  pose proof (R_of_bounds x Vx) as Bx. pose proof (R_of_bounds y Vy) as By.
  destruct (is_finite x) eqn:Fx, (is_finite y) eqn:Fy.
  - destruct (Math_floor_correct x Vx Fx) as (_ & _ & ->).
    destruct (Math_floor_correct y Vy Fy) as (_ & _ & ->).
    apply IZR_le, Zfloor_le, H.
  - destruct (Math_floor_correct x Vx Fx) as (_ & _ & ->).
    pose proof (Zfloor_bound (R_of x)) as [Hf _].
    pose proof (valid_R_of_lt x Vx Fx) as B. apply Rabs_def2 in B.
    destruct y as [|[]| |]; try discriminate; cbn [Math_floor R_of] in *; lra.
  - destruct (Math_floor_correct y Vy Fy) as (_ & _ & ->).
    destruct x as [|[]| |]; try discriminate; cbn [Math_floor R_of] in *.
    + rewrite bpow_emax_IZR, <- opp_IZR. apply IZR_le, Zfloor_lub.
      rewrite opp_IZR, <- bpow_emax_IZR. lra.
    + pose proof (valid_R_of_lt y Vy Fy) as B. apply Rabs_def2 in B. lra.
  - destruct x as [|[]| |], y as [|[]| |]; try discriminate; cbn [Math_floor R_of] in *; lra.
Qed.

Lemma Math_ceil_le x y :
  valid x -> valid y -> is_nan x = false -> is_nan y = false ->
  R_of x <= R_of y -> R_of (Math_ceil x) <= R_of (Math_ceil y).
Proof.
  intros Vx Vy Nx Ny H.
  pose proof (R_of_bounds x Vx) as Bx. pose proof (R_of_bounds y Vy) as By.
  destruct (is_finite x) eqn:Fx, (is_finite y) eqn:Fy.
  - destruct (Math_ceil_correct x Vx Fx) as (_ & _ & ->).
    destruct (Math_ceil_correct y Vy Fy) as (_ & _ & ->).
    apply IZR_le, Zceil_le, H.
  - destruct (Math_ceil_correct x Vx Fx) as (_ & _ & ->).
    destruct y as [|[]| |]; try discriminate; cbn [Math_ceil R_of] in *.
    + pose proof (valid_R_of_lt x Vx Fx) as B. apply Rabs_def2 in B. lra.
    + rewrite bpow_emax_IZR. apply IZR_le. unfold Zceil.
      assert (- 2 ^ emax <= Zfloor (- R_of x))%Z; [|lia].
      apply Zfloor_lub. rewrite opp_IZR, <- bpow_emax_IZR. lra.
  - destruct (Math_ceil_correct y Vy Fy) as (_ & _ & ->).
    pose proof (Zceil_bound (R_of y)) as [_ Hc].
    pose proof (valid_R_of_lt y Vy Fy) as B. apply Rabs_def2 in B.
    destruct x as [|[]| |]; try discriminate; cbn [Math_ceil R_of] in *; lra.
  - destruct x as [|[]| |], y as [|[]| |]; try discriminate; cbn [Math_ceil R_of] in *; lra.
Qed.

End Order.

(* ================================================================== *)
(** * Constants of the calculator *)

Section Pieces.
Local Open Scope R_scope.

Lemma bpow_neg_IZR k : (0 <= k)%Z -> bpow (- k) = / IZR (2 ^ k).
Proof. intros H. now rewrite bpow_opp, bpow_IZR. Qed.

Lemma R_of_100 : R_of (of_Z 100) = 100.
Proof. apply R_of_of_Z. cbn. lia. Qed.

Lemma R_of_1 : R_of (of_Z 1) = 1.
Proof. apply R_of_of_Z. cbn. lia. Qed.

Lemma finite_100 : is_finite (of_Z 100) = true.
Proof. reflexivity. Qed.

(** A number compared with finite bounds is finite. *)
Lemma finite_between x lo hi :
  valid x -> valid lo -> valid hi -> is_finite lo = true -> is_finite hi = true ->
  le lo x = true -> le x hi = true -> is_finite x = true.
Proof.
  intros Vx Vl Vh Fl Fh H1 H2.
  assert (N : is_nan x = false) by (destruct x; try reflexivity; destruct lo; discriminate).
  apply le_R_of in H1, H2; auto using valid_not_nan_of_finite.
  pose proof (valid_R_of_lt lo Vl Fl) as Bl. pose proof (valid_R_of_lt hi Vh Fh) as Bh.
  apply Rabs_def2 in Bl, Bh.
  apply finite_of_R_of_lt; [assumption|]. apply Rabs_def1; lra.
Qed.

Lemma lt_not_nan_l x y : lt x y = true -> is_nan x = false.
Proof. destruct x; try reflexivity. discriminate. Qed.

Lemma lt_not_nan_r x y : lt x y = true -> is_nan y = false.
Proof. destruct y; try reflexivity. destruct x; discriminate. Qed.

Lemma le_not_nan_l x y : le x y = true -> is_nan x = false.
Proof. destruct x; try reflexivity. discriminate. Qed.

Lemma le_not_nan_r x y : le x y = true -> is_nan y = false.
Proof. destruct y; try reflexivity. destruct x; discriminate. Qed.

Lemma lt_le x y : lt x y = true -> le x y = true.
Proof. unfold lt, le, SFltb, SFleb. destruct (SFcompare x y) as [[]|]; congruence. Qed.

Lemma R_of_pred_one : R_of pred_one = 1 - bpow (-53).
Proof.
  unfold pred_one. rewrite R_of_finite. cbn [sgn]. unfold F2R.
  replace (bpow (-53)) with (/ 9007199254740992) by (symmetry; apply (bpow_neg_IZR 53); lia).
  field.
Qed.

(** Below 100 there is no number closer to 100 than [100 - 2^-46]. *)
Lemma below_100 x :
  valid x -> is_finite x = true -> R_of x < 100 -> R_of x <= 100 - bpow (-46).
Proof.
  assert (H46 : bpow (-46) = / 70368744177664).
  { apply (bpow_neg_IZR 46). lia. }
  unfold valid. destruct x as [s| | |s m e]; try discriminate; intros V _ Hlt.
  - cbn [R_of]. rewrite H46. lra.
  - cbn [valid_binary] in V. apply bounded_inv in V. destruct V as (He & Hm & _).
    pose proof (F2R_pos m e) as Hpos. rewrite R_of_finite in *.
    destruct s; cbn [sgn] in *; [rewrite H46; lra|].
    destruct (Z_lt_le_dec e (-46)) as [Hs|Hb].
    + assert (F2R (Zpos m) e <= 64); [|rewrite H46; lra].
      unfold F2R. apply Rle_trans with (bpow prec * bpow e).
      * apply Rmult_le_compat_r; [apply Rlt_le, bpow_gt_0|].
        rewrite bpow_IZR by (unfold prec; lia). apply IZR_le. lia.
      * rewrite <- bpow_plus. replace 64 with (bpow 6) by (rewrite bpow_IZR by lia; reflexivity).
        apply bpow_le. unfold prec. lia.
    + assert (E : F2R (Zpos m) e = IZR (Zpos m * 2 ^ (e + 46)) * bpow (-46)).
      { unfold F2R. rewrite mult_IZR, <- bpow_IZR, Rmult_assoc, <- bpow_plus by lia.
        do 2 f_equal. lia. }
      rewrite E in *. set (k := (Zpos m * 2 ^ (e + 46))%Z) in *.
      assert (Hk : (k < 100 * 2 ^ 46)%Z).
      { apply lt_IZR. rewrite mult_IZR. change (IZR (2 ^ 46)) with 70368744177664.
        rewrite H46 in Hlt. lra. }
      assert (Hk' : IZR k <= IZR (100 * 2 ^ 46 - 1)) by (apply IZR_le; lia).
      rewrite minus_IZR, mult_IZR in Hk'. change (IZR (2 ^ 46)) with 70368744177664 in Hk'.
      rewrite H46. lra.
Qed.

End Pieces.

(* ================================================================== *)
(** * Monotonicity in the attended count *)

(** The fields of the result on numbers, past the guard. *)
Lemma calculateAttendance_fields (a t p : number) :
  le t zero = false ->
  let r := div p (of_Z 100) in
  let cp := mul (div a t) (of_Z 100) in
  currentPercent (calculateAttendance a t p) = Number_toFixed2 cp /\
  canBunk (calculateAttendance a t p) =
    (if ge cp p then clamp (Math_floor (div (sub a (mul r t)) r)) else zero) /\
  needToAttend (calculateAttendance a t p) =
    (if ge cp p then zero
     else clamp (Math_ceil (div (sub (mul r t) a) (sub (of_Z 1) r)))).
Proof.
  intros Ht. unfold calculateAttendance, calculateAttendance_with. cbn [ToNumber].
  rewrite Ht. cbn zeta. destruct (ge _ p); cbn; auto.
Qed.

Section Monotone.
Local Open Scope R_scope.

Lemma R_of_opp x : R_of (SFopp x) = - R_of x.
Proof.
  destruct x as [s|s| |s m e]; cbn [SFopp R_of]; try lra.
  - destruct s; cbn [negb]; lra.
  - rewrite <- F2R_neg. f_equal. destruct s; cbn [negb signed cond_Zopp]; lia.
Qed.

Lemma valid_opp x : valid x -> valid (SFopp x).
Proof. destruct x; auto. Qed.

Lemma is_finite_opp x : is_finite (SFopp x) = is_finite x.
Proof. destruct x; reflexivity. Qed.

Variables t p : number.
Hypothesis Vt : valid t.
Hypothesis Vp : valid p.
Hypothesis Ft : is_finite t = true.
Hypothesis Fp : is_finite p = true.
Hypothesis Ht : 0 < R_of t.
Hypothesis Hp : 0 < R_of p < 100.

Let r := div p (of_Z 100).
Let m := mul r t.
Let d := sub (of_Z 1) r.

Lemma Rounded_r : Rounded (R_of p / 100) r.
Proof.
  unfold r. rewrite <- R_of_100. apply div_correct; [assumption | reflexivity|].
  rewrite R_of_100. lra.
Qed.

Lemma r_facts : valid r /\ is_finite r = true /\ 0 <= R_of r <= R_of pred_one.
Proof.
  pose proof Rounded_r as H.
  assert (B : R_of zero <= R_of p / 100 <= R_of pred_one).
  { change (R_of zero) with 0. rewrite R_of_pred_one.
    pose proof (below_100 p Vp Fp ltac:(lra)) as Hb.
    replace (bpow (-53)) with (/ 9007199254740992) by (symmetry; apply (bpow_neg_IZR 53); lia).
    replace (bpow (-46)) with (/ 70368744177664) in Hb by (symmetry; apply (bpow_neg_IZR 46); lia).
    lra. }
  split; [eapply Rounded_valid; eassumption|]. split.
  - eapply Rounded_finite with (lo := zero) (hi := pred_one); try eassumption; reflexivity.
  - eapply Rounded_bounds with (lo := zero) (hi := pred_one) in H; try eassumption; try reflexivity.
Qed.

Lemma r_lt_1 : R_of r < 1.
Proof.
  destruct r_facts as (_ & _ & _ & H). rewrite R_of_pred_one in H.
  pose proof (bpow_gt_0 (-53)). lra.
Qed.

Lemma Rounded_m : Rounded (R_of r * R_of t) m.
Proof. destruct r_facts as (V & F & _). unfold m. now apply mul_correct. Qed.

Lemma m_facts : valid m /\ is_finite m = true /\ 0 <= R_of m <= R_of t.
Proof.
  pose proof Rounded_m as H. destruct r_facts as (_ & _ & B). pose proof r_lt_1.
  assert (B' : R_of zero <= R_of r * R_of t <= R_of t) by (change (R_of zero) with 0; nra).
  split; [eapply Rounded_valid; eassumption|]. split.
  - eapply Rounded_finite with (lo := zero) (hi := t); try eassumption; reflexivity.
  - eapply Rounded_bounds with (lo := zero) (hi := t) in H; try eassumption; reflexivity.
Qed.

Lemma d_facts : valid d /\ is_finite d = true /\ 0 < R_of d.
Proof.
  destruct r_facts as (V & F & _). pose proof r_lt_1 as H1.
  pose proof (sub_correct (of_Z 1) r (of_Z_valid 1) V eq_refl F) as H.
  rewrite R_of_1 in H. fold d in H.
  split; [eapply Rounded_valid; eassumption|]. split.
  - eapply Rounded_finite with (lo := zero) (hi := of_Z 1); try eassumption;
      try reflexivity. rewrite R_of_1. change (R_of zero) with 0.
    destruct r_facts as (_ & _ & B). lra.
  - unfold d. apply sub_pos;
      [apply of_Z_valid | assumption | reflexivity | assumption | rewrite R_of_1; assumption].
Qed.

Lemma cp_facts a :
  in_range t a ->
  valid (cp t a) /\ is_finite (cp t a) = true /\
  exists q, Rounded (R_of a / R_of t) q /\ is_finite q = true /\ valid q /\
            Rounded (R_of q * 100) (cp t a).
Proof.
  intros (Va & Fa & Ba).
  assert (Hq : Rounded (R_of a / R_of t) (div a t)) by (apply div_correct; try assumption; lra).
  assert (Bq : R_of zero <= R_of a / R_of t <= R_of (of_Z 1)).
  { rewrite R_of_1. change (R_of zero) with 0. split.
    - apply Rmult_le_pos; [lra | apply Rlt_le, Rinv_0_lt_compat; lra].
    - apply Rmult_le_reg_r with (R_of t); [lra|]. unfold Rdiv.
      rewrite Rmult_assoc, Rinv_l; lra. }
  assert (Vq : valid (div a t)) by (eapply Rounded_valid; eassumption).
  assert (Fq : is_finite (div a t) = true).
  { eapply Rounded_finite with (lo := zero) (hi := of_Z 1);
      try eassumption; try reflexivity; try apply of_Z_valid. }
  pose proof (Rounded_bounds _ _ zero (of_Z 1) Hq zero_valid (of_Z_valid 1) eq_refl eq_refl Bq) as Bq'.
  rewrite R_of_1 in Bq'. change (R_of zero) with 0 in Bq'.
  assert (Hc : Rounded (R_of (div a t) * 100) (cp t a)).
  { unfold cp. rewrite <- R_of_100.
    apply mul_correct; try assumption; try reflexivity; try apply of_Z_valid. }
  split; [eapply Rounded_valid; eassumption|]. split.
  - eapply Rounded_finite with (lo := zero) (hi := of_Z 100);
      try eassumption; try reflexivity; try apply of_Z_valid.
    rewrite R_of_100. change (R_of zero) with 0. lra.
  - exists (div a t). auto.
Qed.

Lemma cp_le a1 a2 :
  in_range t a1 -> in_range t a2 -> R_of a1 <= R_of a2 -> R_of (cp t a1) <= R_of (cp t a2).
Proof.
  intros R1 R2 H.
  destruct (cp_facts a1 R1) as (_ & _ & q1 & Hq1 & _ & _ & Hc1).
  destruct (cp_facts a2 R2) as (_ & _ & q2 & Hq2 & _ & _ & Hc2).
  assert (R_of q1 <= R_of q2).
  { apply (Rounded_le _ _ _ _ Hq1 Hq2). unfold Rdiv.
    apply Rmult_le_compat_r; [apply Rlt_le, Rinv_0_lt_compat; lra | assumption]. }
  apply (Rounded_le _ _ _ _ Hc1 Hc2). lra.
Qed.

(** Once safe, safe for every larger attended count. *)
Lemma safe_mono a1 a2 :
  in_range t a1 -> in_range t a2 -> R_of a1 <= R_of a2 ->
  ge (cp t a1) p = true -> ge (cp t a2) p = true.
Proof.
  intros R1 R2 H S1. unfold ge in *.
  destruct (cp_facts a1 R1) as (V1 & F1 & _). destruct (cp_facts a2 R2) as (V2 & F2 & _).
  change (SFleb p (cp t a1)) with (le p (cp t a1)) in S1.
  change (SFleb p (cp t a2)) with (le p (cp t a2)).
  apply le_R_of in S1; auto using valid_not_nan_of_finite.
  apply le_R_of; auto using valid_not_nan_of_finite.
  pose proof (cp_le a1 a2 R1 R2 H). lra.
Qed.

Lemma sub_l_facts a :
  in_range t a -> valid (sub a m) /\ is_finite (sub a m) = true /\
                Rounded (R_of a - R_of m) (sub a m).
Proof.
  intros (Va & Fa & Ba). destruct m_facts as (Vm & Fm & Bm).
  pose proof (sub_correct a m Va Vm Fa Fm) as H.
  split; [eapply Rounded_valid; eassumption|]. split; [|assumption].
  eapply Rounded_finite with (lo := SFopp t) (hi := t); try eassumption.
  - now apply valid_opp.
  - now rewrite is_finite_opp.
  - rewrite R_of_opp. lra.
Qed.

Lemma sub_r_facts a :
  in_range t a -> valid (sub m a) /\ is_finite (sub m a) = true /\
                Rounded (R_of m - R_of a) (sub m a).
Proof.
  intros (Va & Fa & Ba). destruct m_facts as (Vm & Fm & Bm).
  pose proof (sub_correct m a Vm Va Fm Fa) as H.
  split; [eapply Rounded_valid; eassumption|]. split; [|assumption].
  eapply Rounded_finite with (lo := SFopp t) (hi := t); try eassumption.
  - now apply valid_opp.
  - now rewrite is_finite_opp.
  - rewrite R_of_opp. lra.
Qed.

Lemma Rounded_pos_zero X z : Rounded X z -> 0 < X -> R_of z = 0 -> z = zero.
Proof.
  intros (s & (e & Hb & ->) & _ & Hs) HX. rewrite (Hs HX).
  pose proof (binade_nearest e _ (Rabs_pos X) Hb) as [[H0 H1] _].
  unfold pack. destruct (ZnearestE (Rabs X / bpow e)) as [|n|n]; [reflexivity| |lia].
  destruct (_ =? _)%Z; destruct (_ <=? _)%Z; cbn [R_of]; intros HR; exfalso.
  - pose proof (F2R_pos (2 ^ 52) (e + 1)). cbn [signed cond_Zopp] in HR. lra.
  - pose proof (bpow_gt_0 emax). lra.
  - pose proof (F2R_pos n e). cbn [signed cond_Zopp] in HR. lra.
  - pose proof (bpow_gt_0 emax). lra.
Qed.

Lemma le_infinity x : is_nan x = false -> le x Infinity = true.
Proof. destruct x as [?|[]| |[] ? ?]; try discriminate; reflexivity. Qed.

Lemma finite_zero_inv a : is_finite a = true -> R_of a = 0 -> exists s, a = S754_zero s.
Proof.
  destruct a as [s| | |s ma ea]; try discriminate; intros _ H; [eauto|].
  rewrite R_of_finite in H. pose proof (F2R_pos ma ea). destruct s; cbn [sgn] in H; lra.
Qed.

Lemma finite_pos_inv a :
  is_finite a = true -> 0 < R_of a -> exists ma ea, a = S754_finite false ma ea.
Proof.
  destruct a as [s| | |s ma ea]; try discriminate; intros _ H.
  - cbn [R_of] in H. lra.
  - rewrite R_of_finite in H. pose proof (F2R_pos ma ea).
    destruct s; cbn [sgn] in H; [lra | eauto].
Qed.

Lemma bunk_le a1 a2 :
  in_range t a1 -> in_range t a2 -> R_of a1 <= R_of a2 -> le (bunk t p a1) (bunk t p a2) = true.
Proof.
  intros R1 R2 H. unfold bunk. cbv zeta. fold r. fold m.
  destruct r_facts as (Vr & Fr & Br & _).
  destruct (sub_l_facts a1 R1) as (Vs1 & Fs1 & Hs1).
  destruct (sub_l_facts a2 R2) as (Vs2 & Fs2 & Hs2).
  assert (Hs : R_of (sub a1 m) <= R_of (sub a2 m)) by (apply (Rounded_le _ _ _ _ Hs1 Hs2); lra).
  destruct (Rle_lt_or_eq_dec _ _ Br) as [Hr|Hr].
  - pose proof (div_correct (sub a1 m) r Fs1 Fr ltac:(lra)) as Hq1.
    pose proof (div_correct (sub a2 m) r Fs2 Fr ltac:(lra)) as Hq2.
    pose proof (Rounded_valid _ _ Hq1) as Vq1. pose proof (Rounded_valid _ _ Hq2) as Vq2.
    pose proof (Rounded_not_nan _ _ Hq1) as Nq1. pose proof (Rounded_not_nan _ _ Hq2) as Nq2.
    apply clamp_le; auto using Math_floor_valid, Math_floor_not_nan.
    apply Math_floor_le; auto.
    apply (Rounded_le _ _ _ _ Hq1 Hq2). unfold Rdiv.
    apply Rmult_le_compat_r; [apply Rlt_le, Rinv_0_lt_compat; lra | assumption].
  - assert (Er : r = zero).
    { apply (Rounded_pos_zero _ _ Rounded_r); [|lra].
      apply Rmult_lt_0_compat; [lra | apply Rinv_0_lt_compat; lra]. }
    destruct (finite_pos_inv t Ft Ht) as (mt & et & Et).
    assert (Em : m = zero) by (unfold m; rewrite Er, Et; reflexivity).
    rewrite Em, Er. destruct R1 as (V1 & F1 & B1), R2 as (V2 & F2 & B2).
    destruct (Rle_lt_or_eq_dec _ _ (proj1 B2)) as [P2|Z2].
    + destruct (finite_pos_inv a2 F2 P2) as (m2 & e2 & ->).
      change (clamp (Math_floor (div (sub (S754_finite false m2 e2) zero) zero))) with Infinity.
      apply le_infinity, clamp_not_nan.
    + destruct (finite_zero_inv a2 F2 (eq_sym Z2)) as [s2 ->].
      destruct (finite_zero_inv a1 F1 ltac:(lra)) as [s1 ->].
      destruct s1, s2; reflexivity.
Qed.

Lemma need_le a1 a2 :
  in_range t a1 -> in_range t a2 -> R_of a1 <= R_of a2 -> le (need t p a2) (need t p a1) = true.
Proof.
  intros R1 R2 H. unfold need. cbv zeta. fold r. fold m. fold d.
  destruct d_facts as (Vd & Fd & Hd).
  destruct (sub_r_facts a1 R1) as (Vs1 & Fs1 & Hs1).
  destruct (sub_r_facts a2 R2) as (Vs2 & Fs2 & Hs2).
  assert (Hs : R_of (sub m a2) <= R_of (sub m a1)) by (apply (Rounded_le _ _ _ _ Hs2 Hs1); lra).
  pose proof (div_correct (sub m a1) d Fs1 Fd ltac:(lra)) as Hq1.
  pose proof (div_correct (sub m a2) d Fs2 Fd ltac:(lra)) as Hq2.
  pose proof (Rounded_valid _ _ Hq1) as Vq1. pose proof (Rounded_valid _ _ Hq2) as Vq2.
  pose proof (Rounded_not_nan _ _ Hq1) as Nq1. pose proof (Rounded_not_nan _ _ Hq2) as Nq2.
  apply clamp_le; auto using Math_ceil_valid, Math_ceil_not_nan.
  apply Math_ceil_le; auto.
  apply (Rounded_le _ _ _ _ Hq2 Hq1). unfold Rdiv.
  apply Rmult_le_compat_r; [apply Rlt_le, Rinv_0_lt_compat; lra | assumption].
Qed.

End Monotone.

(** C7. Holding the total (positive, finite) and the required percentage
    (strictly between 0 and 100) fixed, a larger attended count within
    [0, total] never lowers [canBunk] and never raises [needToAttend],
    also when the two counts fall on different sides of the target. *)
Theorem calculateAttendance_monotone (a1 a2 t p : number) :
  valid a1 -> valid a2 -> valid t -> valid p -> is_finite t = true ->
  lt zero t = true -> lt zero p = true -> lt p (of_Z 100) = true ->
  le zero a1 = true -> le a1 a2 = true -> le a2 t = true ->
  le (canBunk (calculateAttendance a1 t p)) (canBunk (calculateAttendance a2 t p)) = true /\
  le (needToAttend (calculateAttendance a2 t p))
     (needToAttend (calculateAttendance a1 t p)) = true.
Proof.
  intros V1 V2 Vt Vp Ft Ht Hp0 Hp1 H0 H12 H2t.
  assert (Fp : is_finite p = true).
  { apply finite_between with zero (of_Z 100); auto using of_Z_valid, lt_le; reflexivity. }
  assert (N1 : is_nan a1 = false) by (eapply le_not_nan_r; eassumption).
  assert (N2 : is_nan a2 = false) by (eapply le_not_nan_r; eassumption).
  assert (Nt : is_nan t = false) by (now apply valid_not_nan_of_finite).
  assert (Np : is_nan p = false) by (now apply valid_not_nan_of_finite).
  apply lt_R_of in Ht, Hp0, Hp1; auto using of_Z_valid; try reflexivity.
  apply le_R_of in H0, H12, H2t; auto; try reflexivity.
  rewrite R_of_100 in Hp1. change (R_of zero) with 0%R in *.
  assert (F2 : is_finite a2 = true).
  { apply finite_of_R_of_lt; [assumption|].
    pose proof (valid_R_of_lt t Vt Ft) as B. apply Rabs_def2 in B. apply Rabs_def1; lra. }
  assert (F1 : is_finite a1 = true).
  { apply finite_of_R_of_lt; [assumption|].
    pose proof (valid_R_of_lt t Vt Ft) as B. apply Rabs_def2 in B. apply Rabs_def1; lra. }
  assert (R1 : in_range t a1) by (repeat split; try assumption; lra).
  assert (R2 : in_range t a2) by (repeat split; try assumption; lra).
  assert (Hguard : le t zero = false).
  { destruct (le t zero) eqn:E; [|reflexivity].
    apply le_R_of in E; auto; try reflexivity. change (R_of zero) with 0%R in E. lra. }
  destruct (calculateAttendance_fields a1 t p Hguard) as (_ & -> & ->).
  destruct (calculateAttendance_fields a2 t p Hguard) as (_ & -> & ->).
  assert (Hsafe : ge (cp t a1) p = true -> ge (cp t a2) p = true)
    by (eapply safe_mono; eauto).
  unfold cp in Hsafe.
  assert (Hb : le (bunk t p a1) (bunk t p a2) = true) by (eapply bunk_le; eauto).
  assert (Hn : le (need t p a2) (need t p a1) = true) by (eapply need_le; eauto).
  unfold bunk, need in Hb, Hn.
  destruct (ge (mul (div a1 t) (of_Z 100)) p) eqn:S1.
  - rewrite (Hsafe eq_refl). split; [assumption | reflexivity].
  - destruct (ge (mul (div a2 t) (of_Z 100)) p) eqn:S2.
    + split; [apply le_zero_clamp | apply le_zero_clamp].
      * apply Math_floor_valid, div_valid.
        -- apply sub_valid; [assumption|]. apply mul_valid; [|assumption].
           apply div_valid; [assumption | apply of_Z_valid].
        -- apply div_valid; [assumption | apply of_Z_valid].
      * apply Math_ceil_valid, div_valid.
        -- apply sub_valid; [|assumption]. apply mul_valid; [|assumption].
           apply div_valid; [assumption | apply of_Z_valid].
        -- apply sub_valid; [apply of_Z_valid|].
           apply div_valid; [assumption | apply of_Z_valid].
    + split; [reflexivity | assumption].
Qed.

(* ================================================================== *)
(** * The error of one rounding *)

Section Error.
Local Open Scope R_scope.

Lemma Rabs_le_inv x a : Rabs x <= a -> - a <= x <= a.
Proof. unfold Rabs. destruct (Rcase_abs x); lra. Qed.

Lemma roundoff_eq : bpow (-53) = roundoff.
Proof. apply (bpow_neg_IZR 53). lia. Qed.

Lemma eta_ge : bpow (emin - 1) <= eta.
Proof.
  replace eta with (bpow (-100)) by (apply (bpow_neg_IZR 100); lia).
  apply bpow_le. unfold emin. lia.
Qed.

(** Rounding moves a real of moderate size by at most the relative error
    [roundoff], or by the underflow error when the real is tiny. *)
Theorem Rounded_error X z :
  Rounded X z -> Rabs X <= bpow 1023 ->
  Rabs (R_of z - X) <= roundoff * Rabs X + eta.
Proof.
  intros H HX. destruct (Rounded_R_of _ _ H) as (e & Hb & HR).
  pose proof (rnd_error e (Rabs X)) as He.
  pose proof (Rabs_pos X) as HX0.
  assert (Hhalf : bpow e / 2 <= roundoff * Rabs X + eta).
  { destruct Hb as (Hemin & _ & Hl).
    destruct (Z.eq_dec e emin) as [->|Hne].
    - replace (bpow emin / 2) with (bpow (emin - 1))
        by (rewrite bpow_minus, bpow_1; reflexivity).
      pose proof eta_ge. assert (0 <= roundoff * Rabs X) by (apply Rmult_le_pos; [unfold roundoff; lra | assumption]).
      lra.
    - specialize (Hl ltac:(lia)).
      replace (bpow e / 2) with (bpow (-53) * bpow (e + prec - 1)).
      + rewrite roundoff_eq. assert (0 < roundoff) by (unfold roundoff; lra). assert (0 < eta) by (unfold eta; lra). nra.
      + rewrite <- bpow_plus. replace (-53 + (e + prec - 1))%Z with (e - 1)%Z by (unfold prec; lia).
        rewrite bpow_minus, bpow_1. reflexivity. }
  assert (Hmin : Rmin (rnd e (Rabs X)) (bpow emax) = rnd e (Rabs X)).
  { apply Rmin_left. apply Rabs_le_inv in He.
    assert (bpow emax = 2 * bpow 1023)
      by (replace emax with (1023 + 1)%Z by reflexivity; rewrite bpow_succ; ring).
    assert (roundoff * Rabs X <= Rabs X / 2) by (unfold roundoff; lra).
    assert (eta < 1) by (unfold eta; lra).
    assert (2 <= bpow 1023) by (rewrite <- bpow_1; apply bpow_le; lia).
    lra. }
  rewrite HR. destruct (Rlt_dec X 0) as [Hn|Hp].
  - rewrite (Rabs_left X) in * by assumption. rewrite Hmin.
    replace (- rnd e (- X) - X) with (- (rnd e (- X) - - X)) by ring.
    rewrite Rabs_Ropp. lra.
  - rewrite (Rabs_pos_eq X) in * by lra. rewrite Hmin. lra.
Qed.

(** The same as a two-sided bound. *)
Corollary Rounded_error_bounds X z :
  Rounded X z -> Rabs X <= bpow 1023 ->
  X - (roundoff * Rabs X + eta) <= R_of z <= X + (roundoff * Rabs X + eta).
Proof.
  intros H HX. pose proof (Rounded_error X z H HX) as E.
  apply Rabs_le_inv in E. lra.
Qed.

End Error.

(* ================================================================== *)
(** * The error of the two quotients *)

Section RealAnalysis.
Local Open Scope R_scope.

Lemma Rabs_bound x a : - a <= x <= a -> Rabs x <= a.
Proof. apply Rabs_le. Qed.

(** Perturbation of a quotient: if [s'] is within [es] of [s] and [r'] is
    within [er] of [r], then [s'/r'] is within [(es + |s/r| er) / r'] of
    [s/r]. *)
Lemma quotient_perturbation s s' r r' es er :
  0 < r -> 0 < r' -> Rabs (s' - s) <= es -> Rabs (r' - r) <= er ->
  Rabs (s' / r' - s / r) <= (es + Rabs (s / r) * er) / r'.
Proof.
  intros Hr Hr' Hs Her.
  replace (s' / r' - s / r) with (((s' - s) - (s / r) * (r' - r)) / r') by (field; lra).
  unfold Rdiv at 1 3. rewrite Rabs_mult, (Rabs_pos_eq (/ r')) by (apply Rlt_le, Rinv_0_lt_compat; lra).
  apply Rmult_le_compat_r; [apply Rlt_le, Rinv_0_lt_compat; lra|].
  eapply Rle_trans; [apply Rabs_triang|]. rewrite Rabs_Ropp, Rabs_mult.
  apply Rplus_le_compat; [assumption|].
  apply Rmult_le_compat_l; [apply Rabs_pos | assumption].
Qed.

Variables a t rho : R.
Hypothesis Ht : 1 <= t <= 1000000000.
Hypothesis Ha : 0 <= a <= t.
Hypothesis Hrho : / 100 <= rho <= 1.

Variables r m : R.
Hypothesis Hr : Rabs (r - rho) <= roundoff * Rabs rho + eta.
Hypothesis Hm : Rabs (m - r * t) <= roundoff * Rabs (r * t) + eta.

Lemma r_bounds : Rabs (r - rho) <= 2 * roundoff * rho /\ rho * (1 - 2 * roundoff) <= r <= rho * (1 + 2 * roundoff).
Proof.
  rewrite (Rabs_pos_eq rho) in Hr by lra.
  assert (H : Rabs (r - rho) <= 2 * roundoff * rho) by (unfold roundoff, eta in *; lra).
  split; [assumption|]. apply Rabs_le_inv in H. lra.
Qed.

Lemma r_pos : / 101 <= r <= 101 / 100.
Proof. destruct r_bounds as [_ H]. unfold roundoff in H. nra. Qed.

Lemma m_bounds : Rabs (m - rho * t) <= 4 * roundoff * t /\ 0 <= m <= 2 * t.
Proof.
  destruct r_bounds as [H1 H2]. pose proof r_pos as Hrp.
  apply Rabs_le_inv in H1.
  assert (Hrt : - (2 * roundoff * t) <= r * t - rho * t <= 2 * roundoff * t) by (unfold roundoff in *; nra).
  assert (Hrt0 : 0 <= r * t <= 101 / 100 * t) by nra.
  rewrite (Rabs_pos_eq (r * t)) in Hm by lra.
  apply Rabs_le_inv in Hm.
  assert (- (4 * roundoff * t) <= m - rho * t <= 4 * roundoff * t) by (unfold roundoff, eta in *; nra).
  split; [now apply Rabs_le|]. unfold roundoff in *. nra.
Qed.

Variables s q : R.
Hypothesis Hs : Rabs (s - (a - m)) <= roundoff * Rabs (a - m) + eta.
Hypothesis Hq : Rabs (q - s / r) <= roundoff * Rabs (s / r) + eta.

Lemma s_bounds : Rabs (s - (a - rho * t)) <= 8 * roundoff * t.
Proof.
  destruct m_bounds as [H1 H2]. apply Rabs_le_inv in H1.
  assert (Hd : Rabs (a - m) <= 3 * t) by (apply Rabs_le; lra).
  apply Rabs_le_inv in Hs. apply Rabs_le. unfold roundoff, eta in *. lra.
Qed.

Lemma exact_quotient_bound x c :
  0 < c -> Rabs x <= t -> / 100 <= c -> Rabs (x / c) <= 100 * t /\ Rabs (x / c) * c = Rabs x.
Proof.
  intros Hc Hx Hc'. unfold Rdiv. rewrite Rabs_mult, (Rabs_pos_eq (/ c))
    by (apply Rlt_le, Rinv_0_lt_compat; lra).
  split; [|field; lra].
  assert (/ c <= 100).
  { replace 100 with (/ / 100) by field. apply Rinv_le_contravar; lra. }
  pose proof (Rabs_pos x). assert (0 < / c) by (apply Rinv_0_lt_compat; lra). nra.
Qed.

(** The computed quotient of the safe branch is within 1/128 of the exact
    one. *)
Lemma bunk_error : Rabs (q - (a - rho * t) / rho) <= / 128.
Proof.
  pose proof r_bounds as [Hr1 _]. pose proof r_pos as Hrp. pose proof s_bounds as Hs1.
  assert (Hx : Rabs (a - rho * t) <= t) by (apply Rabs_le; nra).
  destruct (exact_quotient_bound (a - rho * t) rho ltac:(lra) Hx ltac:(lra)) as [He1 He2].
  set (ex := (a - rho * t) / rho) in *.
  assert (Hrr : 0 < r) by lra.
  pose proof (quotient_perturbation (a - rho * t) s rho r (8 * roundoff * t) (2 * roundoff * rho)
                ltac:(lra) Hrr Hs1 Hr1) as Hp.
  fold ex in Hp.
  replace (Rabs ex * (2 * roundoff * rho)) with (2 * roundoff * Rabs (a - rho * t)) in Hp
    by (rewrite <- He2; ring).
  assert (Hp' : Rabs (s / r - ex) <= 1010 * roundoff * t).
  { eapply Rle_trans; [exact Hp|].
    apply Rmult_le_reg_r with r; [assumption|].
    unfold Rdiv. rewrite Rmult_assoc, Rinv_l by lra. unfold roundoff in *. nra. }
  assert (Hsr : Rabs (s / r) <= 100 * t + 1).
  { replace (s / r) with ((s / r - ex) + ex) by ring.
    eapply Rle_trans; [apply Rabs_triang|]. unfold roundoff in *. lra. }
  replace (q - ex) with ((q - s / r) + (s / r - ex)) by ring.
  eapply Rle_trans; [apply Rabs_triang|]. unfold roundoff, eta in *. lra.
Qed.

End RealAnalysis.

Section RealAnalysisNeed.
Local Open Scope R_scope.

Variables a t rho : R.
Hypothesis Ht : 1 <= t <= 1000000000.
Hypothesis Ha : 0 <= a <= t.
Hypothesis Hrho : / 100 <= rho <= 99 / 100.

Variables r m d s q : R.
Hypothesis Hr : Rabs (r - rho) <= roundoff * Rabs rho + eta.
Hypothesis Hm : Rabs (m - r * t) <= roundoff * Rabs (r * t) + eta.
Hypothesis Hd : Rabs (d - (1 - r)) <= roundoff * Rabs (1 - r) + eta.
Hypothesis Hs : Rabs (s - (m - a)) <= roundoff * Rabs (m - a) + eta.
Hypothesis Hq : Rabs (q - s / d) <= roundoff * Rabs (s / d) + eta.

Lemma d_bounds : Rabs (d - (1 - rho)) <= 4 * roundoff /\ / 101 <= d.
Proof.
  destruct (r_bounds rho ltac:(lra) r Hr) as [H1 H2].
  apply Rabs_le_inv in H1.
  rewrite (Rabs_pos_eq (1 - r)) in Hd by (unfold roundoff in *; lra).
  apply Rabs_le_inv in Hd.
  assert (- (4 * roundoff) <= d - (1 - rho) <= 4 * roundoff) by (unfold roundoff, eta in *; lra).
  split; [now apply Rabs_le | unfold roundoff in *; lra].
Qed.

Lemma s_bounds_need : Rabs (s - (rho * t - a)) <= 8 * roundoff * t.
Proof.
  destruct (m_bounds a t rho Ht Ha ltac:(lra) r m Hr Hm) as [H1 H2]. apply Rabs_le_inv in H1.
  assert (Hd' : Rabs (m - a) <= 3 * t) by (apply Rabs_le; lra).
  apply Rabs_le_inv in Hs. apply Rabs_le. unfold roundoff, eta in *. lra.
Qed.

(** The computed quotient of the unsafe branch is within 1/128 of the
    exact one. *)
Lemma need_error : Rabs (q - (rho * t - a) / (1 - rho)) <= / 128.
Proof.
  pose proof d_bounds as [Hd1 Hd2]. pose proof s_bounds_need as Hs1.
  assert (Hx : Rabs (rho * t - a) <= t) by (apply Rabs_le; nra).
  destruct (exact_quotient_bound t (rho * t - a) (1 - rho) ltac:(lra) Hx ltac:(lra)) as [He1 He2].
  set (ex := (rho * t - a) / (1 - rho)) in *.
  assert (Hdd : 0 < d) by lra.
  pose proof (quotient_perturbation (rho * t - a) s (1 - rho) d (8 * roundoff * t) (4 * roundoff)
                ltac:(lra) Hdd Hs1 Hd1) as Hp.
  fold ex in Hp.
  assert (Hp' : Rabs (s / d - ex) <= 41208 * roundoff * t).
  { eapply Rle_trans; [exact Hp|].
    apply Rmult_le_reg_r with d; [assumption|].
    unfold Rdiv. rewrite Rmult_assoc, Rinv_l by lra. unfold roundoff in *. nra. }
  assert (Hsr : Rabs (s / d) <= 100 * t + 1).
  { replace (s / d) with ((s / d - ex) + ex) by ring.
    eapply Rle_trans; [apply Rabs_triang|]. unfold roundoff in *. lra. }
  replace (q - ex) with ((q - s / d) + (s / d - ex)) by ring.
  eapply Rle_trans; [apply Rabs_triang|]. unfold roundoff, eta in *. lra.
Qed.

End RealAnalysisNeed.

(* ================================================================== *)
(** * Floor and ceiling of a quotient close to the exact one *)

Section Integers2.
Local Open Scope R_scope.

(** Two finite valid numbers that stand for the same positive real are the
    same number. *)
Lemma R_of_inj x y :
  valid x -> valid y -> is_finite x = true -> is_finite y = true ->
  R_of x = R_of y -> 0 < R_of x -> x = y.
Proof.
  intros Vx Vy Fx Fy E P.
  destruct (finite_pos_inv x Fx P) as (mx & ex & ->).
  destruct (finite_pos_inv y Fy ltac:(lra)) as (my & ey & ->).
  pose proof (finite_compare mx ex my ey Vx Vy) as C.
  rewrite !R_of_finite in E. cbn [sgn] in E. rewrite (Rcmp_Eq _ _ E) in C.
  destruct (Z.compare_spec ex ey) as [He|He|He]; try discriminate.
  change (Pos.compare_cont Eq mx my) with (Pos.compare mx my) in C.
  apply Pos.compare_eq in C. now subst.
Qed.

(** The exact quotient [k/p] against the computed one [q], for an integer
    divisor [1 <= p <= 100] and an error of at most 1/128. *)
Lemma floor_near_quotient k p q :
  (1 <= p <= 100)%Z -> Rabs (q - IZR k / IZR p) <= / 128 ->
  (k / p - 1 <= Zfloor q <= k / p)%Z /\ ((k mod p <> 0)%Z -> Zfloor q = (k / p)%Z).
Proof.
  intros Hp Hq. apply Rabs_le_inv in Hq.
  pose proof (Z.div_mod k p ltac:(lia)) as E.
  pose proof (Z.mod_pos_bound k p ltac:(lia)) as Hm.
  set (n := (k / p)%Z) in *. set (rm := (k mod p)%Z) in *.
  assert (HP : 1 <= IZR p <= 100) by (split; apply IZR_le; lia).
  assert (Eq : IZR k / IZR p = IZR n + IZR rm / IZR p).
  { rewrite E, plus_IZR, mult_IZR. field. lra. }
  rewrite Eq in Hq.
  assert (Hinv : / 100 <= / IZR p <= 1).
  { split; [apply Rinv_le_contravar; lra|].
    rewrite <- Rinv_1. apply Rinv_le_contravar; lra. }
  destruct (Z.eq_dec rm 0) as [Hz|Hnz].
  - rewrite Hz in Hq. unfold Rdiv in Hq. rewrite Rmult_0_l, Rplus_0_r in Hq.
    split; [|intros; contradiction]. split.
    + apply Zfloor_lub. rewrite minus_IZR. lra.
    + assert (Zfloor q < n + 1)%Z; [|lia].
      apply lt_IZR. rewrite plus_IZR. pose proof (Zfloor_bound q). lra.
  - assert (Hf : / 100 <= IZR rm / IZR p <= 1 - / 100).
    { assert (1 <= IZR rm) by (apply IZR_le; lia).
      assert (IZR rm <= IZR p - 1) by (rewrite <- minus_IZR; apply IZR_le; lia).
      unfold Rdiv. split; [nra|].
      apply Rmult_le_reg_r with (IZR p); [lra|].
      rewrite Rmult_assoc, Rinv_l by lra. nra. }
    assert (Zfloor q = n) by (apply Zfloor_eq; lra).
    split; [lia | auto].
Qed.

Lemma ceil_near_quotient k p q :
  (1 <= p <= 100)%Z -> Rabs (q - IZR k / IZR p) <= / 128 ->
  (- ((- k) / p) <= Zceil q <= - ((- k) / p) + 1)%Z /\
  ((k mod p <> 0)%Z -> Zceil q = (- ((- k) / p))%Z).
Proof.
  intros Hp Hq. unfold Zceil.
  assert (Hq' : Rabs (- q - IZR (- k) / IZR p) <= / 128).
  { rewrite opp_IZR. replace (- q - - IZR k / IZR p) with (- (q - IZR k / IZR p)).
    - now rewrite Rabs_Ropp.
    - assert (1 <= IZR p) by (apply IZR_le; lia). field. lra. }
  destruct (floor_near_quotient (- k) p (- q) Hp Hq') as [H1 H2].
  split; [lia|]. intros Hk. rewrite H2; [reflexivity|].
  intros Hc. apply Hk.
  assert (Hd : (p | - k)%Z) by (apply Z.mod_divide; [lia | exact Hc]).
  apply Z.mod_divide; [lia|]. apply -> Z.divide_opp_r in Hd. exact Hd.
Qed.

(** The computed percentage is within [400 roundoff] of the exact one. *)
Lemma percent_error a t q1 c :
  1 <= t -> 0 <= a <= t -> 0 <= q1 ->
  Rabs (q1 - a / t) <= roundoff * Rabs (a / t) + eta ->
  Rabs (c - q1 * 100) <= roundoff * Rabs (q1 * 100) + eta ->
  Rabs (c - 100 * a / t) <= 400 * roundoff.
Proof.
  intros Ht Ha Hq0 H1 H2.
  assert (Hat : 0 <= a / t <= 1).
  { split; [apply Rmult_le_pos; [lra | apply Rlt_le, Rinv_0_lt_compat; lra]|].
    apply Rmult_le_reg_r with t; [lra|]. unfold Rdiv. rewrite Rmult_assoc, Rinv_l; lra. }
  rewrite (Rabs_pos_eq (a / t)) in H1 by lra. apply Rabs_le_inv in H1.
  assert (Hq1 : 0 <= q1 * 100 <= 101) by (unfold roundoff, eta in *; lra).
  rewrite (Rabs_pos_eq (q1 * 100)) in H2 by lra. apply Rabs_le_inv in H2.
  replace (100 * a / t) with (100 * (a / t)) by (field; lra).
  apply Rabs_le. unfold roundoff, eta in *. lra.
Qed.

End Integers2.

(* ================================================================== *)
(** * Whole counts *)

Section SmallIntegers.
Local Open Scope R_scope.

Lemma of_Z_facts n :
  (Z.abs n <= 1000000000)%Z ->
  valid (of_Z n) /\ is_finite (of_Z n) = true /\ R_of (of_Z n) = IZR n.
Proof.
  intros H. assert (H' : (Z.abs n < 2 ^ 53)%Z) by (change (2 ^ 53)%Z with 9007199254740992%Z; lia).
  split; [apply of_Z_valid|]. split; [now apply of_Z_finite | now apply R_of_of_Z].
Qed.

Lemma bpow_1023_big : 20000000000000 <= bpow 1023.
Proof.
  apply Rle_trans with (bpow 45); [|apply bpow_le; lia].
  rewrite bpow_IZR by lia. change (2 ^ 45)%Z with 35184372088832%Z. lra.
Qed.

Lemma bpow_emax_big : 20000000000000 < bpow emax.
Proof.
  apply Rle_lt_trans with (bpow 1023); [apply bpow_1023_big | apply bpow_lt; unfold emax; lia].
Qed.

(** [x > 0 ? x : 0] of a finite number that stands for an integer. *)
Lemma clamp_integer x n :
  valid x -> is_finite x = true -> R_of x = IZR n -> (Z.abs n < 2 ^ 53)%Z ->
  clamp x = of_Z (Z.max n 0).
Proof.
  intros V F E Hn. pose proof (valid_not_nan_of_finite x F) as N.
  unfold clamp. destruct (gt x zero) eqn:G.
  - apply gt_zero_R_of in G; try assumption. rewrite E in G. apply lt_IZR in G.
    rewrite Z.max_l by lia.
    apply R_of_inj; try assumption.
    + apply of_Z_valid.
    + now apply of_Z_finite.
    + rewrite R_of_of_Z by assumption. assumption.
    + rewrite E. apply IZR_lt. lia.
  - assert (H : ~ 0 < R_of x) by (rewrite <- gt_zero_R_of, G by assumption; discriminate).
    rewrite E in H. assert (n <= 0)%Z by (apply le_IZR; lra).
    rewrite Z.max_r by lia. reflexivity.
Qed.

Lemma clamp_nonpos x : valid x -> is_nan x = false -> R_of x <= 0 -> clamp x = zero.
Proof.
  intros V N H. unfold clamp. destruct (gt x zero) eqn:G; [|reflexivity].
  apply gt_zero_R_of in G; try assumption. lra.
Qed.

End SmallIntegers.

Section Counts.
Local Open Scope R_scope.

Variables a t p : Z.
Hypothesis Ha : (0 <= a <= t)%Z.
Hypothesis Ht : (0 < t <= 1000000000)%Z.
Hypothesis Hp : (1 <= p <= 100)%Z.

Let A := of_Z a.
Let T := of_Z t.
Let P := of_Z p.
Let r := div P (of_Z 100).
Let m := mul r T.
Let rho := IZR p / 100.

Lemma A_facts : valid A /\ is_finite A = true /\ R_of A = IZR a.
Proof. apply of_Z_facts. lia. Qed.

Lemma T_facts : valid T /\ is_finite T = true /\ R_of T = IZR t.
Proof. apply of_Z_facts. lia. Qed.

Lemma P_facts : valid P /\ is_finite P = true /\ R_of P = IZR p.
Proof. apply of_Z_facts. lia. Qed.

Lemma real_ranges :
  1 <= IZR t <= 1000000000 /\ 0 <= IZR a <= IZR t /\ / 100 <= rho <= 1.
Proof.
  assert (1 <= IZR t) by (apply IZR_le; lia).
  assert (IZR t <= 1000000000) by (apply IZR_le; lia).
  assert (0 <= IZR a) by (apply IZR_le; lia).
  assert (IZR a <= IZR t) by (apply IZR_le; lia).
  assert (1 <= IZR p) by (apply IZR_le; lia).
  assert (IZR p <= 100) by (apply IZR_le; lia).
  unfold rho. repeat split; lra.
Qed.

Lemma r_Rounded : Rounded rho r.
Proof.
  destruct P_facts as (VP & FP & EP). unfold r, rho. rewrite <- EP, <- R_of_100.
  apply div_correct; [assumption | reflexivity | rewrite R_of_100; lra].
Qed.

Lemma r_props :
  valid r /\ is_finite r = true /\ 0 <= R_of r <= 1 /\
  Rabs (R_of r - rho) <= roundoff * Rabs rho + eta.
Proof.
  pose proof r_Rounded as H. destruct real_ranges as (_ & _ & Hrho).
  assert (B : R_of zero <= rho <= R_of (of_Z 1)).
  { rewrite R_of_1. change (R_of zero) with 0. lra. }
  split; [eapply Rounded_valid; eassumption|]. split; [|split].
  - eapply Rounded_finite with (lo := zero) (hi := of_Z 1);
      try eassumption; try reflexivity; apply of_Z_valid.
  - eapply Rounded_bounds with (lo := zero) (hi := of_Z 1) in H;
      try eassumption; try reflexivity; try apply of_Z_valid.
    rewrite R_of_1 in H. exact H.
  - apply Rounded_error; [assumption|]. rewrite Rabs_pos_eq by lra.
    pose proof bpow_1023_big. lra.
Qed.

Lemma r_positive : / 101 <= R_of r <= 101 / 100.
Proof.
  destruct r_props as (_ & _ & _ & H). destruct real_ranges as (_ & _ & Hrho).
  apply (r_pos rho Hrho (R_of r) H).
Qed.

Lemma m_Rounded : Rounded (R_of r * IZR t) m.
Proof.
  destruct r_props as (V & F & _). destruct T_facts as (VT & FT & ET).
  unfold m. rewrite <- ET. now apply mul_correct.
Qed.

Lemma m_props :
  valid m /\ is_finite m = true /\ 0 <= R_of m <= IZR t /\
  Rabs (R_of m - R_of r * IZR t) <= roundoff * Rabs (R_of r * IZR t) + eta.
Proof.
  pose proof m_Rounded as H. destruct r_props as (_ & _ & Br & _).
  destruct T_facts as (VT & FT & ET). destruct real_ranges as (Rt & _ & _).
  assert (B : R_of zero <= R_of r * IZR t <= R_of T).
  { rewrite ET. change (R_of zero) with 0. nra. }
  split; [eapply Rounded_valid; eassumption|]. split; [|split].
  - eapply Rounded_finite with (lo := zero) (hi := T); try eassumption; reflexivity.
  - eapply Rounded_bounds with (lo := zero) (hi := T) in H; try eassumption; try reflexivity.
    rewrite ET in H. exact H.
  - apply Rounded_error; [assumption|]. rewrite Rabs_pos_eq by nra.
    pose proof bpow_1023_big. nra.
Qed.

Lemma sub_props x y :
  valid x -> valid y -> is_finite x = true -> is_finite y = true ->
  Rabs (R_of x) <= 1000000000 -> Rabs (R_of y) <= 1000000000 ->
  valid (sub x y) /\ is_finite (sub x y) = true /\
  Rabs (R_of (sub x y) - (R_of x - R_of y)) <= roundoff * Rabs (R_of x - R_of y) + eta.
Proof.
  intros Vx Vy Fx Fy Bx By.
  pose proof (sub_correct x y Vx Vy Fx Fy) as H.
  assert (Hd : Rabs (R_of x - R_of y) <= 2000000000).
  { apply Rabs_le_inv in Bx, By. apply Rabs_le. lra. }
  assert (E : Rabs (R_of (sub x y) - (R_of x - R_of y)) <= roundoff * Rabs (R_of x - R_of y) + eta).
  { apply Rounded_error; [assumption|]. pose proof bpow_1023_big. lra. }
  split; [eapply Rounded_valid; eassumption|]. split; [|assumption].
  apply finite_of_R_of_lt; [eapply Rounded_not_nan; eassumption|].
  apply Rabs_le_inv in E, Hd. pose proof bpow_emax_big.
  assert (roundoff * Rabs (R_of x - R_of y) + eta <= 1).
  { assert (Rabs (R_of x - R_of y) <= 2000000000) by (apply Rabs_le; lra).
    unfold roundoff, eta. lra. }
  apply Rabs_def1; lra.
Qed.

Lemma quot_props s dv :
  valid s -> is_finite s = true -> is_finite dv = true ->
  Rabs (R_of s) <= 2000000001 -> / 101 <= R_of dv ->
  valid (div s dv) /\ is_finite (div s dv) = true /\
  Rabs (R_of (div s dv) - R_of s / R_of dv) <= roundoff * Rabs (R_of s / R_of dv) + eta.
Proof.
  intros Vs Fs Fd Bs Bd.
  pose proof (div_correct s dv Fs Fd ltac:(lra)) as H.
  assert (Hq : Rabs (R_of s / R_of dv) <= 202000000101).
  { unfold Rdiv. rewrite Rabs_mult.
    rewrite (Rabs_pos_eq (/ R_of dv)) by (apply Rlt_le, Rinv_0_lt_compat; lra).
    assert (/ R_of dv <= 101).
    { replace 101 with (/ / 101) by field. apply Rinv_le_contravar; lra. }
    assert (0 < / R_of dv) by (apply Rinv_0_lt_compat; lra).
    pose proof (Rabs_pos (R_of s)). nra. }
  assert (E : Rabs (R_of (div s dv) - R_of s / R_of dv)
              <= roundoff * Rabs (R_of s / R_of dv) + eta).
  { apply Rounded_error; [assumption|]. pose proof bpow_1023_big. lra. }
  split; [eapply Rounded_valid; eassumption|]. split; [|assumption].
  apply finite_of_R_of_lt; [eapply Rounded_not_nan; eassumption|].
  apply Rabs_le_inv in E, Hq. pose proof bpow_emax_big.
  assert (roundoff * Rabs (R_of s / R_of dv) + eta <= 1).
  { assert (Rabs (R_of s / R_of dv) <= 202000000101) by (apply Rabs_le; lra).
    unfold roundoff, eta. lra. }
  apply Rabs_def1; lra.
Qed.

(** *** The safe branch *)

Let k := (100 * a - p * t)%Z.

Lemma exact_bunk : (IZR a - rho * IZR t) / rho = IZR k / IZR p.
Proof.
  unfold k, rho. rewrite minus_IZR, !mult_IZR.
  assert (1 <= IZR p) by (apply IZR_le; lia). field. lra.
Qed.

Lemma bunk_value_spec :
  exists c, (bunk_value a t p) = of_Z (Z.max c 0) /\ (k / p - 1 <= c <= k / p)%Z /\
            ((k mod p <> 0)%Z -> c = (k / p)%Z).
Proof.
  destruct A_facts as (VA & FA & EA). destruct m_props as (Vm & Fm & Bm & Em).
  destruct r_props as (Vr & Fr & Br & Er). destruct real_ranges as (Rt & Ra & Rrho).
  pose proof r_positive as Hrp.
  destruct (sub_props A m VA Vm FA Fm) as (Vs & Fs & Es).
  { rewrite EA, Rabs_pos_eq; lra. }
  { rewrite Rabs_pos_eq; lra. }
  assert (Bs : Rabs (R_of (sub A m)) <= 2000000001).
  { assert (Hd : Rabs (R_of A - R_of m) <= 1000000000) by (apply Rabs_le; rewrite EA; lra).
    pose proof Hd as Hd'. apply Rabs_le_inv in Es, Hd'. apply Rabs_le.
    unfold roundoff, eta in *. lra. }
  destruct (quot_props (sub A m) r Vs Fs Fr Bs ltac:(lra)) as (Vq & Fq & Eq).
  rewrite EA in Es.
  pose proof (bunk_error (IZR a) (IZR t) rho Rt Ra Rrho (R_of r) (R_of m) Er Em
                (R_of (sub A m)) (R_of (div (sub A m) r)) Es Eq) as Herr.
  rewrite exact_bunk in Herr.
  destruct (floor_near_quotient k p _ Hp Herr) as [H1 H2].
  destruct (Math_floor_correct _ Vq Fq) as (Ff & Vf & Ef).
  exists (Zfloor (R_of (div (sub A m) r))). split; [|split; assumption].
  unfold bunk_value. cbv zeta. fold A T P. fold r. fold m. apply clamp_integer; try assumption.
  assert (k / p <= 100 * 1000000000)%Z.
  { apply Z.div_le_upper_bound; [lia|]. unfold k. nia. }
  assert (- (100 * 1000000000) <= k / p)%Z.
  { transitivity (- (100 * 1000000000 * p) / p)%Z.
    - rewrite Z.div_opp_l_z, Z.div_mul by (try rewrite Z.mod_mul; lia). lia.
    - apply Z.div_le_mono; [lia|]. unfold k. nia. }
  change (2 ^ 53)%Z with 9007199254740992%Z. lia.
Qed.

(** *** Which branch is taken *)

Lemma percent_props :
  valid (percent a t) /\ is_finite (percent a t) = true /\
  Rabs (R_of (percent a t) - 100 * IZR a / IZR t) <= 400 * roundoff.
Proof.
  destruct A_facts as (VA & FA & EA). destruct T_facts as (VT & FT & ET).
  destruct real_ranges as (Rt & Ra & _).
  assert (Hq : Rounded (IZR a / IZR t) (div A T)).
  { rewrite <- EA, <- ET. apply div_correct; try assumption. rewrite ET. lra. }
  assert (Hat : 0 <= IZR a / IZR t <= 1).
  { split; [apply Rmult_le_pos; [lra | apply Rlt_le, Rinv_0_lt_compat; lra]|].
    apply Rmult_le_reg_r with (IZR t); [lra|]. unfold Rdiv. rewrite Rmult_assoc, Rinv_l; lra. }
  assert (Bq : R_of zero <= IZR a / IZR t <= R_of (of_Z 1)).
  { rewrite R_of_1. change (R_of zero) with 0. exact Hat. }
  pose proof (Rounded_valid _ _ Hq) as Vq.
  assert (Fq : is_finite (div A T) = true).
  { eapply Rounded_finite with (lo := zero) (hi := of_Z 1);
      try eassumption; try reflexivity; apply of_Z_valid. }
  pose proof (Rounded_bounds _ _ zero (of_Z 1) Hq zero_valid (of_Z_valid 1) eq_refl eq_refl Bq) as Bq'.
  rewrite R_of_1 in Bq'. change (R_of zero) with 0 in Bq'.
  assert (Hc : Rounded (R_of (div A T) * 100) (percent a t)).
  { unfold percent. fold A T. rewrite <- R_of_100.
    apply mul_correct; try assumption; try reflexivity; apply of_Z_valid. }
  pose proof bpow_1023_big as Hbig.
  assert (E1 : Rabs (R_of (div A T) - IZR a / IZR t) <= roundoff * Rabs (IZR a / IZR t) + eta).
  { apply Rounded_error; [assumption|]. rewrite Rabs_pos_eq; lra. }
  assert (E2 : Rabs (R_of (percent a t) - R_of (div A T) * 100)
               <= roundoff * Rabs (R_of (div A T) * 100) + eta).
  { apply Rounded_error; [assumption|]. rewrite Rabs_pos_eq; lra. }
  split; [eapply Rounded_valid; eassumption|]. split.
  - eapply Rounded_finite with (lo := zero) (hi := of_Z 100);
      try eassumption; try reflexivity; try apply of_Z_valid.
    rewrite R_of_100. change (R_of zero) with 0. lra.
  - apply (percent_error (IZR a) (IZR t) (R_of (div A T)) (R_of (percent a t))); try lra; assumption.
Qed.

Lemma ge_percent : ge (percent a t) P = true <-> IZR p <= R_of (percent a t).
Proof.
  destruct percent_props as (V & F & _). destruct P_facts as (VP & FP & EP).
  unfold ge. change (SFleb P (percent a t)) with (le P (percent a t)).
  rewrite (le_R_of P (percent a t) VP V) by (now apply valid_not_nan_of_finite).
  now rewrite EP.
Qed.

Lemma guard_false : le T zero = false.
Proof.
  destruct T_facts as (VT & FT & ET). destruct real_ranges as (Rt & _).
  destruct (le T zero) eqn:E; [|reflexivity].
  apply le_R_of in E; try assumption; try reflexivity; [|now apply valid_not_nan_of_finite].
  rewrite ET in E. change (R_of zero) with 0 in E. lra.
Qed.

Lemma scaled_percent : 100 * IZR a / IZR t * IZR t = 100 * IZR a.
Proof. destruct real_ranges as (Rt & _). field. lra. Qed.

Lemma safe_of_above : (p * t < 100 * a)%Z -> ge (percent a t) P = true.
Proof.
  intros H. apply ge_percent. destruct percent_props as (_ & _ & E).
  destruct real_ranges as (Rt & Ra & _). apply Rabs_le_inv in E.
  assert (Hk : IZR (p * t) + 1 <= IZR (100 * a)) by (rewrite <- plus_IZR; apply IZR_le; lia).
  rewrite !mult_IZR in Hk. pose proof scaled_percent as S.
  set (e := 100 * IZR a / IZR t) in *.
  assert (IZR p + / 1000000000 <= e).
  { apply Rmult_le_reg_r with (IZR t); [lra|]. rewrite S. nra. }
  unfold roundoff in E. lra.
Qed.

Lemma unsafe_of_below : (100 * a < p * t)%Z -> ge (percent a t) P = false.
Proof.
  intros H. destruct (ge (percent a t) P) eqn:G; [|reflexivity].
  apply ge_percent in G. destruct percent_props as (_ & _ & E).
  destruct real_ranges as (Rt & Ra & _). apply Rabs_le_inv in E.
  assert (Hk : IZR (100 * a) + 1 <= IZR (p * t)) by (rewrite <- plus_IZR; apply IZR_le; lia).
  rewrite !mult_IZR in Hk. pose proof scaled_percent as S.
  set (e := 100 * IZR a / IZR t) in *.
  assert (e <= IZR p - / 1000000000).
  { apply Rmult_le_reg_r with (IZR t); [lra|]. rewrite S. nra. }
  unfold roundoff in E. lra.
Qed.

(** At a required percentage of 100 a full attendance is seen as safe. *)
Lemma safe_at_100 : p = 100%Z -> a = t -> ge (percent a t) P = true.
Proof.
  intros Ep Ea. apply ge_percent. rewrite Ep.
  destruct T_facts as (VT & FT & ET). destruct real_ranges as (Rt & _).
  assert (Hq : Rounded (R_of (of_Z 1)) (div T T)).
  { rewrite R_of_1. replace 1 with (R_of T / R_of T) by (rewrite ET; field; lra).
    apply div_correct; try assumption. rewrite ET. lra. }
  apply Rounded_exact in Hq; [|apply of_Z_valid | reflexivity].
  assert (Hc : Rounded (R_of (of_Z 100)) (mul (div T T) (of_Z 100))).
  { rewrite R_of_100. replace 100 with (R_of (div T T) * R_of (of_Z 100))
      by (rewrite Hq, R_of_1, R_of_100; ring).
    apply mul_correct; try apply of_Z_valid; try reflexivity.
    - apply div_valid; assumption.
    - apply finite_of_R_of_lt.
      + destruct (div T T) eqn:E; try reflexivity. rewrite R_of_1 in Hq. cbn in Hq. lra.
      + rewrite Hq, R_of_1, Rabs_pos_eq by lra. pose proof bpow_emax_big. lra. }
  apply Rounded_exact in Hc; [|apply of_Z_valid | reflexivity].
  unfold percent, A. rewrite Ea. fold T. rewrite Hc, R_of_100. lra.
Qed.

(** *** The unsafe branch *)

Hypothesis Hp99 : (p <= 99)%Z.

Let d := sub (of_Z 1) r.
Let k' := (p * t - 100 * a)%Z.

Lemma exact_need : (rho * IZR t - IZR a) / (1 - rho) = IZR k' / IZR (100 - p).
Proof.
  unfold k', rho. rewrite !minus_IZR, !mult_IZR.
  assert (IZR p <= 99) by (apply IZR_le; lia). field. lra.
Qed.

Lemma d_props :
  valid d /\ is_finite d = true /\
  Rabs (R_of d - (1 - R_of r)) <= roundoff * Rabs (1 - R_of r) + eta.
Proof.
  destruct r_props as (Vr & Fr & Br & Er).
  destruct (sub_props (of_Z 1) r (of_Z_valid 1) Vr eq_refl Fr) as (V & F & E).
  { rewrite R_of_1, Rabs_pos_eq; lra. }
  { rewrite Rabs_pos_eq; lra. }
  rewrite R_of_1 in E. auto.
Qed.

Lemma rho_99 : / 100 <= rho <= 99 / 100.
Proof.
  destruct real_ranges as (_ & _ & H). split; [lra|]. unfold rho.
  assert (IZR p <= 99) by (apply IZR_le; lia). lra.
Qed.

Lemma d_positive : / 101 <= R_of d.
Proof.
  destruct r_props as (_ & _ & _ & Er). destruct d_props as (_ & _ & Ed).
  apply (d_bounds rho rho_99 (R_of r) (R_of d) Er Ed).
Qed.

Lemma need_value_spec :
  exists x, (need_value a t p) = of_Z (Z.max x 0) /\
            (- (- k' / (100 - p)) <= x <= - (- k' / (100 - p)) + 1)%Z /\
            ((k' mod (100 - p) <> 0)%Z -> x = (- (- k' / (100 - p)))%Z).
Proof.
  destruct A_facts as (VA & FA & EA). destruct m_props as (Vm & Fm & Bm & Em).
  destruct r_props as (Vr & Fr & Br & Er). destruct real_ranges as (Rt & Ra & _).
  destruct d_props as (Vd & Fd & Ed). pose proof d_positive as Hdp. pose proof rho_99 as Rrho.
  destruct (sub_props m A Vm VA Fm FA) as (Vs & Fs & Es).
  { rewrite Rabs_pos_eq; lra. }
  { rewrite EA, Rabs_pos_eq; lra. }
  assert (Bs : Rabs (R_of (sub m A)) <= 2000000001).
  { assert (Hd : Rabs (R_of m - R_of A) <= 1000000000) by (apply Rabs_le; rewrite EA; lra).
    pose proof Hd as Hd'. apply Rabs_le_inv in Es, Hd'. apply Rabs_le.
    unfold roundoff, eta in *. lra. }
  destruct (quot_props (sub m A) d Vs Fs Fd Bs Hdp) as (Vq & Fq & Eq).
  rewrite EA in Es.
  pose proof (need_error (IZR a) (IZR t) rho Rt Ra Rrho (R_of r) (R_of m) (R_of d)
                (R_of (sub m A)) (R_of (div (sub m A) d)) Er Em Ed Es Eq) as Herr.
  rewrite exact_need in Herr.
  destruct (ceil_near_quotient k' (100 - p) _ ltac:(lia) Herr) as [H1 H2].
  destruct (Math_ceil_correct _ Vq Fq) as (Ff & Vf & Ef).
  exists (Zceil (R_of (div (sub m A) d))). split; [|split; assumption].
  unfold need_value. cbv zeta. fold A T P. fold r. fold m. fold d. apply clamp_integer; try assumption.
  assert (- k' / (100 - p) <= 100 * 1000000000)%Z.
  { apply Z.div_le_upper_bound; [lia|]. unfold k'. nia. }
  assert (- (100 * 1000000000) <= - k' / (100 - p))%Z.
  { transitivity (- (100 * 1000000000 * (100 - p)) / (100 - p))%Z.
    - rewrite Z.div_opp_l_z, Z.div_mul by (try rewrite Z.mod_mul; lia). lia.
    - apply Z.div_le_mono; [lia|]. unfold k'. nia. }
  change (2 ^ 53)%Z with 9007199254740992%Z. lia.
Qed.

(** Exactly at the target, when the computed percentage falls just short of
    it, no class is asked for. *)
Lemma need_at_threshold :
  (100 * a = p * t)%Z -> ge (percent a t) P = false -> (need_value a t p) = zero.
Proof.
  intros Hk G.
  destruct A_facts as (VA & FA & EA). destruct T_facts as (VT & FT & ET).
  destruct P_facts as (VP & FP & EP). destruct real_ranges as (Rt & Ra & Rrho).
  destruct r_props as (Vr & Fr & Br & _). destruct m_props as (Vm & Fm & Bm & _).
  destruct d_props as (Vd & Fd & _). pose proof d_positive as Hdp.
  destruct percent_props as (Vc & Fc & _).
  assert (Eat : IZR a / IZR t = rho).
  { unfold rho. apply (f_equal IZR) in Hk. rewrite !mult_IZR in Hk. field_simplify_eq; lra. }
  assert (Hq : Rounded rho (div A T)).
  { rewrite <- Eat, <- EA, <- ET. apply div_correct; try assumption. rewrite ET. lra. }
  assert (Eq : R_of (div A T) = R_of r).
  { pose proof r_Rounded as Hr.
    apply Rle_antisym; [apply (Rounded_le _ _ _ _ Hq Hr) | apply (Rounded_le _ _ _ _ Hr Hq)]; lra. }
  assert (Fq : is_finite (div A T) = true).
  { apply finite_of_R_of_lt; [eapply Rounded_not_nan; eassumption|].
    rewrite Eq, Rabs_pos_eq by lra. pose proof bpow_emax_big. lra. }
  assert (Hc : Rounded (R_of r * 100) (percent a t)).
  { unfold percent. fold A T. rewrite <- Eq, <- R_of_100.
    apply mul_correct; try apply of_Z_valid; try reflexivity; try assumption.
    eapply Rounded_valid; eassumption. }
  assert (Hlt : R_of r * 100 < IZR p).
  { destruct (Rlt_le_dec (R_of r * 100) (IZR p)) as [|Hge]; [assumption|exfalso].
    rewrite <- EP in Hge.
    pose proof (Rounded_le _ _ _ _ (Rounded_self P VP FP) Hc Hge) as Hle.
    rewrite EP in Hle. apply ge_percent in Hle. rewrite Hle in G. discriminate. }
  assert (Hm : R_of m <= IZR a).
  { rewrite <- EA. apply (Rounded_le _ _ _ _ m_Rounded (Rounded_self A VA FA)).
    rewrite EA. apply (f_equal IZR) in Hk. rewrite !mult_IZR in Hk. nra. }
  destruct (sub_props m A Vm VA Fm FA) as (Vs & Fs & _).
  { rewrite Rabs_pos_eq; lra. }
  { rewrite EA, Rabs_pos_eq; lra. }
  assert (Hs : R_of (sub m A) <= 0).
  { apply Rle_trans with (R_of zero); [|apply Rle_refl].
    apply (Rounded_le _ _ _ _ (sub_correct m A Vm VA Fm FA) (Rounded_zero false)).
    rewrite EA. lra. }
  pose proof (div_correct (sub m A) d Fs Fd ltac:(lra)) as Hdv.
  assert (Hqn : R_of (div (sub m A) d) <= 0).
  { apply Rle_trans with (R_of zero); [|apply Rle_refl].
    apply (Rounded_le _ _ _ _ Hdv (Rounded_zero false)).
    assert (0 < / R_of d) by (apply Rinv_0_lt_compat; lra). unfold Rdiv. nra. }
  pose proof (Rounded_valid _ _ Hdv) as Vq. pose proof (Rounded_not_nan _ _ Hdv) as Nq.
  unfold need_value. cbv zeta. fold A T P. fold r. fold m. fold d. apply clamp_nonpos.
  - now apply Math_ceil_valid.
  - now apply Math_ceil_not_nan.
  - apply Rle_trans with (R_of (Math_ceil zero)); [|apply Rle_refl].
    apply Math_ceil_le; try assumption; reflexivity.
Qed.

End Counts.

(* ================================================================== *)
(** * The outcome on whole counts *)

Lemma mul_le_div k p n : 0 < p -> (p * n <= k <-> n <= k / p).
Proof.
  intros Hp. split; intros H.
  - apply Z.div_le_lower_bound; assumption.
  - pose proof (Z.mul_div_le k p Hp). nia.
Qed.

Lemma mul_ge_ceil k p y : 0 < p -> (k <= p * y <-> - (- k / p) <= y).
Proof.
  intros Hp. pose proof (mul_le_div (- k) p (- y) Hp) as H. split; intros H1.
  - assert (p * - y <= - k) by lia. apply H in H0. lia.
  - assert (- y <= - k / p) by lia. apply H in H0. lia.
Qed.

(** What the function returns on integer counts when the attendance is at
    or above the target, in exact arithmetic. *)
Lemma safe_outcome (a t p : Z) :
  0 <= a <= t -> 0 < t <= 1000000000 -> 1 <= p <= 100 -> p * t <= 100 * a ->
  let st := calculateAttendance (of_Z a) (of_Z t) (of_Z p) in
  let r := div (of_Z p) (of_Z 100) in
  let k := 100 * a - p * t in
  needToAttend st = zero /\
  canBunk st = clamp (Math_floor (div (sub (of_Z a) (mul r (of_Z t))) r)) /\
  exists c, canBunk st = of_Z c /\ 0 <= c /\ k / p - 1 <= c <= k / p /\
            (k mod p <> 0 -> c = k / p).
Proof.
  intros Ha Ht Hp Hsafe st r k.
  destruct (calculateAttendance_fields (of_Z a) (of_Z t) (of_Z p) (guard_false a t p Ha Ht Hp))
    as (_ & Eb & En).
  fold st in Eb, En. cbn zeta in Eb, En. fold r in Eb, En.
  destruct (bunk_value_spec a t p Ha Ht Hp) as (c & Ec & Hc & Hc').
  unfold bunk_value in Ec. fold r in Ec. fold k in Hc, Hc'.
  assert (Hk : 0 <= k) by (unfold k; lia).
  assert (Hn : 0 <= k / p) by (apply Z.div_pos; lia).
  change (ge (mul (div (of_Z a) (of_Z t)) (of_Z 100)) (of_Z p)) with (ge (percent a t) (of_Z p)) in *.
  destruct (ge (percent a t) (of_Z p)) eqn:G.
  - split; [assumption|]. split; [rewrite Eb, Ec; reflexivity|].
    exists (Z.max c 0). split; [rewrite Eb; exact Ec|]. split; [lia|]. split; [lia|].
    intros Hmod. specialize (Hc' Hmod). lia.
  - assert (Heq : 100 * a = p * t).
    { destruct (Z.eq_dec (100 * a) (p * t)) as [|Hne]; [assumption|exfalso].
      rewrite (safe_of_above a t p Ha Ht Hp) in G by lia. discriminate. }
    assert (Hk0 : k = 0) by (unfold k; lia).
    assert (Hc0 : Z.max c 0 = 0) by (rewrite Hk0, Z.div_0_l in Hc by lia; lia).
    assert (Hp99 : p <= 99).
    { destruct (Z.eq_dec p 100) as [E100|]; [exfalso|lia].
      rewrite (safe_at_100 a t p Ha Ht Hp E100) in G by lia. discriminate. }
    pose proof (need_at_threshold a t p Ha Ht Hp Hp99 Heq G) as Hz.
    unfold need_value in Hz. fold r in Hz.
    split; [rewrite En; exact Hz|]. split; [rewrite Eb, Ec, Hc0; reflexivity|].
    exists 0. split; [assumption|]. rewrite Hk0, Z.div_0_l by lia.
    split; [lia|]. split; [lia|]. intros Hm. rewrite Z.mod_0_l in Hm by lia. contradiction.
Qed.

(** What the function returns on integer counts when the attendance is
    below the target, in exact arithmetic. *)
Lemma unsafe_outcome (a t p : Z) :
  0 <= a <= t -> 0 < t <= 1000000000 -> 1 <= p <= 99 -> 100 * a < p * t ->
  let st := calculateAttendance (of_Z a) (of_Z t) (of_Z p) in
  let r := div (of_Z p) (of_Z 100) in
  let k := p * t - 100 * a in
  let q := 100 - p in
  canBunk st = zero /\
  needToAttend st =
    clamp (Math_ceil (div (sub (mul r (of_Z t)) (of_Z a)) (sub (of_Z 1) r))) /\
  exists x, needToAttend st = of_Z x /\ 1 <= x /\
            - (- k / q) <= x <= - (- k / q) + 1 /\
            (k mod q <> 0 -> x = - (- k / q)).
Proof.
  intros Ha Ht Hp Hunsafe st r k q.
  assert (Hp' : 1 <= p <= 100) by lia. assert (Hp99 : p <= 99) by lia.
  destruct (calculateAttendance_fields (of_Z a) (of_Z t) (of_Z p) (guard_false a t p Ha Ht Hp'))
    as (_ & Eb & En).
  fold st in Eb, En. cbn zeta in Eb, En. fold r in Eb, En.
  change (ge (mul (div (of_Z a) (of_Z t)) (of_Z 100)) (of_Z p)) with (ge (percent a t) (of_Z p)) in *.
  rewrite (unsafe_of_below a t p Ha Ht Hp' Hunsafe) in Eb, En.
  destruct (need_value_spec a t p Ha Ht Hp' Hp99) as (x & Ex & Hx & Hx').
  unfold need_value in Ex. fold r in Ex. fold k in Hx, Hx'. fold q in Hx, Hx'.
  assert (Hq : 0 < q) by (unfold q; lia).
  assert (Hpos : 1 <= - (- k / q)).
  { assert (~ - (- k / q) <= 0); [|lia]. intros H.
    apply (mul_ge_ceil k q 0 Hq) in H. unfold k in *. lia. }
  split; [assumption|]. split; [assumption|].
  exists (Z.max x 0). split; [rewrite En; exact Ex|]. split; [lia|]. split; [lia|].
  intros Hmod. specialize (Hx' Hmod). lia.
Qed.

Lemma gt_of_Z_pos n : 1 <= n <= 100000000000 -> gt (of_Z n) zero = true.
Proof.
  intros H.
  assert (H' : Z.abs n < 2 ^ 53) by (change (2 ^ 53) with 9007199254740992; lia).
  apply gt_zero_R_of.
  - apply of_Z_valid.
  - apply valid_not_nan_of_finite. now apply of_Z_finite.
  - rewrite R_of_of_Z by assumption. apply IZR_lt. lia.
Qed.

Lemma gt_zero_zero : gt zero zero = false.
Proof. reflexivity. Qed.

(* ================================================================== *)
(** * Rounding for display *)

Section ToFixed.
Local Open Scope R_scope.

Lemma Zfloor_add_half n : Zfloor (IZR n + / 2) = n.
Proof. apply Zfloor_eq. lra. Qed.

(** [hundredths] is the magnitude times 100, rounded half up. *)
Lemma hundredths_correct mx ex :
  hundredths mx ex = Zfloor (100 * F2R (Zpos mx) ex + / 2).
Proof.
  unfold hundredths, F2R. destruct (Z.leb_spec 0 ex) as [He|He].
  - rewrite bpow_IZR by assumption.
    replace (100 * (IZR (Zpos mx) * IZR (2 ^ ex))) with (IZR (100 * Zpos mx * 2 ^ ex))
      by (rewrite !mult_IZR; ring).
    now rewrite Zfloor_add_half.
  - assert (Hk : (0 <= - ex)%Z) by lia.
    assert (H2 : 0 < IZR (2 ^ (- ex))) by (apply IZR_lt, Z.pow_pos_nonneg; lia).
    rewrite <- (Zfloor_div _ (2 ^ (1 - ex))) by (apply Z.pow_pos_nonneg; lia).
    f_equal. replace (1 - ex)%Z with (- ex + 1)%Z by lia.
    rewrite Z.pow_add_r by lia. rewrite plus_IZR, !mult_IZR.
    replace (bpow ex) with (/ IZR (2 ^ (- ex))).
    + change (IZR (2 ^ 1)) with 2. field. lra.
    + rewrite <- bpow_IZR, <- bpow_opp by lia. f_equal. lia.
Qed.

Lemma hundredths_nonneg mx ex : (0 <= hundredths mx ex)%Z.
Proof.
  rewrite hundredths_correct. apply Zfloor_lub. pose proof (F2R_pos mx ex). lra.
Qed.

Lemma of_ratio_correct s n dn :
  (0 <= n)%Z -> (0 < dn)%Z -> Rounded (sgn s (IZR n / IZR dn)) (of_ratio s n dn).
Proof.
  intros Hn Hd. destruct dn as [|dp|dp]; try lia. destruct n as [|np|np]; try lia.
  - cbn [of_ratio]. unfold Rdiv. rewrite Rmult_0_l.
    replace (sgn s 0) with 0 by (destruct s; cbn; lra). apply Rounded_zero.
  - cbn [of_ratio].
    pose proof (div_finite_correct s np 0 false dp 0) as H. unfold div in H.
    rewrite !R_of_finite in H. unfold F2R in H. rewrite bpow_0, !Rmult_1_r in H.
    replace (sgn s (IZR (Zpos np) / IZR (Zpos dp)))
      with (sgn s (IZR (Zpos np)) / sgn false (IZR (Zpos dp))).
    + exact H.
    + destruct s; cbn [sgn]; [|reflexivity]. field. apply not_0_IZR. lia.
Qed.

(** [Number(x.toFixed(2))] of a finite number: the nearest number to the
    hundredths that [toFixed] prints. *)
Theorem Number_toFixed2_correct x :
  is_finite x = true ->
  exists n, n = Zfloor (100 * Rabs (R_of x) + / 2) /\
            Rounded (if Rlt_dec (R_of x) 0 then - (IZR n / 100) else IZR n / 100)
                    (Number_toFixed2 x).
Proof.
  destruct x as [s| | |s mx ex]; try discriminate; intros _.
  - exists 0%Z. cbn [R_of Number_toFixed2]. rewrite Rabs_R0. split.
    + symmetry. apply Zfloor_eq. lra.
    + destruct (Rlt_dec 0 0); [lra|]. unfold Rdiv. rewrite Rmult_0_l. apply Rounded_zero.
  - exists (hundredths mx ex). pose proof (F2R_pos mx ex) as Hpos.
    rewrite R_of_finite. split.
    + rewrite hundredths_correct. do 3 f_equal.
      destruct s; cbn [sgn]; [rewrite Rabs_left | rewrite Rabs_pos_eq]; lra.
    + cbn [Number_toFixed2].
      pose proof (of_ratio_correct s (hundredths mx ex) 100 (hundredths_nonneg mx ex) ltac:(lia)) as H.
      destruct s; cbn [sgn] in *; (destruct (Rlt_dec _ 0); [|]); try lra; exact H.
Qed.

Lemma Number_toFixed2_valid x : valid x -> valid (Number_toFixed2 x).
Proof.
  intros V. destruct (is_finite x) eqn:F.
  - destruct (Number_toFixed2_correct x F) as (n & _ & H). eapply Rounded_valid, H.
  - destruct x; try discriminate; assumption.
Qed.

(** A displayed percentage computed from a value in [[0, 100]] stays in
    [[0, 100]]. *)
Lemma Number_toFixed2_range x :
  valid x -> is_finite x = true -> 0 <= R_of x <= 100 ->
  is_finite (Number_toFixed2 x) = true /\ 0 <= R_of (Number_toFixed2 x) <= 100.
Proof.
  intros V F B. destruct (Number_toFixed2_correct x F) as (n & En & H).
  destruct (Rlt_dec (R_of x) 0) as [|_]; [lra|].
  rewrite Rabs_pos_eq in En by lra.
  assert (Hn : (0 <= n <= 10000)%Z).
  { subst n. split.
    - apply Zfloor_lub. lra.
    - assert (Zfloor (100 * R_of x + / 2) < 10001)%Z; [|lia].
      apply lt_IZR. pose proof (Zfloor_bound (100 * R_of x + / 2)). lra. }
  assert (Bn : R_of zero <= IZR n / 100 <= R_of (of_Z 100)).
  { rewrite R_of_100. change (R_of zero) with 0.
    assert (0 <= IZR n) by (apply IZR_le; lia).
    assert (IZR n <= 10000) by (apply IZR_le; lia). lra. }
  split.
  - eapply Rounded_finite with (lo := zero) (hi := of_Z 100);
      try eassumption; try reflexivity; apply of_Z_valid.
  - eapply Rounded_bounds with (lo := zero) (hi := of_Z 100) in H;
      try eassumption; try reflexivity; try apply of_Z_valid.
    rewrite R_of_100 in H. exact H.
Qed.

End ToFixed.

(* ================================================================== *)
(** * The percentage below 100, and what the counts can be *)

Section Gap.
Local Open Scope R_scope.

(** Below a positive number there is no number closer to it than one part
    in [2^53]. *)
Lemma gap_below a t :
  valid a -> valid t -> is_finite a = true -> is_finite t = true ->
  0 < R_of t -> R_of a < R_of t -> R_of a <= R_of t * (1 - bpow (-53)).
Proof.
  intros Va Vt Fa Ft Ht Hlt.
  assert (H53 : bpow (-53) = / 9007199254740992) by (apply (bpow_neg_IZR 53); lia).
  rewrite H53.
  destruct (Rle_or_lt (R_of a) 0) as [Hn|Hp]; [nra|].
  destruct (finite_pos_inv a Fa Hp) as (ma & ea & ->).
  destruct (finite_pos_inv t Ft Ht) as (mt & et & ->).
  unfold valid in Va, Vt. cbn [valid_binary] in Va, Vt.
  destruct (bounded_inv ma ea Va) as (Hea & Hma & Hca).
  destruct (bounded_inv mt et Vt) as (Het & Hmt & Hct).
  rewrite !R_of_finite in *. cbn [sgn] in *. unfold F2R in *.
  unfold prec in *. change (2 ^ 53)%Z with 9007199254740992%Z in *.
  change (2 ^ (53 - 1))%Z with 4503599627370496%Z in *.
  apply IZR_lt in Hma, Hmt.
  destruct (Z.lt_trichotomy ea et) as [Hl|[He|Hg]].
  - specialize (Hct ltac:(lia)). apply IZR_le in Hct.
    replace et with ((et - ea) + ea)%Z in * by lia.
    rewrite bpow_plus in *. rewrite (bpow_IZR (et - ea)) in * by lia.
    assert (HK : 2 <= IZR (2 ^ (et - ea))).
    { apply IZR_le. change 2%Z with (2 ^ 1)%Z at 1. apply Z.pow_le_mono_r; lia. }
    pose proof (bpow_gt_0 ea) as HB.
    set (K := IZR (2 ^ (et - ea))) in *. set (B := bpow ea) in *.
    assert (IZR (Zpos ma) + 1 <= 9007199254740992).
    { clear - Va. destruct (bounded_inv ma ea Va) as (_ & Hma & _).
      unfold prec in Hma. change (2 ^ 53)%Z with 9007199254740992%Z in Hma.
      rewrite <- plus_IZR. apply IZR_le. lia. }
    assert (9007199254740992 <= IZR (Zpos mt) * K) by nra.
    assert (IZR (Zpos ma) <= IZR (Zpos mt) * K * (1 - / 9007199254740992)) by lra.
    replace (IZR (Zpos mt) * (K * B) * (1 - / 9007199254740992))
      with (IZR (Zpos mt) * K * (1 - / 9007199254740992) * B) by ring.
    apply Rmult_le_compat_r; lra.
  - subst et. pose proof (bpow_gt_0 ea) as HB.
    assert (Hm : IZR (Zpos ma) + 1 <= IZR (Zpos mt)).
    { rewrite <- plus_IZR. apply IZR_le.
      assert (Zpos ma < Zpos mt)%Z; [|lia]. apply lt_IZR. nra. }
    assert (IZR (Zpos ma) <= IZR (Zpos mt) * (1 - / 9007199254740992)) by lra.
    replace (IZR (Zpos mt) * bpow ea * (1 - / 9007199254740992))
      with (IZR (Zpos mt) * (1 - / 9007199254740992) * bpow ea) by ring.
    apply Rmult_le_compat_r; lra.
  - exfalso. specialize (Hca ltac:(lia)). apply IZR_le in Hca.
    replace ea with ((ea - et) + et)%Z in * by lia.
    rewrite bpow_plus in *. rewrite (bpow_IZR (ea - et)) in * by lia.
    assert (HK : 2 <= IZR (2 ^ (ea - et))).
    { apply IZR_le. change 2%Z with (2 ^ 1)%Z at 1. apply Z.pow_le_mono_r; lia. }
    pose proof (bpow_gt_0 et) as HB.
    set (K := IZR (2 ^ (ea - et))) in *. set (B := bpow et) in *.
    assert (9007199254740992 <= IZR (Zpos ma) * K) by nra.
    assert (IZR (Zpos mt) * B < IZR (Zpos ma) * K * B); [|lra].
    apply Rmult_lt_compat_r; lra.
Qed.

Lemma order_facts a t :
  valid a -> valid t -> is_finite t = true -> le zero a = true -> lt a t = true ->
  is_finite a = true /\ 0 <= R_of a /\ R_of a < R_of t.
Proof.
  intros Va Vt Ft H0 Hlt.
  assert (Na : is_nan a = false) by (eapply lt_not_nan_l; eassumption).
  assert (Nt : is_nan t = false) by (now apply valid_not_nan_of_finite).
  assert (Fa : is_finite a = true).
  { apply (finite_between a zero t); try assumption; try reflexivity. now apply lt_le. }
  split; [assumption|]. split.
  - apply (le_R_of zero a zero_valid Va eq_refl Na) in H0. exact H0.
  - now apply (lt_R_of a t Va Vt Na Nt).
Qed.

(** The percentage reaches 100 only when every class was attended. *)
Lemma percent_below_100 a t :
  valid a -> valid t -> is_finite t = true -> le zero a = true -> lt a t = true ->
  ge (mul (div a t) (of_Z 100)) (of_Z 100) = false.
Proof.
  intros Va Vt Ft H0 Hlt.
  destruct (order_facts a t Va Vt Ft H0 Hlt) as (Fa & Ha & Hat).
  assert (Ht : 0 < R_of t) by lra.
  assert (R : in_range t a) by (repeat split; try assumption; lra).
  destruct (cp_facts t Ft Ht a R) as (Vc & Fc & q & Hq & Fq & Vq & Hc).
  unfold cp in *.
  pose proof (gap_below a t Va Vt Fa Ft Ht Hat) as Hgap.
  assert (Bq : R_of q <= R_of pred_one).
  { apply (Rounded_le _ _ _ _ Hq (Rounded_self pred_one eq_refl eq_refl)).
    rewrite R_of_pred_one. apply Rmult_le_reg_r with (R_of t); [assumption|].
    unfold Rdiv. rewrite Rmult_assoc, Rinv_l by lra. lra. }
  pose proof (mul_correct pred_one (of_Z 100) eq_refl (of_Z_valid 100) eq_refl eq_refl) as Hm.
  rewrite R_of_100 in Hm.
  assert (Bc : R_of (mul (div a t) (of_Z 100)) <= R_of (mul pred_one (of_Z 100))).
  { apply (Rounded_le _ _ _ _ Hc Hm). lra. }
  assert (Hlt100 : R_of (mul pred_one (of_Z 100)) < 100).
  { rewrite <- R_of_100. apply lt_R_of; try reflexivity; apply of_Z_valid. }
  destruct (ge (mul (div a t) (of_Z 100)) (of_Z 100)) eqn:G; [exfalso|reflexivity].
  unfold ge in G. change (SFleb ?x ?y) with (le x y) in G.
  apply le_R_of in G; try assumption; try reflexivity; try apply of_Z_valid.
  - rewrite R_of_100 in G. lra.
  - now apply valid_not_nan_of_finite.
Qed.

End Gap.

(** ** Counts *)

Lemma clamp_count x :
  valid x -> (is_finite x = true -> exists n, R_of x = IZR n) -> is_count (clamp x).
Proof.
  intros V H. unfold clamp. destruct (gt x zero) eqn:G; [|left; reflexivity].
  destruct x as [s|s| |s m e]; try discriminate.
  - destruct s; [discriminate|]. right; left; reflexivity.
  - right; right. split; [reflexivity|]. destruct (H eq_refl) as [n Hn].
    exists n. split; [|assumption].
    apply gt_zero_R_of in G; [|assumption|reflexivity].
    apply lt_IZR. rewrite <- Hn. exact G.
Qed.

Lemma floor_count x : valid x -> is_count (clamp (Math_floor x)).
Proof.
  intros V. apply clamp_count; [now apply Math_floor_valid|].
  intros F. destruct (is_finite x) eqn:Fx.
  - destruct (Math_floor_correct x V Fx) as (_ & _ & E). eauto.
  - destruct x; discriminate.
Qed.

Lemma ceil_count x : valid x -> is_count (clamp (Math_ceil x)).
Proof.
  intros V. apply clamp_count; [now apply Math_ceil_valid|].
  intros F. destruct (is_finite x) eqn:Fx.
  - destruct (Math_ceil_correct x V Fx) as (_ & _ & E). eauto.
  - destruct x; discriminate.
Qed.

Lemma of_ratio_valid s n d : valid (of_ratio s n d).
Proof.
  destruct n as [|n|n], d as [|d|d]; try reflexivity.
  cbn [of_ratio]. eapply Rounded_valid. apply div_finite_correct.
Qed.

Lemma read_radix_valid b s : valid (read_radix b s).
Proof.
  unfold read_radix. destruct (read_digits b s 0 0) as [[v c] rest].
  destruct (_ && _); [apply of_ratio_valid | reflexivity].
Qed.

Lemma read_decimal_valid s : valid (read_decimal s).
Proof.
  unfold read_decimal. destruct (read_sign s) as [neg s1].
  destruct (prefix _ s1).
  - destruct (at_end _); reflexivity.
  - destruct (read_digits 10 s1 0 0) as [[ip ci] s2].
    destruct (match s2 with String "." s2' => read_digits 10 s2' ip 0 | _ => (ip, 0, s2) end)
      as [[fp cf] s3].
    destruct (ci + cf =? 0); [reflexivity|].
    destruct (read_exponent s3) as [[ex s4]|]; [|reflexivity].
    destruct (at_end s4); [|reflexivity].
    destruct (0 <=? ex - cf); apply of_ratio_valid.
Qed.

Lemma StringToNumber_valid s : valid (StringToNumber s).
Proof.
  unfold StringToNumber.
  destruct (skip_space s) as [|[b0 b1 b2 b3 b4 b5 b6 b7] t]; [reflexivity|].
  destruct b0, b1, b2, b3, b4, b5, b6, b7; try apply read_decimal_valid.
  destruct t as [|c' t']; [apply read_decimal_valid|].
  repeat match goal with
         | |- context [if ?b then _ else _] => destruct b
         end; try apply read_radix_valid; apply read_decimal_valid.
Qed.

Lemma ToNumber_valid v : well_formed v -> valid (ToNumber v).
Proof.
  destruct v as [| |b|x|s]; cbn [ToNumber well_formed]; intros H; try reflexivity.
  - destruct b; reflexivity.
  - assumption.
  - apply StringToNumber_valid.
Qed.

(** The function only looks at the Number values of its arguments. *)
Lemma calculateAttendance_ToNumber a t p :
  calculateAttendance a t p =
  calculateAttendance (Num (ToNumber a)) (Num (ToNumber t)) (Num (ToNumber p)).
Proof. reflexivity. Qed.

Lemma guard_cases (a t p : value) :
  (le (ToNumber t) zero = true /\ calculateAttendance a t p = no_classes) \/
  (le (ToNumber t) zero = false /\
   let a' := ToNumber a in let t' := ToNumber t in let p' := ToNumber p in
   let r := div p' (of_Z 100) in
   let cp := mul (div a' t') (of_Z 100) in
   currentPercent (calculateAttendance a t p) = Number_toFixed2 cp /\
   canBunk (calculateAttendance a t p) =
     (if ge cp p' then clamp (Math_floor (div (sub a' (mul r t')) r)) else zero) /\
   needToAttend (calculateAttendance a t p) =
     (if ge cp p' then zero
      else clamp (Math_ceil (div (sub (mul r t') a') (sub (of_Z 1) r))))).
Proof.
  destruct (le (ToNumber t) zero) eqn:G.
  - left. split; [reflexivity|].
    unfold calculateAttendance, calculateAttendance_with. rewrite G. reflexivity.
  - right. split; [reflexivity|]. rewrite calculateAttendance_ToNumber.
    apply calculateAttendance_fields. exact G.
Qed.

(* ================================================================== *)
(** * The calculator against its specification *)

(** C1 (amended).  For whole counts [0 <= attended <= total <= 10^9],
    [total > 0], a whole [requiredPercent] between 1 and 100 and the safe
    branch taken, [needToAttend] is 0 and [canBunk] is the clamped floor of
    [(attended - r*total)/r]; that count can always be skipped without
    dropping below the target, and it is the greatest such count or one less
    than it, the greatest whenever the exact quotient is not a whole
    number. *)
Theorem canBunk_greatest_or_one_less (a t p : Z) :
  0 <= a <= t -> 0 < t <= 1000000000 -> 1 <= p <= 100 ->
  ge (mul (div (of_Z a) (of_Z t)) (of_Z 100)) (of_Z p) = true ->
  let st := calculateAttendance (of_Z a) (of_Z t) (of_Z p) in
  let r := div (of_Z p) (of_Z 100) in
  needToAttend st = zero /\
  canBunk st = clamp (Math_floor (div (sub (of_Z a) (mul r (of_Z t))) r)) /\
  exists c, canBunk st = of_Z c /\ 0 <= c /\
    p * (t + c) <= 100 * a /\
    (forall n, p * (t + n) <= 100 * a -> n <= c + 1) /\
    ((100 * a - p * t) mod p <> 0 ->
     forall n, p * (t + n) <= 100 * a -> n <= c).
Proof.
  intros Ha Ht Hp G st r.
  assert (Hsafe : p * t <= 100 * a).
  { destruct (Z_le_gt_dec (p * t) (100 * a)) as [|Hlt]; [assumption|exfalso].
    change (ge (percent a t) (of_Z p) = true) in G.
    rewrite (unsafe_of_below a t p Ha Ht Hp) in G by lia. discriminate. }
  destruct (safe_outcome a t p Ha Ht Hp Hsafe) as (En & Eb & c & Ec & Hc0 & Hc & Hc').
  fold st in En, Eb, Ec. fold r in Eb.
  split; [assumption|]. split; [assumption|].
  exists c. split; [assumption|]. split; [assumption|].
  assert (Hp0 : 0 < p) by lia.
  split; [|split].
  - assert (H : p * c <= 100 * a - p * t)
      by (apply (mul_le_div (100 * a - p * t) p c Hp0); lia).
    lia.
  - intros n Hn. assert (Hn' : p * n <= 100 * a - p * t) by lia.
    apply (mul_le_div _ p n Hp0) in Hn'. lia.
  - intros Hmod n Hn. specialize (Hc' Hmod).
    assert (Hn' : p * n <= 100 * a - p * t) by lia.
    apply (mul_le_div _ p n Hp0) in Hn'. lia.
Qed.

Lemma canBunk_greatest_or_one_less_witness :
  needToAttend (calculateAttendance (of_Z 80) (of_Z 100) (of_Z 75)) = zero /\
  exists c, canBunk (calculateAttendance (of_Z 80) (of_Z 100) (of_Z 75)) = of_Z c /\
    0 <= c /\ 75 * (100 + c) <= 100 * 80 /\
    (forall n, 75 * (100 + n) <= 100 * 80 -> n <= c + 1).
Proof.
  destruct (canBunk_greatest_or_one_less 80 100 75
              ltac:(lia) ltac:(lia) ltac:(lia) eq_refl)
    as (En & _ & c & Ec & H0 & H1 & H2 & _).
  split; [exact En|]. exists c. repeat split; assumption.
Defined.

(** With 11 classes out of 11 attended and a target of 55 percent the
    function allows 8 classes to be skipped, although skipping 9 keeps the
    attendance at the target, in exact arithmetic and in the arithmetic of
    the program alike. *)
Lemma canBunk_not_greatest :
  ge (mul (div (of_Z 11) (of_Z 11)) (of_Z 100)) (of_Z 55) = true /\
  canBunk (calculateAttendance (of_Z 11) (of_Z 11) (of_Z 55)) = of_Z 8 /\
  55 * (11 + 9) <= 100 * 11 /\
  ge (div (of_Z 11) (of_Z (11 + 9))) (div (of_Z 55) (of_Z 100)) = true.
Proof.
  split; [reflexivity|]. split; [reflexivity|]. split; [lia | reflexivity].
Qed.

(** C2 (amended).  For whole counts [0 <= attended <= total <= 10^9],
    [total > 0], a whole [requiredPercent] between 1 and 99 and the unsafe
    branch taken, [canBunk] is 0 and [needToAttend] is the clamped ceiling
    of [(r*total - attended)/(1 - r)]; attending that many classes in a row
    always reaches the target, and the count is the least such count or one
    more than it, the least whenever the exact quotient is not a whole
    number. *)
Theorem needToAttend_least_or_one_more (a t p : Z) :
  0 <= a <= t -> 0 < t <= 1000000000 -> 1 <= p <= 99 ->
  ge (mul (div (of_Z a) (of_Z t)) (of_Z 100)) (of_Z p) = false ->
  let st := calculateAttendance (of_Z a) (of_Z t) (of_Z p) in
  let r := div (of_Z p) (of_Z 100) in
  canBunk st = zero /\
  needToAttend st =
    clamp (Math_ceil (div (sub (mul r (of_Z t)) (of_Z a)) (sub (of_Z 1) r))) /\
  exists x, needToAttend st = of_Z x /\ 0 <= x /\
    p * (t + x) <= 100 * (a + x) /\
    (forall y, p * (t + y) <= 100 * (a + y) -> x <= y + 1) /\
    ((p * t - 100 * a) mod (100 - p) <> 0 ->
     forall y, p * (t + y) <= 100 * (a + y) -> x <= y).
Proof.
  intros Ha Ht Hp G st r.
  assert (Hp' : 1 <= p <= 100) by lia.
  destruct (calculateAttendance_fields (of_Z a) (of_Z t) (of_Z p)
              (guard_false a t p Ha Ht Hp')) as (_ & Eb & En).
  fold st in Eb, En. cbn zeta in Eb, En. fold r in Eb, En. rewrite G in Eb, En.
  split; [assumption|]. split; [assumption|].
  assert (Hq : 0 < 100 - p) by lia.
  assert (Hle : 100 * a <= p * t).
  { destruct (Z_le_gt_dec (100 * a) (p * t)) as [|Hgt]; [assumption|exfalso].
    change (ge (percent a t) (of_Z p) = false) in G.
    rewrite (safe_of_above a t p Ha Ht Hp') in G by lia. discriminate. }
  destruct (Z.eq_dec (100 * a) (p * t)) as [Heq|Hne].
  - destruct (safe_outcome a t p Ha Ht Hp' ltac:(lia)) as (Ez & _).
    fold st in Ez. exists 0. split; [exact Ez|]. split; [lia|]. split; [lia|].
    split.
    + intros y Hy. assert (0 <= (100 - p) * y) by lia. nia.
    + intros Hmod. exfalso. apply Hmod.
      replace (p * t - 100 * a) with 0 by lia. apply Z.mod_0_l. lia.
  - destruct (unsafe_outcome a t p Ha Ht Hp ltac:(lia)) as (_ & _ & x & Ex & Hx1 & Hx & Hx').
    fold st in Ex. exists x. split; [assumption|]. split; [lia|].
    split; [|split].
    + assert (H : p * t - 100 * a <= (100 - p) * x)
        by (apply (mul_ge_ceil _ (100 - p) x Hq); lia).
      lia.
    + intros y Hy. assert (H : p * t - 100 * a <= (100 - p) * y) by lia.
      apply (mul_ge_ceil _ (100 - p) y Hq) in H. lia.
    + intros Hmod y Hy. specialize (Hx' Hmod).
      assert (H : p * t - 100 * a <= (100 - p) * y) by lia.
      apply (mul_ge_ceil _ (100 - p) y Hq) in H. lia.
Qed.

Lemma needToAttend_least_or_one_more_witness :
  canBunk (calculateAttendance (of_Z 60) (of_Z 100) (of_Z 75)) = zero /\
  exists x, needToAttend (calculateAttendance (of_Z 60) (of_Z 100) (of_Z 75)) = of_Z x /\
    0 <= x /\ 75 * (100 + x) <= 100 * (60 + x) /\
    (forall y, 75 * (100 + y) <= 100 * (60 + y) -> x <= y + 1).
Proof.
  destruct (needToAttend_least_or_one_more 60 100 75
              ltac:(lia) ltac:(lia) ltac:(lia) eq_refl)
    as (Eb & _ & x & Ex & H0 & H1 & H2 & _).
  split; [exact Eb|]. exists x. repeat split; assumption.
Defined.

(** With no class out of 19 attended and a target of 5 percent the function
    asks for 2 classes, although attending 1 reaches the target, in exact
    arithmetic and in the arithmetic of the program alike. *)
Lemma needToAttend_not_least :
  ge (mul (div (of_Z 0) (of_Z 19)) (of_Z 100)) (of_Z 5) = false /\
  needToAttend (calculateAttendance (of_Z 0) (of_Z 19) (of_Z 5)) = of_Z 2 /\
  5 * (19 + 1) <= 100 * (0 + 1) /\
  ge (div (of_Z (0 + 1)) (of_Z (19 + 1))) (div (of_Z 5) (of_Z 100)) = true.
Proof.
  split; [reflexivity|]. split; [reflexivity|]. split; [lia | reflexivity].
Qed.

(** C3.  Whenever [Number(total) <= 0] the function returns exactly the
    record with [currentPercent] 0, [canBunk] 0, [needToAttend] 0 and the
    message "No classes conducted yet.", whatever [attended] and
    [requiredPercent] are and whatever operator stands for the division, so
    no division is reached; and it returns that record in no other case, so
    this is the only short-circuit. *)
Theorem no_classes_short_circuit (a t p : value) :
  (forall quot : number -> number -> number,
     le (ToNumber t) zero = true ->
     calculateAttendance_with quot a t p =
       {| currentPercent := zero;
          canBunk := zero;
          needToAttend := zero;
          message := [Text "No classes conducted yet."] |}) /\
  (calculateAttendance a t p =
     {| currentPercent := zero;
        canBunk := zero;
        needToAttend := zero;
        message := [Text "No classes conducted yet."] |} <->
   le (ToNumber t) zero = true) /\
  (le (ToNumber t) zero = false ->
   message (calculateAttendance a t p) <> [Text "No classes conducted yet."]).
Proof.
  assert (Other : le (ToNumber t) zero = false ->
                  message (calculateAttendance a t p) <>
                    [Text "No classes conducted yet."]).
  { intros G. unfold calculateAttendance, calculateAttendance_with.
    rewrite G. cbn zeta. destruct (ge _ _); cbn; discriminate. }
  split; [|split].
  - intros quot H. unfold calculateAttendance_with. rewrite H. reflexivity.
  - split.
    + intros E. destruct (le (ToNumber t) zero) eqn:G; [reflexivity|exfalso].
      apply (Other eq_refl). rewrite E. reflexivity.
    + intros H. unfold calculateAttendance, calculateAttendance_with.
      rewrite H. reflexivity.
  - exact Other.
Qed.

(** C4 (amended).  For well-formed arguments each of [canBunk] and
    [needToAttend] is [+0], a positive whole number or [+Infinity], never
    negative, fractional or [NaN], and at least one of the two is [+0]; when
    [total] is finite and [0 <= attended <= total], [currentPercent] lies
    between 0 and 100. *)
Theorem counts_and_percent_ranges (a t p : value) :
  well_formed a -> well_formed t -> well_formed p ->
  let st := calculateAttendance a t p in
  is_count (canBunk st) /\ is_count (needToAttend st) /\
  (canBunk st = zero \/ needToAttend st = zero) /\
  (is_finite (ToNumber t) = true -> le zero (ToNumber a) = true ->
   le (ToNumber a) (ToNumber t) = true ->
   le zero (currentPercent st) = true /\ le (currentPercent st) (of_Z 100) = true).
Proof.
  intros Wa Wt Wp. cbv zeta.
  pose proof (ToNumber_valid a Wa) as Va. pose proof (ToNumber_valid t Wt) as Vt.
  pose proof (ToNumber_valid p Wp) as Vp.
  destruct (guard_cases a t p) as [[G E]|[G (Ec & Eb & En)]].
  - rewrite E. cbn [canBunk needToAttend currentPercent no_classes].
    split; [left; reflexivity|]. split; [left; reflexivity|]. split; [left; reflexivity|].
    intros _ _ _. split; reflexivity.
  - cbn zeta in Ec, Eb, En. rewrite Eb, En, Ec.
    set (r := div (ToNumber p) (of_Z 100)) in *.
    assert (Vr : valid r) by (apply div_valid; [assumption | apply of_Z_valid]).
    assert (Vm : valid (mul r (ToNumber t))) by (now apply mul_valid).
    split; [|split; [|split]].
    + destruct (ge _ _); [|left; reflexivity].
      apply floor_count, div_valid; [apply sub_valid|]; assumption.
    + destruct (ge _ _); [left; reflexivity|].
      apply ceil_count, div_valid; [apply sub_valid; assumption|].
      apply sub_valid; [apply of_Z_valid | assumption].
    + destruct (ge _ _); [right | left]; reflexivity.
    + intros Ft H0 Hat.
      assert (Nt : is_nan (ToNumber t) = false) by (now apply valid_not_nan_of_finite).
      assert (Na : is_nan (ToNumber a) = false) by (eapply le_not_nan_l; eassumption).
      assert (Fa : is_finite (ToNumber a) = true).
      { apply (finite_between (ToNumber a) zero (ToNumber t)); try assumption; reflexivity. }
      apply (le_R_of zero _ zero_valid Va eq_refl Na) in H0.
      apply (le_R_of _ _ Va Vt Na Nt) in Hat.
      change (R_of zero) with 0%R in H0.
      assert (Ht : (0 < R_of (ToNumber t))%R).
      { destruct (Rlt_or_le 0 (R_of (ToNumber t))) as [|Hle]; [assumption|exfalso].
        apply (le_R_of _ zero Vt zero_valid Nt eq_refl) in Hle. congruence. }
      assert (R : in_range (ToNumber t) (ToNumber a)) by (repeat split; assumption).
      destruct (cp_facts (ToNumber t) Ft Ht (ToNumber a) R) as (Vc & Fc & q & Hq & Fq & Vq & Hc).
      unfold cp in *.
      assert (Bq : (0 <= R_of (ToNumber a) / R_of (ToNumber t) <= 1)%R).
      { split.
        - apply Rmult_le_pos; [assumption | apply Rlt_le, Rinv_0_lt_compat; assumption].
        - apply Rmult_le_reg_r with (R_of (ToNumber t)); [assumption|]. unfold Rdiv.
          rewrite Rmult_assoc, Rinv_l; lra. }
      pose proof (Rounded_bounds _ _ zero (of_Z 1) Hq zero_valid (of_Z_valid 1) eq_refl eq_refl) as Bq'.
      rewrite R_of_1 in Bq'. change (R_of zero) with 0%R in Bq'. specialize (Bq' Bq).
      pose proof (Rounded_bounds _ _ zero (of_Z 100) Hc zero_valid (of_Z_valid 100) eq_refl eq_refl) as Bc.
      rewrite R_of_100 in Bc. change (R_of zero) with 0%R in Bc.
      specialize (Bc ltac:(lra)).
      destruct (Number_toFixed2_range _ Vc Fc Bc) as (Fd & Bd).
      pose proof (Number_toFixed2_valid _ Vc) as Vd.
      pose proof (valid_not_nan_of_finite _ Fd) as Nd.
      split.
      * apply (le_R_of zero _ zero_valid Vd eq_refl Nd). apply Bd.
      * apply (le_R_of _ (of_Z 100) Vd (of_Z_valid 100) Nd eq_refl).
        rewrite R_of_100. apply Bd.
Qed.

Lemma counts_and_percent_ranges_witness :
  is_count (canBunk (calculateAttendance (of_Z 80) (Str "100") Undefined)) /\
  le (currentPercent (calculateAttendance (of_Z 80) (Str "100") Undefined)) (of_Z 100) = true.
Proof.
  destruct (counts_and_percent_ranges (of_Z 80) (Str "100") Undefined eq_refl I I)
    as (H1 & _ & _ & H4).
  split; [exact H1|]. apply (H4 eq_refl eq_refl eq_refl).
Defined.

(** With 50 classes out of 100 attended and a target of 100 percent
    [needToAttend] is [Infinity], which is not an integer. *)
Lemma needToAttend_not_an_integer :
  needToAttend (calculateAttendance (of_Z 50) (of_Z 100) (of_Z 100)) = Infinity /\
  is_finite (needToAttend (calculateAttendance (of_Z 50) (of_Z 100) (of_Z 100))) = false.
Proof. split; reflexivity. Qed.

(** C5.  With [requiredPercent = 100] the ratio [r] is 1 and the
    denominator [1 - r] is zero; for every [0 <= attended < total] the
    unsafe branch is taken, the quotient is [Infinity] and so is the
    returned [needToAttend]. *)
Theorem full_target_divides_by_zero (a t : number) :
  valid a -> valid t -> is_finite t = true ->
  le zero a = true -> lt a t = true ->
  let r := div (of_Z 100) (of_Z 100) in
  let st := calculateAttendance a t (of_Z 100) in
  sub (of_Z 1) r = zero /\
  ge (mul (div a t) (of_Z 100)) (of_Z 100) = false /\
  div (sub (mul r t) a) (sub (of_Z 1) r) = Infinity /\
  needToAttend st = Infinity /\ is_finite (needToAttend st) = false /\
  canBunk st = zero.
Proof.
  intros Va Vt Ft H0 Hlt r st.
  destruct (order_facts a t Va Vt Ft H0 Hlt) as (Fa & Ha & Hat).
  pose proof (percent_below_100 a t Va Vt Ft H0 Hlt) as G.
  assert (Hg : le t zero = false).
  { destruct (le t zero) eqn:E; [exfalso|reflexivity].
    apply (le_R_of t zero Vt zero_valid) in E;
      [|now apply valid_not_nan_of_finite | reflexivity].
    change (R_of zero) with 0%R in E. lra. }
  destruct (calculateAttendance_fields a t (of_Z 100) Hg) as (_ & Eb & En).
  fold st in Eb, En. cbn zeta in Eb, En. fold r in Eb, En. rewrite G in Eb, En.
  assert (Hr : r = of_Z 1) by reflexivity.
  assert (Hd : sub (of_Z 1) r = zero) by reflexivity.
  assert (Hm : Rounded (R_of (of_Z 1) * R_of t) (mul r t)).
  { rewrite Hr. apply mul_correct; try assumption; reflexivity. }
  rewrite R_of_1, Rmult_1_l in Hm.
  pose proof (Rounded_valid _ _ Hm) as Vm.
  pose proof (Rounded_exact t _ Vt Ft Hm) as Em.
  assert (Fm : is_finite (mul r t) = true).
  { apply finite_of_R_of_lt; [eapply Rounded_not_nan; eassumption|].
    rewrite Em. now apply valid_R_of_lt. }
  assert (Hs : (0 < R_of (sub (mul r t) a))%R).
  { apply sub_pos; try assumption. rewrite Em. assumption. }
  assert (Fs : is_finite (sub (mul r t) a) = true).
  { pose proof (sub_correct _ _ Vm Va Fm Fa) as Hsub. rewrite Em in Hsub.
    eapply Rounded_finite with (lo := zero) (hi := t); try eassumption; try reflexivity.
    change (R_of zero) with 0%R. lra. }
  assert (Hq : div (sub (mul r t) a) (sub (of_Z 1) r) = Infinity).
  { rewrite Hd. destruct (finite_pos_inv _ Fs Hs) as (ms & es & ->). reflexivity. }
  split; [assumption|]. split; [assumption|]. split; [assumption|].
  rewrite En, Hq. repeat split; try reflexivity. assumption.
Qed.

Lemma full_target_divides_by_zero_witness :
  needToAttend (calculateAttendance (of_Z 50) (of_Z 100) (of_Z 100)) = Infinity.
Proof.
  apply (full_target_divides_by_zero (of_Z 50) (of_Z 100) eq_refl eq_refl eq_refl eq_refl eq_refl).
Defined.

Lemma ceil_le_self k q : 0 <= k -> 0 < q -> - (- k / q) <= k.
Proof. intros Hk Hq. apply (mul_ge_ceil k q k Hq). nia. Qed.

Lemma div_le_self k p : 0 <= k -> 0 < p -> k / p <= k.
Proof. intros Hk Hp. apply Z.div_le_upper_bound; [assumption | nia]. Qed.

(** C6 (amended).  For whole counts [0 <= attended <= total <= 10^9],
    [total > 0] and a whole [requiredPercent] between 1 and 99, the two
    counts are never both positive.  Below the target [needToAttend] is
    positive and [canBunk] is 0; exactly at the target both are 0; above it
    [needToAttend] is 0, and [canBunk] is 0 when one more skipped class
    would fall below the target and positive when one more skipped class
    would stay strictly above it. *)
Theorem counts_by_position (a t p : Z) :
  0 <= a <= t -> 0 < t <= 1000000000 -> 1 <= p <= 99 ->
  let st := calculateAttendance (of_Z a) (of_Z t) (of_Z p) in
  (canBunk st = zero \/ needToAttend st = zero) /\
  (100 * a < p * t -> canBunk st = zero /\ gt (needToAttend st) zero = true) /\
  (100 * a = p * t -> canBunk st = zero /\ needToAttend st = zero) /\
  (p * t < 100 * a ->
   needToAttend st = zero /\
   (100 * a < p * (t + 1) -> canBunk st = zero) /\
   (p * (t + 1) < 100 * a -> gt (canBunk st) zero = true)).
Proof.
  intros Ha Ht Hp st. assert (Hp' : 1 <= p <= 100) by lia.
  assert (Below : 100 * a < p * t ->
                  canBunk st = zero /\ gt (needToAttend st) zero = true).
  { intros H. destruct (unsafe_outcome a t p Ha Ht Hp H) as (Eb & _ & x & Ex & Hx1 & Hx & _).
    fold st in Eb, Ex. split; [assumption|]. rewrite Ex. apply gt_of_Z_pos.
    pose proof (ceil_le_self (p * t - 100 * a) (100 - p) ltac:(lia) ltac:(lia)). nia. }
  assert (Above : p * t <= 100 * a ->
                  needToAttend st = zero /\
                  exists c, canBunk st = of_Z c /\ 0 <= c /\
                    (100 * a - p * t) / p - 1 <= c <= (100 * a - p * t) / p /\
                    ((100 * a - p * t) mod p <> 0 -> c = (100 * a - p * t) / p)).
  { intros H. destruct (safe_outcome a t p Ha Ht Hp' H) as (En & _ & c & Hc).
    fold st in En, Hc. split; [assumption|]. exists c. exact Hc. }
  split; [|split; [|split]].
  - destruct (Z_lt_le_dec (100 * a) (p * t)) as [H|H].
    + left. now apply Below.
    + right. apply Above. lia.
  - exact Below.
  - intros H. destruct (Above ltac:(lia)) as (En & c & Ec & Hc0 & Hc & _).
    split; [|assumption]. rewrite Ec.
    replace (100 * a - p * t) with 0 in Hc by lia. rewrite Z.div_0_l in Hc by lia.
    replace c with 0 by lia. reflexivity.
  - intros H. destruct (Above ltac:(lia)) as (En & c & Ec & Hc0 & Hc & Hc').
    split; [assumption|]. split.
    + intros H1. rewrite Ec.
      assert ((100 * a - p * t) / p = 0) by (apply Z.div_small; lia).
      replace c with 0 by lia. reflexivity.
    + intros H1. rewrite Ec. apply gt_of_Z_pos.
      pose proof (div_le_self (100 * a - p * t) p ltac:(lia) ltac:(lia)).
      split; [|nia].
      set (k := 100 * a - p * t) in *.
      assert (Hk : p < k) by (unfold k; lia).
      assert (H1k : 1 <= k / p) by (apply Z.div_le_lower_bound; lia).
      destruct (Z.eq_dec (k mod p) 0) as [Hm|Hm].
      * assert (2 <= k / p); [|lia].
        apply Z.div_le_lower_bound; [lia|].
        pose proof (Z.div_mod k p ltac:(lia)) as E. rewrite Hm in E.
        assert (k / p <> 1) by nia. nia.
      * specialize (Hc' Hm). lia.
Qed.

Lemma counts_by_position_witness :
  canBunk (calculateAttendance (of_Z 60) (of_Z 100) (of_Z 75)) = zero /\
  gt (needToAttend (calculateAttendance (of_Z 60) (of_Z 100) (of_Z 75))) zero = true.
Proof.
  destruct (counts_by_position 60 100 75 ltac:(lia) ltac:(lia) ltac:(lia))
    as (_ & H & _).
  apply H. lia.
Defined.

(** With 4 classes out of 5 attended and a target of 75 percent the subject
    is above the target and both counts are 0. *)
Lemma both_zero_above_target :
  75 * 5 < 100 * 4 /\
  lt (of_Z 75) (mul (div (of_Z 4) (of_Z 5)) (of_Z 100)) = true /\
  canBunk (calculateAttendance (of_Z 4) (of_Z 5) (of_Z 75)) = zero /\
  needToAttend (calculateAttendance (of_Z 4) (of_Z 5) (of_Z 75)) = zero.
Proof. split; [lia|]. repeat split; reflexivity. Qed.

Lemma calculateAttendance_monotone_witness :
  le (canBunk (calculateAttendance (of_Z 60) (of_Z 100) (of_Z 75)))
     (canBunk (calculateAttendance (of_Z 80) (of_Z 100) (of_Z 75))) = true /\
  le (needToAttend (calculateAttendance (of_Z 80) (of_Z 100) (of_Z 75)))
     (needToAttend (calculateAttendance (of_Z 60) (of_Z 100) (of_Z 75))) = true.
Proof.
  apply (calculateAttendance_monotone (of_Z 60) (of_Z 80) (of_Z 100) (of_Z 75));
    reflexivity.
Defined.

(** C8.  Past the guard the returned [currentPercent] is
    [(attended/total)*100] rounded to hundredths, half up, and read back as
    a Number, while the branch, and with it both counts and the message,
    follows the comparison of the unrounded value with [requiredPercent]. *)
Theorem percent_rounded_for_display_only (a t p : number) :
  le t zero = false ->
  let cp := mul (div a t) (of_Z 100) in
  let st := calculateAttendance a t p in
  currentPercent st = Number_toFixed2 cp /\
  (is_finite cp = true ->
   exists n, n = Zfloor (100 * Rabs (R_of cp) + / 2) /\
     Rounded (if Rlt_dec (R_of cp) 0 then - (IZR n / 100) else IZR n / 100)%R
             (currentPercent st)) /\
  (ge cp p = true ->
   needToAttend st = zero /\
   message st = [Text "You are safe. You can bunk around "; Subst (canBunk st);
                 Text " classes."]) /\
  (ge cp p = false ->
   canBunk st = zero /\
   message st = [Text "You need to attend around "; Subst (needToAttend st);
                 Text " more classes to reach "; Subst p; Text "%."]).
Proof.
  intros Hg cp st.
  assert (Ec : currentPercent st = Number_toFixed2 cp).
  { apply (calculateAttendance_fields a t p Hg). }
  split; [assumption|]. split.
  - intros F. rewrite Ec. apply Number_toFixed2_correct. exact F.
  - unfold st, calculateAttendance, calculateAttendance_with. cbn [ToNumber].
    rewrite Hg. cbn zeta. fold cp. split; intros G; rewrite G; cbn; split; reflexivity.
Qed.

Lemma percent_rounded_for_display_only_witness :
  currentPercent (calculateAttendance (of_Z 2) (of_Z 3) (of_ratio false 6667 100)) =
    of_ratio false 6667 100 /\
  canBunk (calculateAttendance (of_Z 2) (of_Z 3) (of_ratio false 6667 100)) = zero.
Proof.
  destruct (percent_rounded_for_display_only (of_Z 2) (of_Z 3) (of_ratio false 6667 100) eq_refl)
    as (H1 & _ & _ & H4).
  split; [rewrite H1; reflexivity | apply H4; reflexivity].
Defined.

(** ** The create-subject route *)

Lemma ToBoolean_false_iff v : ToBoolean v = false <-> falsy v.
Proof.
  unfold falsy. split.
  - destruct v as [| |[]|[s|s| |s m e]|[|c s]]; cbn; intros H; try discriminate; eauto 7.
  - intros [->|[->|[->|[[s ->]|[->| ->]]]]]; reflexivity.
Qed.

Lemma eq_null_true_iff v : eq_null v = true <-> nullish v.
Proof.
  unfold nullish. split.
  - destruct v; cbn; intros H; try discriminate; auto.
  - intros [->| ->]; reflexivity.
Qed.

Section RouteFacts.

Variable db : Type.
Variable document : Type.
Variable fields : document -> SubjectFields.
Variable Subject_create : SubjectFields -> db -> option document * db.

Lemma created_status doc st : status (fst (created db document fields Subject_create doc st)) <> 400.
Proof. unfold created. destruct (Subject_create doc st) as [[s|] st']; cbn; lia. Qed.

Lemma post_subjects_cases (body : SubjectFields) (st : db) :
  let missing :=
    falsy (subjectName body) \/ nullish (total body) \/ nullish (attended body) in
  (missing /\
   post_subjects db document fields Subject_create body st =
     ({| status := 400; json := ErrorJson "Missing required fields" |}, st)) \/
  (~ missing /\
   post_subjects db document fields Subject_create body st =
     created db document fields Subject_create {| subjectName := subjectName body;
                total := total body;
                attended := attended body;
                requiredPercent := or (requiredPercent body) (of_Z 75) |} st).
Proof.
  intros missing. unfold post_subjects, created.
  destruct (ToBoolean (subjectName body)) eqn:E1; cbn [negb orb].
  - destruct (eq_null (total body)) eqn:E2; cbn [orb].
    + left. split; [|reflexivity]. right; left. now apply eq_null_true_iff.
    + destruct (eq_null (attended body)) eqn:E3.
      * left. split; [|reflexivity]. right; right. now apply eq_null_true_iff.
      * right. split; [|reflexivity].
        intros [H|[H|H]].
        -- apply ToBoolean_false_iff in H. congruence.
        -- apply eq_null_true_iff in H. congruence.
        -- apply eq_null_true_iff in H. congruence.
  - left. split; [|reflexivity]. left. now apply ToBoolean_false_iff.
Qed.

End RouteFacts.

(** C9 (amended).  When the body passes the required-fields check, the
    object handed to [Subject.create] carries the body's [subjectName],
    [total] and [attended], and a [requiredPercent] that is 75 when the
    body's is falsy and the body's own otherwise; that value is never falsy,
    so it is never the number 0. *)
Theorem post_subjects_default_percent
    (db document : Type) (fields : document -> SubjectFields)
    (Subject_create : SubjectFields -> db -> option document * db)
    (body : SubjectFields) (st : db) :
  ToBoolean (subjectName body) = true ->
  eq_null (total body) = false -> eq_null (attended body) = false ->
  exists doc,
    post_subjects db document fields Subject_create body st =
      created db document fields Subject_create doc st /\
    subjectName doc = subjectName body /\ total doc = total body /\
    attended doc = attended body /\
    (falsy (requiredPercent body) -> requiredPercent doc = Num (of_Z 75)) /\
    (~ falsy (requiredPercent body) -> requiredPercent doc = requiredPercent body) /\
    ~ falsy (requiredPercent doc) /\
    (forall s, requiredPercent doc <> Num (S754_zero s)).
Proof.
  intros H1 H2 H3.
  destruct (post_subjects_cases db document fields Subject_create body st)
    as [[[H|[H|H]] _]|[_ E]].
  - apply ToBoolean_false_iff in H. congruence.
  - apply eq_null_true_iff in H. congruence.
  - apply eq_null_true_iff in H. congruence.
  - eexists. split; [exact E|]. cbn [subjectName total attended requiredPercent].
    split; [reflexivity|]. split; [reflexivity|]. split; [reflexivity|].
    unfold or. destruct (ToBoolean (requiredPercent body)) eqn:B.
    + assert (N : ~ falsy (requiredPercent body)).
      { intros F. apply ToBoolean_false_iff in F. congruence. }
      split; [intros F; contradiction|]. split; [reflexivity|]. split; [assumption|].
      intros s Hs. apply N. right; right; right; left. eauto.
    + split; [reflexivity|]. split.
      * intros N. exfalso. apply N. now apply ToBoolean_false_iff.
      * split.
        -- intros F. apply ToBoolean_false_iff in F. discriminate.
        -- intros s Hs. discriminate.
Qed.

Lemma post_subjects_default_percent_witness :
  exists doc,
    post_subjects (list SubjectFields) SubjectFields (fun d => d) keep_all
      {| subjectName := Str "Maths"; total := of_Z 10; attended := of_Z 5;
         requiredPercent := of_Z 0 |} [] =
      created (list SubjectFields) SubjectFields (fun d => d) keep_all doc [] /\
    requiredPercent doc = Num (of_Z 75).
Proof.
  destruct (post_subjects_default_percent (list SubjectFields) SubjectFields
              (fun d => d) keep_all
              {| subjectName := Str "Maths"; total := of_Z 10; attended := of_Z 5;
                 requiredPercent := of_Z 0 |} [] eq_refl eq_refl eq_refl)
    as (doc & E & _ & _ & _ & H & _).
  exists doc. split; [exact E|]. apply H.
  right; right; right; left. exists false. reflexivity.
Defined.

(** A body whose [requiredPercent] is the text "0" passes the check; the
    text is truthy, so it is handed to [Subject.create] as it is, the
    schema's Number type reads it as 0, and the statistics of the subject
    are computed with a target of 0. *)
Lemma zero_percent_through_text :
  post_subjects (list SubjectFields) SubjectFields (fun d => d) keep_all
    {| subjectName := Str "Maths"; total := of_Z 10; attended := of_Z 5;
       requiredPercent := Str "0" |} [] =
  created (list SubjectFields) SubjectFields (fun d => d) keep_all
    {| subjectName := Str "Maths"; total := of_Z 10; attended := of_Z 5;
       requiredPercent := Str "0" |} [] /\
  status (fst (created (list SubjectFields) SubjectFields (fun d => d) keep_all
    {| subjectName := Str "Maths"; total := of_Z 10; attended := of_Z 5;
       requiredPercent := Str "0" |} [])) = 201 /\
  ToNumber (Str "0") = zero /\
  canBunk (calculateAttendance (of_Z 5) (of_Z 10) (Str "0")) = Infinity.
Proof. repeat split; reflexivity. Qed.

(** C10.  The route answers 400 with the error "Missing required fields",
    and leaves the collection as it was without calling [Subject.create],
    exactly when [subjectName] is falsy or [total] or [attended] is null or
    undefined; otherwise it hands the fields to [Subject.create] and answers
    201 or 500.  A [total] or [attended] that is a number, 0 included, is
    not missing. *)
Theorem post_subjects_required_fields
    (db document : Type) (fields : document -> SubjectFields)
    (Subject_create : SubjectFields -> db -> option document * db)
    (body : SubjectFields) (st : db) :
  let missing :=
    falsy (subjectName body) \/ nullish (total body) \/ nullish (attended body) in
  let out := post_subjects db document fields Subject_create body st in
  (status (fst out) = 400 <-> missing) /\
  (missing ->
   out = ({| status := 400; json := ErrorJson "Missing required fields" |}, st)) /\
  (~ missing ->
   out = created db document fields Subject_create
           {| subjectName := subjectName body;
              total := total body;
              attended := attended body;
              requiredPercent := or (requiredPercent body) (of_Z 75) |} st) /\
  (forall x y : number,
   ~ falsy (subjectName body) -> total body = Num x -> attended body = Num y ->
   ~ missing).
Proof.
  intros missing out.
  destruct (post_subjects_cases db document fields Subject_create body st)
    as [[M E]|[M E]]; fold missing in M; fold out in E.
  - split; [|split; [|split]].
    + split; [intros _; exact M | intros _; rewrite E; reflexivity].
    + intros _. exact E.
    + intros N. contradiction.
    + intros x y Hn Ex Ey. unfold missing. rewrite Ex, Ey.
      intros [H|[[H|H]|[H|H]]]; try discriminate. contradiction.
  - split; [|split; [|split]].
    + split; [|intros M'; contradiction].
      intros H. exfalso. rewrite E in H. revert H. apply created_status.
    + intros M'. contradiction.
    + intros _. exact E.
    + intros _ _ _ _ _. exact M.
Qed.

(* ================================================================== *)
(** * More of the runtime: addition, Math.max, Math.min and NaN *)

Section Addition.
Local Open Scope R_scope.

Theorem add_finite_correct sx mx ex sy my ey :
  Rounded (R_of (S754_finite sx mx ex) + R_of (S754_finite sy my ey))
          (add (S754_finite sx mx ex) (S754_finite sy my ey)).
Proof.
  unfold add. cbn [SFadd].
  pose proof (shl_align_spec mx ex (Z.min ex ey)) as Hx.
  pose proof (shl_align_spec my ey (Z.min ex ey)) as Hy.
  destruct (shl_align mx ex (Z.min ex ey)) as [mx' ex'].
  destruct (shl_align my ey (Z.min ex ey)) as [my' ey'].
  cbn [fst]. destruct Hx as [Hex Hmx], Hy as [Hey Hmy].
  set (ez := Z.min ex ey) in *.
  assert (Eex : ex' = ez) by lia. assert (Eey : ey' = ez) by lia. subst ex' ey'.
  match goal with |- Rounded ?X (binary_normalize _ _ ?M _ _) =>
    replace X with (F2R M ez); [apply binary_normalize_correct|] end.
  rewrite !R_of_finite. unfold F2R. rewrite plus_IZR.
  assert (Ex : IZR (Zpos mx') * bpow ez = IZR (Zpos mx) * bpow ex).
  { rewrite Hmx.
    rewrite mult_IZR, <- bpow_IZR, Rmult_assoc, <- bpow_plus by lia. do 2 f_equal. lia. }
  assert (Ey : IZR (Zpos my') * bpow ez = IZR (Zpos my) * bpow ey).
  { rewrite Hmy.
    rewrite mult_IZR, <- bpow_IZR, Rmult_assoc, <- bpow_plus by lia. do 2 f_equal. lia. }
  destruct sx, sy; cbn [cond_Zopp sgn]; rewrite ?opp_IZR; lra.
Qed.

Theorem add_correct x y :
  valid x -> valid y -> is_finite x = true -> is_finite y = true ->
  Rounded (R_of x + R_of y) (add x y).
Proof.
  destruct x as [sx| | |sx mx ex], y as [sy| | |sy my ey]; try discriminate;
    intros Vx Vy _ _.
  - cbn [R_of]. rewrite Rplus_0_r.
    destruct sx, sy; cbn [add SFadd]; apply Rounded_zero.
  - cbn [add SFadd]. change (R_of (S754_zero sx)) with 0. rewrite Rplus_0_l.
    now apply Rounded_self.
  - cbn [add SFadd]. change (R_of (S754_zero sy)) with 0. rewrite Rplus_0_r.
    now apply Rounded_self.
  - apply add_finite_correct.
Qed.

(** ** [Math.max] and [Math.min] *)

Lemma Math_max_correct x y :
  valid x -> valid y -> is_nan x = false -> is_nan y = false ->
  valid (Math_max x y) /\ is_nan (Math_max x y) = false /\
  R_of (Math_max x y) = Rmax (R_of x) (R_of y) /\
  (Math_max x y = x \/ Math_max x y = y \/
   exists s, Math_max x y = S754_zero s).
Proof.
  intros Vx Vy Nx Ny.
  assert (G : valid (if lt x y then y else x) /\
              is_nan (if lt x y then y else x) = false /\
              R_of (if lt x y then y else x) = Rmax (R_of x) (R_of y) /\
              ((if lt x y then y else x) = x \/ (if lt x y then y else x) = y \/
               exists s, (if lt x y then y else x) = S754_zero s)).
  { destruct (lt x y) eqn:L.
    - apply lt_R_of in L; try assumption.
      rewrite Rmax_right by lra. repeat split; auto.
    - assert (~ R_of x < R_of y).
      { intros H. apply (lt_R_of x y Vx Vy Nx Ny) in H. congruence. }
      rewrite Rmax_left by lra. repeat split; auto. }
  destruct x as [sx|sx| |sx mx ex], y as [sy|sy| |sy my ey];
    try discriminate; try exact G.
  cbn [Math_max R_of]. rewrite Rmax_left by lra. repeat split; eauto.
Qed.

Lemma Math_min_correct x y :
  valid x -> valid y -> is_nan x = false -> is_nan y = false ->
  valid (Math_min x y) /\ is_nan (Math_min x y) = false /\
  R_of (Math_min x y) = Rmin (R_of x) (R_of y) /\
  (Math_min x y = x \/ Math_min x y = y \/
   exists s, Math_min x y = S754_zero s).
Proof.
  intros Vx Vy Nx Ny.
  assert (G : valid (if lt y x then y else x) /\
              is_nan (if lt y x then y else x) = false /\
              R_of (if lt y x then y else x) = Rmin (R_of x) (R_of y) /\
              ((if lt y x then y else x) = x \/ (if lt y x then y else x) = y \/
               exists s, (if lt y x then y else x) = S754_zero s)).
  { destruct (lt y x) eqn:L.
    - apply lt_R_of in L; try assumption.
      rewrite Rmin_right by lra. repeat split; auto.
    - assert (~ R_of y < R_of x).
      { intros H. apply (lt_R_of y x Vy Vx Ny Nx) in H. congruence. }
      rewrite Rmin_left by lra. repeat split; auto. }
  destruct x as [sx|sx| |sx mx ex], y as [sy|sy| |sy my ey];
    try discriminate; try exact G.
  cbn [Math_min R_of]. rewrite Rmin_left by lra. repeat split; eauto.
Qed.

End Addition.

(** ** [NaN] through the operators *)

Lemma mul_nan_l x : mul NaN x = NaN.
Proof. reflexivity. Qed.

Lemma mul_nan_r x : mul x NaN = NaN.
Proof. destruct x; reflexivity. Qed.

Lemma div_nan_l x : div NaN x = NaN.
Proof. reflexivity. Qed.

Lemma div_nan_r x : div x NaN = NaN.
Proof. destruct x; reflexivity. Qed.

Lemma sub_nan_l x : sub NaN x = NaN.
Proof. reflexivity. Qed.

Lemma sub_nan_r x : sub x NaN = NaN.
Proof. destruct x; reflexivity. Qed.

Lemma ge_nan_l x : ge NaN x = false.
Proof. destruct x; reflexivity. Qed.

Lemma ge_nan_r x : ge x NaN = false.
Proof. destruct x; reflexivity. Qed.

Lemma is_nan_eq x : is_nan x = true -> x = NaN.
Proof. destruct x; try discriminate. reflexivity. Qed.

(* ================================================================== *)
(** * Further properties of the calculator *)

Lemma calculateAttendance_message (a t p : number) :
  le t zero = false ->
  message (calculateAttendance a t p) =
    if ge (mul (div a t) (of_Z 100)) p
    then safe_message (canBunk (calculateAttendance a t p))
    else need_message (needToAttend (calculateAttendance a t p)) p.
Proof.
  intros Hg. unfold calculateAttendance, calculateAttendance_with. cbn [ToNumber].
  rewrite Hg. cbn zeta. destruct (ge _ p); reflexivity.
Qed.

(** X1.  An argument that is not a number, such as a missing or non-numeric
    one, raises nothing: when [Number(total) <= 0] does not hold, both counts
    are 0 and the message is the one of the unsafe branch; the percentage is
    [NaN] when it is [attended] or [total] that is not a number. *)
Theorem not_a_number_outcome (a t p : value) :
  is_nan (ToNumber a) = true \/ is_nan (ToNumber t) = true \/
  is_nan (ToNumber p) = true ->
  le (ToNumber t) zero = false ->
  let st := calculateAttendance a t p in
  canBunk st = zero /\ needToAttend st = zero /\
  message st = need_message zero (ToNumber p) /\
  (is_nan (ToNumber a) = true \/ is_nan (ToNumber t) = true ->
   currentPercent st = NaN).
Proof.
  intros H Hg st. unfold st. rewrite calculateAttendance_ToNumber.
  set (a' := ToNumber a) in *. set (t' := ToNumber t) in *. set (p' := ToNumber p) in *.
  destruct (calculateAttendance_fields a' t' p' Hg) as (Ec & Eb & En).
  pose proof (calculateAttendance_message a' t' p' Hg) as Em.
  cbn zeta in Eb, En.
  assert (G : ge (mul (div a' t') (of_Z 100)) p' = false /\
              clamp (Math_ceil (div (sub (mul (div p' (of_Z 100)) t') a')
                                    (sub (of_Z 1) (div p' (of_Z 100))))) = zero).
  { destruct H as [H|[H|H]]; apply is_nan_eq in H; rewrite H.
    - split; [apply ge_nan_l|]. now rewrite sub_nan_r.
    - rewrite div_nan_r. split; [apply ge_nan_l|]. now rewrite mul_nan_r.
    - split; [apply ge_nan_r|]. reflexivity. }
  destruct G as [G1 G2]. rewrite G1 in Eb, En, Em. rewrite G2 in En.
  split; [assumption|]. split; [assumption|]. split.
  - rewrite Em, En. reflexivity.
  - intros [N|N]; apply is_nan_eq in N; rewrite Ec, N; [reflexivity|].
    now rewrite div_nan_r.
Qed.

Lemma not_a_number_outcome_witness :
  canBunk (calculateAttendance (of_Z 3) Undefined (of_Z 75)) = zero /\
  needToAttend (calculateAttendance (of_Z 3) Undefined (of_Z 75)) = zero /\
  message (calculateAttendance (of_Z 3) Undefined (of_Z 75)) =
    need_message zero (of_Z 75).
Proof.
  destruct (not_a_number_outcome (of_Z 3) Undefined (of_Z 75)
              (or_intror (or_introl eq_refl)) eq_refl) as (H1 & H2 & H3 & _).
  repeat split; assumption.
Defined.

Section Targets.
Local Open Scope R_scope.

Lemma percent_nonneg a t :
  valid a -> valid t -> is_finite a = true -> is_finite t = true ->
  0 <= R_of a -> 0 < R_of t ->
  le zero (mul (div a t) (of_Z 100)) = true.
Proof.
  intros Va Vt Fa Ft Ha Ht.
  assert (Hq : Rounded (R_of a / R_of t) (div a t)) by (apply div_correct; try assumption; lra).
  assert (H0 : 0 <= R_of a / R_of t).
  { apply Rmult_le_pos; [assumption | apply Rlt_le, Rinv_0_lt_compat; assumption]. }
  pose proof (Rounded_valid _ _ Hq) as Vq. pose proof (Rounded_not_nan _ _ Hq) as Nq.
  pose proof (Rounded_le _ _ _ _ (Rounded_zero false) Hq H0) as Bq.
  change (R_of (S754_zero false)) with 0 in Bq.
  destruct (is_finite (div a t)) eqn:Fq.
  - pose proof (mul_correct _ _ Vq (of_Z_valid 100) Fq eq_refl) as Hm.
    rewrite R_of_100 in Hm.
    apply (Rounded_le_bool 0 _ zero _ (Rounded_zero false) Hm). lra.
  - destruct (div a t) as [s|s| |s m e]; try discriminate.
    destruct s; [|reflexivity]. cbn [R_of] in Bq. pose proof (bpow_gt_0 emax). lra.
Qed.

(** X2.  A target of 0 divides by zero as well: [r] is 0, the safe branch is
    taken, and [canBunk] is [Infinity] as soon as one class was attended. *)
Theorem zero_target_outcome (a t : number) :
  valid a -> valid t -> is_finite a = true -> is_finite t = true ->
  le zero a = true -> lt zero t = true ->
  let st := calculateAttendance a t zero in
  div zero (of_Z 100) = zero /\
  needToAttend st = zero /\
  (lt zero a = true -> canBunk st = Infinity) /\
  (lt zero a = false -> canBunk st = zero).
Proof.
  intros Va Vt Fa Ft H0 Ht st.
  pose proof (valid_not_nan_of_finite a Fa) as Na.
  pose proof (valid_not_nan_of_finite t Ft) as Nt.
  apply (le_R_of zero a zero_valid Va eq_refl Na) in H0.
  apply (lt_R_of zero t zero_valid Vt eq_refl Nt) in Ht.
  change (R_of zero) with 0 in *.
  assert (Hg : le t zero = false).
  { destruct (le t zero) eqn:E; [exfalso|reflexivity].
    apply (le_R_of t zero Vt zero_valid Nt eq_refl) in E.
    change (R_of zero) with 0 in E. lra. }
  destruct (calculateAttendance_fields a t zero Hg) as (_ & Eb & En).
  fold st in Eb, En. cbn zeta in Eb, En.
  assert (G : ge (mul (div a t) (of_Z 100)) zero = true)
    by (now apply percent_nonneg).
  rewrite G in Eb, En.
  split; [reflexivity|]. split; [assumption|].
  destruct (finite_pos_inv t Ft Ht) as (mt & et & ->).
  change (mul (div zero (of_Z 100)) (S754_finite false mt et)) with zero in Eb.
  change (div zero (of_Z 100)) with zero in Eb.
  split; intros La.
  - apply (lt_R_of zero a zero_valid Va eq_refl Na) in La. change (R_of zero) with 0 in La.
    destruct (finite_pos_inv a Fa La) as (ma & ea & ->).
    rewrite Eb. reflexivity.
  - assert (Ha0 : R_of a = 0).
    { destruct (Rle_lt_or_eq_dec _ _ H0) as [Hlt|]; [exfalso|lra].
      apply (lt_R_of zero a zero_valid Va eq_refl Na) in Hlt. congruence. }
    destruct (finite_zero_inv a Fa Ha0) as (s & ->).
    rewrite Eb. destruct s; reflexivity.
Qed.

Lemma zero_target_outcome_witness :
  canBunk (calculateAttendance (of_Z 5) (of_Z 10) zero) = Infinity.
Proof.
  destruct (zero_target_outcome (of_Z 5) (of_Z 10)
              eq_refl eq_refl eq_refl eq_refl eq_refl eq_refl) as (_ & _ & H & _).
  apply H. reflexivity.
Defined.

Lemma div_self t :
  valid t -> is_finite t = true -> 0 < R_of t -> div t t = of_Z 1.
Proof.
  intros Vt Ft Ht.
  assert (Hq : Rounded (R_of t / R_of t) (div t t)) by (apply div_correct; try assumption; lra).
  replace (R_of t / R_of t) with (R_of (of_Z 1)) in Hq by (rewrite R_of_1; field; lra).
  pose proof (Rounded_exact (of_Z 1) _ (of_Z_valid 1) eq_refl Hq) as E.
  apply R_of_inj.
  - eapply Rounded_valid; eassumption.
  - apply of_Z_valid.
  - apply finite_of_R_of_lt; [eapply Rounded_not_nan; eassumption|].
    rewrite E. apply valid_R_of_lt; [apply of_Z_valid | reflexivity].
  - reflexivity.
  - exact E.
  - rewrite E, R_of_1. lra.
Qed.

Lemma mul_one_l t :
  valid t -> is_finite t = true -> 0 < R_of t -> mul (of_Z 1) t = t.
Proof.
  intros Vt Ft Ht.
  pose proof (mul_correct (of_Z 1) t (of_Z_valid 1) Vt eq_refl Ft) as Hm.
  rewrite R_of_1, Rmult_1_l in Hm.
  pose proof (Rounded_exact t _ Vt Ft Hm) as E.
  apply R_of_inj; try assumption.
  - eapply Rounded_valid; eassumption.
  - apply finite_of_R_of_lt; [eapply Rounded_not_nan; eassumption|].
    rewrite E. now apply valid_R_of_lt.
  - lra.
Qed.

Lemma sub_self t :
  is_finite t = true -> 0 < R_of t -> sub t t = zero.
Proof.
  intros Ft Ht. destruct (finite_pos_inv t Ft Ht) as (mt & et & ->).
  unfold sub. cbn [SFsub].
  destruct (shl_align mt et (Z.min et et)) as [m' e'] eqn:E. cbn [fst].
  rewrite Z.sub_diag. reflexivity.
Qed.

(** X3.  At a target of 100 the subject is safe exactly when every class was
    attended; then the percentage is 100 and both counts are 0. *)
Theorem full_target_safe_iff (a t : number) :
  valid a -> valid t -> is_finite t = true ->
  le zero a = true -> le a t = true -> lt zero t = true ->
  let st := calculateAttendance a t (of_Z 100) in
  (ge (mul (div a t) (of_Z 100)) (of_Z 100) = true <-> le t a = true) /\
  (le t a = true ->
   currentPercent st = of_Z 100 /\ canBunk st = zero /\ needToAttend st = zero).
Proof.
  intros Va Vt Ft H0 Hat Ht st.
  pose proof (valid_not_nan_of_finite t Ft) as Nt.
  assert (Na : is_nan a = false) by (eapply le_not_nan_l; eassumption).
  assert (Fa : is_finite a = true).
  { apply (finite_between a zero t); try assumption; reflexivity. }
  pose proof Ht as Ht'.
  apply (lt_R_of zero t zero_valid Vt eq_refl Nt) in Ht'. change (R_of zero) with 0 in Ht'.
  assert (Full : le t a = true -> a = t).
  { intros Hta. apply (le_R_of t a Vt Va Nt Na) in Hta.
    apply (le_R_of a t Va Vt Na Nt) in Hat.
    apply R_of_inj; try assumption; lra. }
  assert (Hg : le t zero = false).
  { destruct (le t zero) eqn:E; [exfalso|reflexivity].
    apply (le_R_of t zero Vt zero_valid Nt eq_refl) in E.
    change (R_of zero) with 0 in E. lra. }
  assert (At : ge (mul (div t t) (of_Z 100)) (of_Z 100) = true).
  { rewrite (div_self t Vt Ft Ht'). reflexivity. }
  split.
  - split.
    + intros G. destruct (le t a) eqn:Hta; [reflexivity|exfalso].
      assert (Hlt : lt a t = true).
      { apply (lt_R_of a t Va Vt Na Nt).
        apply (le_R_of a t Va Vt Na Nt) in Hat.
        destruct (Rle_lt_or_eq_dec _ _ Hat) as [|E]; [assumption|exfalso].
        assert (le t a = true) by (apply (le_R_of t a Vt Va Nt Na); lra).
        congruence. }
      rewrite (percent_below_100 a t Va Vt Ft H0 Hlt) in G. discriminate.
    + intros Hta. rewrite (Full Hta). exact At.
  - intros Hta. unfold st. rewrite (Full Hta).
    destruct (calculateAttendance_fields t t (of_Z 100) Hg) as (Ec & Eb & En).
    cbn zeta in Eb, En. rewrite At in Eb, En.
    rewrite Ec, Eb, En, (div_self t Vt Ft Ht').
    change (div (of_Z 100) (of_Z 100)) with (of_Z 1).
    rewrite (mul_one_l t Vt Ft Ht'), (sub_self t Ft Ht').
    repeat split; reflexivity.
Qed.

Lemma full_target_safe_iff_witness :
  currentPercent (calculateAttendance (of_Z 30) (of_Z 30) (of_Z 100)) = of_Z 100 /\
  canBunk (calculateAttendance (of_Z 30) (of_Z 30) (of_Z 100)) = zero /\
  needToAttend (calculateAttendance (of_Z 30) (of_Z 30) (of_Z 100)) = zero.
Proof.
  destruct (full_target_safe_iff (of_Z 30) (of_Z 30)
              eq_refl eq_refl eq_refl eq_refl eq_refl eq_refl) as (_ & H).
  apply H. reflexivity.
Defined.

End Targets.

Section Display.
Local Open Scope R_scope.

(** Rounding for display keeps the order of percentages. *)
Lemma Number_toFixed2_le x y :
  is_finite x = true -> is_finite y = true -> 0 <= R_of x <= R_of y ->
  le (Number_toFixed2 x) (Number_toFixed2 y) = true.
Proof.
  intros Fx Fy [H0 Hxy].
  destruct (Number_toFixed2_correct x Fx) as (n & En & Hn).
  destruct (Number_toFixed2_correct y Fy) as (k & Ek & Hk).
  destruct (Rlt_dec (R_of x) 0) as [|_]; [lra|].
  destruct (Rlt_dec (R_of y) 0) as [|_]; [lra|].
  rewrite Rabs_pos_eq in En, Ek by lra.
  apply (Rounded_le_bool _ _ _ _ Hn Hk).
  assert (n <= k)%Z by (subst n k; apply Zfloor_le; lra).
  apply IZR_le in H. lra.
Qed.

(** X4.  The displayed percentage never goes down when the attended count goes
    up, the total (positive, finite) staying the same. *)
Theorem currentPercent_monotone (a1 a2 t p : number) :
  valid a1 -> valid a2 -> valid t -> is_finite t = true ->
  lt zero t = true ->
  le zero a1 = true -> le a1 a2 = true -> le a2 t = true ->
  le (currentPercent (calculateAttendance a1 t p))
     (currentPercent (calculateAttendance a2 t p)) = true.
Proof.
  intros V1 V2 Vt Ft Ht H0 H12 H2t.
  pose proof (valid_not_nan_of_finite t Ft) as Nt.
  assert (N1 : is_nan a1 = false) by (eapply le_not_nan_r; eassumption).
  assert (N2 : is_nan a2 = false) by (eapply le_not_nan_r; eassumption).
  apply (lt_R_of zero t zero_valid Vt eq_refl Nt) in Ht.
  apply (le_R_of zero a1 zero_valid V1 eq_refl N1) in H0.
  apply (le_R_of a1 a2 V1 V2 N1 N2) in H12.
  apply (le_R_of a2 t V2 Vt N2 Nt) in H2t.
  change (R_of zero) with 0 in *.
  assert (F2 : is_finite a2 = true).
  { apply finite_of_R_of_lt; [assumption|].
    pose proof (valid_R_of_lt t Vt Ft) as B. apply Rabs_def2 in B. apply Rabs_def1; lra. }
  assert (F1 : is_finite a1 = true).
  { apply finite_of_R_of_lt; [assumption|].
    pose proof (valid_R_of_lt t Vt Ft) as B. apply Rabs_def2 in B. apply Rabs_def1; lra. }
  assert (R1 : in_range t a1) by (repeat split; try assumption; lra).
  assert (R2 : in_range t a2) by (repeat split; try assumption; lra).
  assert (Hg : le t zero = false).
  { destruct (le t zero) eqn:E; [exfalso|reflexivity].
    apply (le_R_of t zero Vt zero_valid Nt eq_refl) in E.
    change (R_of zero) with 0 in E. lra. }
  destruct (calculateAttendance_fields a1 t p Hg) as (-> & _).
  destruct (calculateAttendance_fields a2 t p Hg) as (-> & _).
  destruct (cp_facts t Ft Ht a1 R1) as (Vc1 & Fc1 & q1 & Hq1 & Fq1 & Vq1 & Hc1).
  destruct (cp_facts t Ft Ht a2 R2) as (Vc2 & Fc2 & _).
  pose proof (cp_le t Ft Ht a1 a2 R1 R2 H12) as Hle.
  unfold cp in *.
  apply Number_toFixed2_le; try assumption. split; [|assumption].
  assert (B : 0 <= R_of q1).
  { apply (Rounded_le _ _ _ _ (Rounded_zero false) Hq1).
    apply Rmult_le_pos; [lra | apply Rlt_le, Rinv_0_lt_compat; assumption]. }
  apply (Rounded_le _ _ _ _ (Rounded_zero false) Hc1). lra.
Qed.

Lemma currentPercent_monotone_witness :
  le (currentPercent (calculateAttendance (of_Z 1) (of_Z 3) (of_Z 75)))
     (currentPercent (calculateAttendance (of_Z 2) (of_Z 3) (of_Z 75))) = true.
Proof.
  apply (currentPercent_monotone (of_Z 1) (of_Z 2) (of_Z 3) (of_Z 75)); reflexivity.
Defined.

(** X5.  For whole counts up to [10^9] the displayed percentage is within half
    a hundredth, and a rounding error below [10^-13], of the exact
    percentage [100 * attended / total]. *)
Theorem currentPercent_accuracy (a t : Z) (p : number) :
  (0 <= a <= t)%Z -> (0 < t <= 1000000000)%Z ->
  Rabs (R_of (currentPercent (calculateAttendance (of_Z a) (of_Z t) p))
        - 100 * IZR a / IZR t)
    <= 5 / 1000 + / 10000000000000.
Proof.
  intros Ha Ht.
  assert (Hp : (1 <= 1 <= 100)%Z) by lia.
  destruct (calculateAttendance_fields (of_Z a) (of_Z t) p (guard_false a t 1 Ha Ht Hp))
    as (-> & _).
  destruct (percent_props a t 1 Ha Ht Hp) as (Vc & Fc & Ec). unfold percent in *.
  set (c := mul (div (of_Z a) (of_Z t)) (of_Z 100)) in *.
  set (ex := 100 * IZR a / IZR t) in *.
  assert (Bex : 0 <= ex <= 100).
  { unfold ex. assert (0 < IZR t) by (apply IZR_lt; lia).
    assert (0 <= IZR a) by (apply IZR_le; lia).
    assert (IZR a <= IZR t) by (apply IZR_le; lia).
    split.
    - apply Rmult_le_pos; [lra | apply Rlt_le, Rinv_0_lt_compat; lra].
    - apply Rmult_le_reg_r with (IZR t); [lra|]. unfold Rdiv.
      rewrite Rmult_assoc, Rinv_l by lra. lra. }
  assert (Bc : 0 <= R_of c <= 100).
  { destruct (of_Z_facts a ltac:(lia)) as (Va & Fa & Ea).
    destruct (of_Z_facts t ltac:(lia)) as (Vt & Ft & Et).
    assert (Htp : 0 < R_of (of_Z t)) by (rewrite Et; apply IZR_lt; lia).
    assert (R : in_range (of_Z t) (of_Z a)).
    { repeat split; try assumption; rewrite Ea, ?Et; apply IZR_le; lia. }
    destruct (cp_facts (of_Z t) Ft Htp (of_Z a) R) as (_ & _ & q & Hq & Fq & Vq & Hc).
    fold c in Hc.
    assert (Bq : R_of zero <= R_of (of_Z a) / R_of (of_Z t) <= R_of (of_Z 1)).
    { rewrite R_of_1, Ea, Et. change (R_of zero) with 0. unfold ex in Bex.
      assert (0 < IZR t) by (apply IZR_lt; lia).
      assert (0 <= IZR a) by (apply IZR_le; lia).
      assert (IZR a <= IZR t) by (apply IZR_le; lia).
      split.
      - apply Rmult_le_pos; [lra | apply Rlt_le, Rinv_0_lt_compat; lra].
      - apply Rmult_le_reg_r with (IZR t); [lra|]. unfold Rdiv.
        rewrite Rmult_assoc, Rinv_l by lra. lra. }
    pose proof (Rounded_bounds _ _ zero (of_Z 1) Hq zero_valid (of_Z_valid 1) eq_refl eq_refl Bq) as Bq'.
    rewrite R_of_1 in Bq'. change (R_of zero) with 0 in Bq'.
    pose proof (Rounded_bounds _ _ zero (of_Z 100) Hc zero_valid (of_Z_valid 100) eq_refl eq_refl) as B.
    rewrite R_of_100 in B. change (R_of zero) with 0 in B. apply B. lra. }
  destruct (Number_toFixed2_correct c Fc) as (n & En & Hn).
  destruct (Rlt_dec (R_of c) 0) as [|_]; [lra|].
  rewrite Rabs_pos_eq in En by lra.
  pose proof (Zfloor_bound (100 * R_of c + / 2)) as Bn. rewrite <- En in Bn.
  assert (Hn0 : 0 <= IZR n).
  { apply IZR_le. rewrite En. apply Zfloor_lub. lra. }
  assert (Bn' : 0 <= IZR n / 100 <= 101) by lra.
  assert (Hr : Rabs (IZR n / 100) <= bpow 1023).
  { rewrite Rabs_pos_eq by lra. pose proof bpow_1023_big. lra. }
  pose proof (Rounded_error _ _ Hn Hr) as Er.
  rewrite (Rabs_pos_eq (IZR n / 100)) in Er by lra.
  apply Rabs_le_inv in Er, Ec. apply Rabs_le. unfold roundoff, eta in *. lra.
Qed.

Lemma currentPercent_accuracy_witness :
  Rabs (R_of (currentPercent (calculateAttendance (of_Z 2) (of_Z 3) (of_Z 75)))
        - 100 * IZR 2 / IZR 3)
    <= 5 / 1000 + / 10000000000000.
Proof.
  apply (currentPercent_accuracy 2 3 (of_Z 75)); lia.
Defined.

End Display.

(** X6.  For whole counts up to [10^9] and a whole target between 1 and 100 the
    rounding of the arithmetic never flips the verdict: strictly above the
    target in exact arithmetic the message is the safe one, strictly below
    it the message asks for more classes. *)
Theorem message_by_position (a t p : Z) :
  0 <= a <= t -> 0 < t <= 1000000000 -> 1 <= p <= 100 ->
  let st := calculateAttendance (of_Z a) (of_Z t) (of_Z p) in
  (p * t < 100 * a -> message st = safe_message (canBunk st)) /\
  (100 * a < p * t -> message st = need_message (needToAttend st) (of_Z p)).
Proof.
  intros Ha Ht Hp st.
  pose proof (calculateAttendance_message (of_Z a) (of_Z t) (of_Z p)
                (guard_false a t p Ha Ht Hp)) as Em.
  fold st in Em.
  change (mul (div (of_Z a) (of_Z t)) (of_Z 100)) with (percent a t) in Em.
  split; intros H.
  - rewrite (safe_of_above a t p Ha Ht Hp H) in Em. exact Em.
  - rewrite (unsafe_of_below a t p Ha Ht Hp H) in Em. exact Em.
Qed.

Lemma message_by_position_witness :
  message (calculateAttendance (of_Z 60) (of_Z 100) (of_Z 75)) =
    need_message (needToAttend (calculateAttendance (of_Z 60) (of_Z 100) (of_Z 75)))
                 (of_Z 75).
Proof.
  destruct (message_by_position 60 100 75 ltac:(lia) ltac:(lia) ltac:(lia)) as (_ & H).
  apply H. lia.
Defined.

(* ================================================================== *)
(** * The counters of a card *)

Section Counters.
Local Open Scope R_scope.

Lemma le_refl_finite x : valid x -> is_nan x = false -> le x x = true.
Proof. intros V N. apply le_R_of; try assumption. lra. Qed.

(** X7.  Whatever button is pressed on a card whose counts satisfy
    [0 <= attended <= total], the counts sent to the server satisfy it
    again. *)
Theorem counters_stay_in_order (s : Subject) :
  valid (s_total s) -> valid (s_attended s) -> is_finite (s_total s) = true ->
  in_order (s_total s, s_attended s) ->
  in_order (btn_inc_total s) /\ in_order (btn_dec_total s) /\
  in_order (btn_inc_attended s) /\ in_order (btn_dec_attended s).
Proof.
  destruct s as [name rp t a]. unfold in_order. cbn [s_total s_attended fst snd].
  intros Vt Va Ft [H0 Hat].
  pose proof (valid_not_nan_of_finite t Ft) as Nt.
  assert (Na : is_nan a = false) by (eapply le_not_nan_l; eassumption).
  assert (Fa : is_finite a = true).
  { apply (finite_between a zero t); try assumption; reflexivity. }
  pose proof H0 as H0'. pose proof Hat as Hat'.
  apply (le_R_of zero a zero_valid Va eq_refl Na) in H0'.
  apply (le_R_of a t Va Vt Na Nt) in Hat'.
  change (R_of zero) with 0 in H0'.
  pose proof (add_correct t (of_Z 1) Vt (of_Z_valid 1) Ft eq_refl) as Ht1.
  pose proof (add_correct a (of_Z 1) Va (of_Z_valid 1) Fa eq_refl) as Ha1.
  pose proof (sub_correct t (of_Z 1) Vt (of_Z_valid 1) Ft eq_refl) as Htm.
  pose proof (sub_correct a (of_Z 1) Va (of_Z_valid 1) Fa eq_refl) as Ham.
  rewrite R_of_1 in Ht1, Ha1, Htm, Ham.
  split; [|split; [|split]].
  - unfold btn_inc_total. cbn [s_total s_attended fst snd]. split; [assumption|].
    apply (Rounded_le_bool _ _ _ _ (Rounded_self a Va Fa) Ht1). lra.
  - unfold btn_dec_total. cbn [s_total s_attended fst snd].
    destruct (Math_max_correct zero (sub t (of_Z 1)) zero_valid
                (Rounded_valid _ _ Htm) eq_refl (Rounded_not_nan _ _ Htm))
      as (Vm & Nm & Em & _).
    change (R_of zero) with 0 in Em.
    set (t' := Math_max zero (sub t (of_Z 1))) in *.
    assert (H0t : 0 <= R_of t') by (rewrite Em; apply Rmax_l).
    destruct (gt a t') eqn:G.
    + split; [|now apply le_refl_finite].
      apply (le_R_of zero t' zero_valid Vm eq_refl Nm). exact H0t.
    + split; [assumption|].
      apply (le_R_of a t' Va Vm Na Nm).
      destruct (Rle_or_lt (R_of a) (R_of t')) as [|Hlt]; [assumption|exfalso].
      apply (lt_R_of t' a Vm Va Nm Na) in Hlt. unfold gt in G.
      change (SFltb t' a) with (lt t' a) in G. congruence.
  - unfold btn_inc_attended. cbn [s_total s_attended fst snd].
    destruct (Math_min_correct t (add a (of_Z 1)) Vt
                (Rounded_valid _ _ Ha1) Nt (Rounded_not_nan _ _ Ha1))
      as (Vm & Nm & Em & _).
    pose proof (Rounded_le _ _ _ _ (Rounded_self a Va Fa) Ha1 ltac:(lra)) as B.
    split.
    + apply (le_R_of zero _ zero_valid Vm eq_refl Nm). rewrite Em.
      change (R_of zero) with 0. apply Rmin_glb; lra.
    + apply (le_R_of _ t Vm Vt Nm Nt). rewrite Em. apply Rmin_l.
  - unfold btn_dec_attended. cbn [s_total s_attended fst snd].
    destruct (Math_max_correct zero (sub a (of_Z 1)) zero_valid
                (Rounded_valid _ _ Ham) eq_refl (Rounded_not_nan _ _ Ham))
      as (Vm & Nm & Em & _).
    change (R_of zero) with 0 in Em.
    pose proof (Rounded_le _ _ _ _ Ham (Rounded_self a Va Fa) ltac:(lra)) as B.
    split.
    + apply (le_R_of zero _ zero_valid Vm eq_refl Nm). rewrite Em.
      change (R_of zero) with 0. apply Rmax_l.
    + apply (le_R_of _ t Vm Vt Nm Nt). rewrite Em. apply Rmax_lub; lra.
Qed.

Lemma counters_stay_in_order_witness :
  in_order (btn_dec_total
              {| s_subjectName := Str "Maths"; s_requiredPercent := of_Z 75;
                 s_total := of_Z 10; s_attended := of_Z 10 |}).
Proof.
  apply (counters_stay_in_order
           {| s_subjectName := Str "Maths"; s_requiredPercent := of_Z 75;
              s_total := of_Z 10; s_attended := of_Z 10 |}
           eq_refl eq_refl eq_refl (conj eq_refl eq_refl)).
Defined.

(** ** Whole counts *)

Lemma of_Z_eq x n :
  valid x -> is_finite x = true -> R_of x = IZR n -> (0 < n < 2 ^ 53)%Z ->
  x = of_Z n.
Proof.
  intros V F E Hn. assert (Z.abs n < 2 ^ 53)%Z by lia.
  apply R_of_inj; try assumption.
  - apply of_Z_valid.
  - now apply of_Z_finite.
  - now rewrite R_of_of_Z.
  - rewrite E. apply IZR_lt. lia.
Qed.

Lemma of_Z_positive n :
  (0 < n < 2 ^ 53)%Z -> exists m e, of_Z n = S754_finite false m e.
Proof.
  intros Hn. assert (Z.abs n < 2 ^ 53)%Z by lia.
  apply finite_pos_inv; [now apply of_Z_finite|].
  rewrite R_of_of_Z by assumption. apply IZR_lt. lia.
Qed.

Lemma add_of_Z a b :
  (0 <= a)%Z -> (0 < b)%Z -> (a + b < 2 ^ 53)%Z ->
  add (of_Z a) (of_Z b) = of_Z (a + b).
Proof.
  intros Ha Hb Hab.
  assert (Aa : (Z.abs a < 2 ^ 53)%Z) by lia. assert (Ab : (Z.abs b < 2 ^ 53)%Z) by lia.
  pose proof (add_correct (of_Z a) (of_Z b) (of_Z_valid a) (of_Z_valid b)
                (of_Z_finite a Aa) (of_Z_finite b Ab)) as H.
  rewrite !R_of_of_Z, <- plus_IZR in H by assumption.
  destruct (Rounded_int _ _ H ltac:(lia)) as [E F].
  apply of_Z_eq; try assumption; [eapply Rounded_valid; eassumption | lia].
Qed.

Lemma sub_of_Z a b :
  (0 < b < a)%Z -> (a < 2 ^ 53)%Z -> sub (of_Z a) (of_Z b) = of_Z (a - b).
Proof.
  intros Hb Ha.
  assert (Aa : (Z.abs a < 2 ^ 53)%Z) by lia. assert (Ab : (Z.abs b < 2 ^ 53)%Z) by lia.
  pose proof (sub_correct (of_Z a) (of_Z b) (of_Z_valid a) (of_Z_valid b)
                (of_Z_finite a Aa) (of_Z_finite b Ab)) as H.
  rewrite !R_of_of_Z, <- minus_IZR in H by assumption.
  destruct (Rounded_int _ _ H ltac:(lia)) as [E F].
  apply of_Z_eq; try assumption; [eapply Rounded_valid; eassumption | lia].
Qed.

Lemma lt_of_Z a b :
  (Z.abs a < 2 ^ 53)%Z -> (Z.abs b < 2 ^ 53)%Z ->
  lt (of_Z a) (of_Z b) = (a <? b)%Z.
Proof.
  intros Ha Hb.
  pose proof (lt_R_of (of_Z a) (of_Z b) (of_Z_valid a) (of_Z_valid b)
                (valid_not_nan_of_finite _ (of_Z_finite a Ha))
                (valid_not_nan_of_finite _ (of_Z_finite b Hb))) as H.
  rewrite !R_of_of_Z in H by assumption.
  destruct (Z.ltb_spec a b) as [L|L].
  - apply H. now apply IZR_lt.
  - destruct (lt (of_Z a) (of_Z b)); [|reflexivity].
    assert (IZR a < IZR b) by now apply H. apply lt_IZR in H0. lia.
Qed.

(** The count one below a whole count, never below zero. *)
Lemma max_zero_pred n :
  (0 <= n < 2 ^ 53)%Z ->
  Math_max zero (sub (of_Z n) (of_Z 1)) = of_Z (Z.max 0 (n - 1)).
Proof.
  intros Hn.
  destruct (Z.eq_dec n 0) as [->|N0]; [reflexivity|].
  destruct (Z.eq_dec n 1) as [->|N1]; [reflexivity|].
  rewrite sub_of_Z by lia. rewrite Z.max_r by lia.
  destruct (of_Z_positive (n - 1) ltac:(lia)) as (m & e & E). rewrite E.
  reflexivity.
Qed.

Lemma min_succ t a :
  (0 <= a <= t)%Z -> (t < 2 ^ 53 - 1)%Z ->
  Math_min (of_Z t) (add (of_Z a) (of_Z 1)) = of_Z (Z.min t (a + 1)).
Proof.
  intros Ha Ht. rewrite add_of_Z by lia.
  assert (E : Math_min (of_Z t) (of_Z (a + 1)) =
              if lt (of_Z (a + 1)) (of_Z t) then of_Z (a + 1) else of_Z t).
  { destruct (of_Z_positive (a + 1) ltac:(lia)) as (m & e & ->).
    pose proof (valid_not_nan_of_finite _ (of_Z_finite t ltac:(lia))) as N.
    destruct (of_Z t); try discriminate; reflexivity. }
  rewrite E, lt_of_Z by lia.
  destruct (Z.ltb_spec (a + 1) t); f_equal; lia.
Qed.

(** X8.  On whole counts [0 <= attended <= total] the buttons compute exactly:
    [+] on the total adds one class; [-] on the total removes one, not
    below zero, and lowers the attended count to the new total when it
    exceeds it; [+] on the attended count adds one, not above the total;
    [-] removes one, not below zero. *)
Theorem counters_on_whole_counts (name target : value) (t a : Z) :
  (0 <= a <= t)%Z -> (t < 2 ^ 53 - 1)%Z ->
  let s := {| s_subjectName := name; s_requiredPercent := target;
              s_total := of_Z t; s_attended := of_Z a |} in
  btn_inc_total s = (of_Z (t + 1), of_Z a) /\
  btn_dec_total s = (of_Z (Z.max 0 (t - 1)), of_Z (Z.min a (Z.max 0 (t - 1)))) /\
  btn_inc_attended s = (of_Z t, of_Z (Z.min t (a + 1))) /\
  btn_dec_attended s = (of_Z t, of_Z (Z.max 0 (a - 1))).
Proof.
  intros Ha Ht s.
  unfold btn_inc_total, btn_dec_total, btn_inc_attended, btn_dec_attended.
  cbn [s s_total s_attended]. cbn zeta.
  rewrite add_of_Z by lia. rewrite !max_zero_pred by lia. rewrite min_succ by lia.
  repeat split. f_equal. unfold gt.
  change (SFltb ?x ?y) with (lt x y). rewrite lt_of_Z by lia.
  destruct (Z.ltb_spec (Z.max 0 (t - 1)) a); f_equal; lia.
Qed.

Lemma counters_on_whole_counts_witness :
  btn_dec_total {| s_subjectName := Str "Maths"; s_requiredPercent := of_Z 75;
                   s_total := of_Z 10; s_attended := of_Z 10 |} =
  (of_Z 9, of_Z 9).
Proof.
  destruct (counters_on_whole_counts (Str "Maths") (of_Z 75) 10 10
              ltac:(lia) ltac:(lia)) as (_ & H & _).
  exact H.
Defined.

End Counters.

(* ================================================================== *)
(** * The badge of a card *)

Section Badge.
Local Open Scope R_scope.

(** Multiples of [2^-7] with a numerator below [2^53] are rounded to
    themselves. *)
Lemma Rounded_128th n z :
  Rounded (IZR n / 128) z -> (Z.abs n < 2 ^ 53)%Z -> R_of z = IZR n / 128.
Proof.
  intros H Hn.
  assert (H7 : bpow (-7) = / 128) by (apply (bpow_neg_IZR 7); lia).
  assert (Habs : Rabs (IZR n / 128) < bpow 46).
  { unfold Rdiv. rewrite Rabs_mult, (Rabs_pos_eq (/ 128)) by lra.
    rewrite <- abs_IZR.
    assert (IZR (Z.abs n) < IZR (2 ^ 53)) by now apply IZR_lt.
    rewrite (bpow_IZR 46) by lia.
    change (IZR (2 ^ 53)) with 9007199254740992 in H0.
    change (IZR (2 ^ 46)) with 70368744177664. lra. }
  destruct (Rounded_R_of _ _ H) as (e & Hb & HR).
  assert (He : (emin <= e <= -7)%Z).
  { destruct Hb as (He & _ & Hl). split; [assumption|].
    destruct (Z.eq_dec e emin) as [->|Hne]; [unfold emin; lia|].
    specialize (Hl ltac:(lia)).
    assert (bpow (e + prec - 1) < bpow 46) by lra.
    apply bpow_lt_inv in H0. unfold prec in H0. lia. }
  assert (Hrnd : forall k : Z, rnd e (IZR k / 128) = IZR k / 128).
  { intros k. unfold rnd.
    replace (IZR k / 128 / bpow e) with (IZR (k * 2 ^ (- 7 - e))).
    - rewrite ZnearestE_IZR, mult_IZR, <- bpow_IZR, Rmult_assoc, <- bpow_plus by lia.
      replace (- 7 - e + e)%Z with (- 7)%Z by lia. rewrite H7. reflexivity.
    - rewrite mult_IZR, <- bpow_IZR by lia.
      replace (- 7 - e)%Z with (- 7 + - e)%Z by lia.
      rewrite bpow_plus, H7, bpow_opp. field.
      pose proof (bpow_gt_0 e). lra. }
  assert (Hmax : bpow 46 < bpow emax) by (apply bpow_lt; unfold emax; lia).
  rewrite HR. destruct (Rlt_dec (IZR n / 128) 0) as [Hneg|Hpos].
  - replace (- (IZR n / 128)) with (IZR (- n) / 128) by (rewrite opp_IZR; field).
    rewrite Hrnd, opp_IZR. rewrite Rabs_left in Habs by assumption.
    rewrite Rmin_left by lra. field.
  - rewrite Hrnd. rewrite Rabs_pos_eq in Habs by lra. apply Rmin_left. lra.
Qed.

(** Reading a finite number back from a response changes at most the sign
    of a zero. *)
Lemma JSON_value_finite x :
  valid x -> is_finite x = true ->
  exists y, JSON_value (Num x) = Num y /\ valid y /\ is_finite y = true /\
            R_of y = R_of x.
Proof.
  intros V F. destruct x as [s| | |s m e]; try discriminate.
  - exists zero. repeat split.
  - exists (S754_finite s m e). repeat split. assumption.
Qed.

Lemma percent_range a t :
  is_finite t = true -> 0 < R_of t -> in_range t a ->
  valid (mul (div a t) (of_Z 100)) /\
  is_finite (mul (div a t) (of_Z 100)) = true /\
  0 <= R_of (mul (div a t) (of_Z 100)) <= 100.
Proof.
  intros Ft Ht R. pose proof R as (Va & Fa & Ba).
  destruct (cp_facts t Ft Ht a R) as (Vc & Fc & q & Hq & Fq & Vq & Hc).
  unfold cp in *. split; [assumption|]. split; [assumption|].
  assert (Bq : R_of zero <= R_of a / R_of t <= R_of (of_Z 1)).
  { rewrite R_of_1. change (R_of zero) with 0. split.
    - apply Rmult_le_pos; [lra | apply Rlt_le, Rinv_0_lt_compat; assumption].
    - apply Rmult_le_reg_r with (R_of t); [assumption|]. unfold Rdiv.
      rewrite Rmult_assoc, Rinv_l; lra. }
  pose proof (Rounded_bounds _ _ zero (of_Z 1) Hq zero_valid (of_Z_valid 1) eq_refl eq_refl Bq) as Bq'.
  rewrite R_of_1 in Bq'. change (R_of zero) with 0 in Bq'.
  pose proof (Rounded_bounds _ _ zero (of_Z 100) Hc zero_valid (of_Z_valid 100) eq_refl eq_refl) as B.
  rewrite R_of_100 in B. change (R_of zero) with 0 in B. apply B. lra.
Qed.

(** X9.  The card shows SAFE exactly when the unrounded percentage is at most
    half a hundredth below the target; so it shows SAFE whenever the server
    takes the safe branch, and also for percentages that round up to the
    target, where the server takes the unsafe branch.  The target is a
    whole number. *)
Theorem badge_safe_iff (a t : number) (n : Z) :
  valid a -> valid t -> is_finite t = true ->
  le zero a = true -> le a t = true -> lt zero t = true ->
  (Z.abs n <= 1000000)%Z ->
  let st := calculateAttendance a t (of_Z n) in
  let cp := mul (div a t) (of_Z 100) in
  (isSafe (JSON_value (currentPercent st)) (JSON_value (of_Z n)) = true <->
   IZR n - / 200 <= R_of cp) /\
  (ge cp (of_Z n) = true ->
   isSafe (JSON_value (currentPercent st)) (JSON_value (of_Z n)) = true).
Proof.
  intros Va Vt Ft H0 Hat Ht Hn st cp.
  pose proof (valid_not_nan_of_finite t Ft) as Nt.
  assert (Na : is_nan a = false) by (eapply le_not_nan_l; eassumption).
  assert (Fa : is_finite a = true).
  { apply (finite_between a zero t); try assumption; reflexivity. }
  apply (lt_R_of zero t zero_valid Vt eq_refl Nt) in Ht.
  apply (le_R_of zero a zero_valid Va eq_refl Na) in H0.
  apply (le_R_of a t Va Vt Na Nt) in Hat.
  change (R_of zero) with 0 in *.
  assert (Hg : le t zero = false).
  { destruct (le t zero) eqn:E; [exfalso|reflexivity].
    apply (le_R_of t zero Vt zero_valid Nt eq_refl) in E.
    change (R_of zero) with 0 in E. lra. }
  destruct (calculateAttendance_fields a t (of_Z n) Hg) as (Ec & _).
  fold st in Ec. cbn zeta in Ec. fold cp in Ec.
  assert (R : in_range t a) by (repeat split; assumption).
  destruct (percent_range a t Ft Ht R) as (Vc & Fc & Bc). fold cp in Vc, Fc, Bc.
  destruct (Number_toFixed2_correct cp Fc) as (k & Ek & Hk).
  destruct (Rlt_dec (R_of cp) 0) as [|_]; [lra|].
  rewrite Rabs_pos_eq in Ek by lra. rewrite <- Ec in Hk.
  destruct (of_Z_facts n ltac:(lia)) as (Vn & Fn & En).
  destruct (Number_toFixed2_range cp Vc Fc Bc) as (Fd & _).
  pose proof (Number_toFixed2_valid cp Vc) as Vd. rewrite <- Ec in Fd, Vd.
  destruct (JSON_value_finite _ Vd Fd) as (y & Ey & Vy & Fy & Ry).
  destruct (JSON_value_finite _ Vn Fn) as (yn & Eyn & Vyn & Fyn & Ryn).
  assert (Safe : isSafe (JSON_value (currentPercent st)) (JSON_value (of_Z n)) = true <->
                 IZR n <= R_of (currentPercent st)).
  { rewrite Ey, Eyn. unfold isSafe, ge_value, ge. cbn [ToNumber].
    change (SFleb yn y) with (le yn y).
    rewrite (le_R_of yn y Vyn Vy (valid_not_nan_of_finite _ Fyn)
               (valid_not_nan_of_finite _ Fy)).
    rewrite Ry, Ryn, En. reflexivity. }
  assert (Disp : IZR n <= R_of (currentPercent st) <-> (100 * n <= k)%Z).
  { split.
    - intros Hle. destruct (Z_le_gt_dec (100 * n) k) as [|Hgt]; [assumption|exfalso].
      assert (Hk' : IZR k <= IZR (100 * n - 1)) by (apply IZR_le; lia).
      rewrite minus_IZR, mult_IZR in Hk'.
      destruct (of_Z_facts (128 * n - 1) ltac:(lia)) as (V1 & F1 & E1).
      destruct (of_Z_facts 128 ltac:(lia)) as (V2 & F2 & E2).
      pose proof (div_correct (of_Z (128 * n - 1)) (of_Z 128) F1 F2
                    ltac:(rewrite E2; lra)) as Hz.
      rewrite E1, E2 in Hz.
      pose proof (Rounded_128th _ _ Hz
                    ltac:(change (2 ^ 53)%Z with 9007199254740992%Z; lia)) as Ez.
      pose proof (Rounded_le _ _ _ _ Hk Hz) as B.
      rewrite Ez, minus_IZR, mult_IZR in B. lra.
    - intros Hle. apply IZR_le in Hle. rewrite mult_IZR in Hle.
      rewrite <- En.
      apply (Rounded_le _ _ _ _ (Rounded_self (of_Z n) Vn Fn) Hk). rewrite En. lra. }
  assert (Half : (100 * n <= k)%Z <-> IZR n - / 200 <= R_of cp).
  { pose proof (Zfloor_bound (100 * R_of cp + / 2)) as Bk. rewrite <- Ek in Bk.
    split.
    - intros Hle. apply IZR_le in Hle. rewrite mult_IZR in Hle. lra.
    - intros Hle. rewrite Ek. apply Zfloor_lub. rewrite mult_IZR. lra. }
  split.
  - rewrite Safe, Disp, Half. reflexivity.
  - intros G. apply Safe, Disp, Half.
    unfold ge in G. change (SFleb ?x ?y) with (le x y) in G.
    apply (le_R_of (of_Z n) cp Vn Vc (valid_not_nan_of_finite _ Fn)
             (valid_not_nan_of_finite _ Fc)) in G.
    rewrite En in G. lra.
Qed.

Lemma badge_safe_iff_witness :
  isSafe (JSON_value (currentPercent
            (calculateAttendance (of_Z 74999) (of_Z 100000) (of_Z 75))))
         (JSON_value (of_Z 75)) = true /\
  needToAttend (calculateAttendance (of_Z 74999) (of_Z 100000) (of_Z 75)) = of_Z 4.
Proof.
  split; [|reflexivity].
  destruct (badge_safe_iff (of_Z 74999) (of_Z 100000) 75
              eq_refl eq_refl eq_refl eq_refl eq_refl eq_refl ltac:(lia))
    as (H & _).
  apply H.
  change (mul (div (of_Z 74999) (of_Z 100000)) (of_Z 100))
    with (S754_finite false 5277585444580623 (-46)).
  rewrite R_of_finite. cbn [sgn]. unfold F2R.
  replace (bpow (-46)) with (/ 70368744177664) by (symmetry; apply (bpow_neg_IZR 46); lia).
  lra.
Defined.

End Badge.

(* ================================================================== *)
(** * From the page to the routes *)

Lemma JSON_value_sent x : is_finite x = true -> JSON_value (Num x) = Num (sent x).
Proof. destruct x; try discriminate; reflexivity. Qed.

Lemma JSON_value_not_finite x : is_finite x = false -> JSON_value (Num x) = Null.
Proof. destruct x; try discriminate; reflexivity. Qed.

Lemma gt_sent x y :
  is_finite x = true -> is_finite y = true -> gt (sent x) (sent y) = gt x y.
Proof. destruct x, y; try discriminate; reflexivity. Qed.

Lemma or_JSON_target x :
  or (JSON_value (Num x)) (of_Z 75) = Num (settled_target x).
Proof. destruct x; reflexivity. Qed.

Lemma ToBoolean_Str s : ToBoolean (Str s) = false <-> s = EmptyString.
Proof. destruct s; cbn; split; congruence. Qed.

Section PageToRoutes.

Variable db : Type.
Variable document : Type.
Variable fields : document -> SubjectFields.
Variable Subject_create : SubjectFields -> db -> option document * db.
Variable identifier : Type.
Variable Subject_findByIdAndUpdate :
  identifier -> SubjectFields -> db -> settled (option document) * db.

(** X10.  What the form brings about, for ASCII text in its four inputs.
    It alerts when the trimmed name is empty or the attended count read from
    the text exceeds the total.  Otherwise it posts; the server then answers
    400 when the total or the attended count is not a finite number (it
    arrives as null), and otherwise hands to [Subject.create] the trimmed
    name, the two counts, with the attended count not above the total, and
    as target the number typed when that is finite and not 0, and 75
    otherwise. *)
Theorem form_submission (name count present target : string) (st : db) :
  ascii_text name = true -> ascii_text count = true ->
  ascii_text present = true -> ascii_text target = true ->
  let T := ToNumber (Str count) in
  let A := ToNumber (Str present) in
  let P := ToNumber (Str target) in
  match submit name count present target with
  | Alert _ => trim name = EmptyString \/ gt A T = true
  | Post payload =>
      trim name <> EmptyString /\ gt A T = false /\
      let out :=
        post_subjects db document fields Subject_create (JSON_body payload) st in
      (is_finite T && is_finite A = false ->
       out = ({| status := 400; json := ErrorJson "Missing required fields" |}, st)) /\
      (is_finite T && is_finite A = true ->
       gt (sent A) (sent T) = false /\
       out = created db document fields Subject_create
               {| subjectName := Str (trim name);
                  total := sent T;
                  attended := sent A;
                  requiredPercent := settled_target P |} st)
  end.
Proof.
  intros _ _ _ _ T A P. unfold submit.
  destruct (ToBoolean (Str (trim name))) eqn:B; cbn [negb].
  2:{ left. now apply ToBoolean_Str. }
  fold T A P.
  destruct (gt A T) eqn:G; [right; reflexivity|].
  assert (Hne : trim name <> EmptyString).
  { intros E. apply ToBoolean_Str in E. congruence. }
  split; [assumption|]. split; [reflexivity|]. cbn zeta.
  unfold JSON_body. cbn [subjectName total attended requiredPercent].
  unfold post_subjects. cbn [subjectName total attended requiredPercent].
  change (JSON_value (Str (trim name))) with (Str (trim name)).
  rewrite B. cbn [negb orb]. fold (created db document fields Subject_create).
  split.
  - intros F. apply andb_false_iff in F. destruct F as [F|F].
    + rewrite (JSON_value_not_finite T F). reflexivity.
    + rewrite (JSON_value_not_finite A F).
      destruct (eq_null (JSON_value T)); reflexivity.
  - intros F. apply andb_true_iff in F. destruct F as [FT FA].
    rewrite (JSON_value_sent T FT), (JSON_value_sent A FA), or_JSON_target.
    split; [rewrite gt_sent; assumption|]. reflexivity.
Qed.

(** X11.  On whole counts [0 <= attended <= total], whichever button is pressed,
    the update route hands to [Subject.findByIdAndUpdate] the name and the
    target of the card as they are, and whole counts that again satisfy
    [0 <= attended <= total]. *)
Theorem button_update_in_order
    (id : identifier) (name target : value) (t a : Z) (st : db) :
  0 <= a <= t -> t < 2 ^ 53 - 1 ->
  let s := {| s_subjectName := name; s_requiredPercent := target;
              s_total := of_Z t; s_attended := of_Z a |} in
  Forall
    (fun button : Subject -> number * number =>
       exists t' a',
         0 <= a' <= t' /\ button s = (of_Z t', of_Z a') /\
         put_subject db document fields identifier Subject_findByIdAndUpdate id
           (JSON_body (handleSubjectUpdate s (fst (button s)) (snd (button s)))) st =
         updated db document fields identifier Subject_findByIdAndUpdate id {| subjectName := JSON_value name;
                       total := of_Z t';
                       attended := of_Z a';
                       requiredPercent := JSON_value target |} st)
    [btn_inc_total; btn_dec_total; btn_inc_attended; btn_dec_attended].
Proof.
  intros Ha Ht s.
  destruct (counters_on_whole_counts name target t a Ha Ht) as (E1 & E2 & E3 & E4).
  fold s in E1, E2, E3, E4.
  assert (J : forall z, 0 <= z < 2 ^ 53 -> JSON_value (Num (of_Z z)) = Num (of_Z z)).
  { intros z Hz. destruct (Z.eq_dec z 0) as [->|N]; [reflexivity|].
    destruct (of_Z_positive z ltac:(lia)) as (m & e & ->). reflexivity. }
  assert (K : forall button t' a',
             0 <= a' <= t' -> t' < 2 ^ 53 -> button s = (of_Z t', of_Z a') ->
             exists t'' a'',
               0 <= a'' <= t'' /\ button s = (of_Z t'', of_Z a'') /\
               put_subject db document fields identifier Subject_findByIdAndUpdate id
                 (JSON_body (handleSubjectUpdate s (fst (button s)) (snd (button s)))) st =
               updated db document fields identifier Subject_findByIdAndUpdate id {| subjectName := JSON_value name;
                             total := of_Z t'';
                             attended := of_Z a'';
                             requiredPercent := JSON_value target |} st).
  { intros button t' a' H1 H2 E. exists t', a'. split; [assumption|]. split; [assumption|].
    rewrite E. unfold put_subject, updated, JSON_body, handleSubjectUpdate.
    cbn [fst snd subjectName total attended requiredPercent s s_subjectName s_requiredPercent].
    rewrite !J by lia. reflexivity. }
  repeat constructor.
  - apply (K _ (t + 1) a); [lia | lia | assumption].
  - apply (K _ (Z.max 0 (t - 1)) (Z.min a (Z.max 0 (t - 1)))); [lia | lia | assumption].
  - apply (K _ t (Z.min t (a + 1))); [lia | lia | assumption].
  - apply (K _ t (Z.max 0 (a - 1))); [lia | lia | assumption].
Qed.

End PageToRoutes.

Lemma form_submission_witness :
  post_subjects (list SubjectFields) SubjectFields (fun d => d) keep_all
    (JSON_body {| subjectName := Str "Maths"; total := of_Z 10;
                  attended := of_Z 5; requiredPercent := zero |}) [] =
  created (list SubjectFields) SubjectFields (fun d => d) keep_all
    {| subjectName := Str "Maths"; total := of_Z 10; attended := of_Z 5;
       requiredPercent := of_Z 75 |} [].
Proof.
  pose proof (form_submission (list SubjectFields) SubjectFields (fun d => d)
                keep_all " Maths " "10" "5" "" []
                eq_refl eq_refl eq_refl eq_refl) as H.
  cbv zeta in H.
  change (submit " Maths " "10" "5" "")
    with (Post {| subjectName := Str "Maths"; total := of_Z 10;
                  attended := of_Z 5; requiredPercent := zero |}) in H.
  cbv iota beta in H.
  destruct H as (_ & _ & _ & H). destruct (H eq_refl) as (_ & E). exact E.
Defined.

Lemma button_update_in_order_witness :
  Forall
    (fun button : Subject -> number * number =>
       exists t' a',
         0 <= a' <= t' /\
         button {| s_subjectName := Str "Maths"; s_requiredPercent := of_Z 75;
                   s_total := of_Z 10; s_attended := of_Z 10 |} =
           (of_Z t', of_Z a'))
    [btn_inc_total; btn_dec_total; btn_inc_attended; btn_dec_attended].
Proof.
  pose proof (button_update_in_order (list SubjectFields) SubjectFields (fun d => d)
                unit replace_it tt (Str "Maths") (of_Z 75) 10 10 []
                ltac:(lia) ltac:(lia)) as H.
  cbv zeta in H. eapply Forall_impl; [|exact H].
  intros button (t' & a' & H1 & H2 & _). exists t', a'. split; assumption.
Defined.

(* ================================================================== *)
(** * Following the advice *)

(** X12.  The advice is consistent with itself.  For whole counts
    [0 <= attended <= total <= 9 * 10^6], [total > 0] and a whole target
    between 1 and 99: once the [needToAttend] classes have been attended and
    the [canBunk] classes skipped (one of the two counts is 0), the function
    asks for no more classes. *)
Theorem advice_is_consistent (a t p : Z) :
  0 <= a <= t -> 0 < t <= 9000000 -> 1 <= p <= 99 ->
  let st := calculateAttendance (of_Z a) (of_Z t) (of_Z p) in
  exists c x,
    canBunk st = of_Z c /\ needToAttend st = of_Z x /\
    0 <= c /\ 0 <= x /\ (c = 0 \/ x = 0) /\
    needToAttend
      (calculateAttendance (of_Z (a + x)) (of_Z (t + x + c)) (of_Z p)) = zero.
Proof.
  intros Ha Ht Hp st.
  assert (Ht' : 0 < t <= 1000000000) by lia.
  assert (Hp' : 1 <= p <= 100) by lia.
  destruct (Z_lt_le_dec (100 * a) (p * t)) as [Hlow|Hsafe].
  - destruct (unsafe_outcome a t p Ha Ht' Hp Hlow) as (Eb & _ & x & Ex & Hx1 & Hx & _).
    fold st in Eb, Ex. exists 0, x.
    split; [exact Eb|]. split; [exact Ex|]. split; [lia|]. split; [lia|].
    split; [left; reflexivity|].
    assert (Hq : 0 < 100 - p) by lia.
    pose proof (ceil_le_self (p * t - 100 * a) (100 - p) ltac:(lia) Hq) as Hc.
    assert (Hreach : p * t - 100 * a <= (100 - p) * x)
      by (apply (mul_ge_ceil _ (100 - p) x Hq); lia).
    rewrite Z.add_0_r.
    apply (safe_outcome (a + x) (t + x) p); [lia | nia | lia | lia].
  - destruct (safe_outcome a t p Ha Ht' Hp' Hsafe) as (En & _ & c & Ec & Hc0 & Hc & _).
    fold st in En, Ec. exists c, 0.
    split; [exact Ec|]. split; [exact En|]. split; [lia|]. split; [lia|].
    split; [right; reflexivity|].
    assert (Hp0 : 0 < p) by lia.
    pose proof (div_le_self (100 * a - p * t) p ltac:(lia) Hp0) as Hd.
    assert (Hkeep : p * c <= 100 * a - p * t)
      by (apply (mul_le_div _ p c Hp0); lia).
    rewrite !Z.add_0_r.
    apply (safe_outcome a (t + c) p); [lia | nia | lia | lia].
Qed.

Lemma advice_is_consistent_witness :
  exists c x,
    canBunk (calculateAttendance (of_Z 60) (of_Z 100) (of_Z 75)) = of_Z c /\
    needToAttend (calculateAttendance (of_Z 60) (of_Z 100) (of_Z 75)) = of_Z x /\
    needToAttend
      (calculateAttendance (of_Z (60 + x)) (of_Z (100 + x + c)) (of_Z 75)) = zero.
Proof.
  destruct (advice_is_consistent 60 100 75 ltac:(lia) ltac:(lia) ltac:(lia))
    as (c & x & H1 & H2 & _ & _ & _ & H3).
  exists c, x. repeat split; assumption.
Defined.

Section Denominators.
Local Open Scope R_scope.

(** X13.  For a finite total above 0 and a target from 1 up to, but not
    including, 100, every division the calculator performs has a finite and
    strictly positive divisor: the divisors are the total, 100,
    [r = requiredPercent / 100] and [1 - r], and the result of the function
    is the same for every operator in the place of the division that agrees
    with it on such divisors. *)
Theorem denominators_positive
    (quot : number -> number -> number) (a : value) (t p : number) :
  valid p -> is_finite t = true -> lt zero t = true ->
  le (of_Z 1) p = true -> lt p (of_Z 100) = true ->
  (forall x y, is_finite y = true -> lt zero y = true -> quot x y = div x y) ->
  let r := div p (of_Z 100) in
  is_finite r = true /\ lt zero r = true /\
  is_finite (sub (of_Z 1) r) = true /\ lt zero (sub (of_Z 1) r) = true /\
  calculateAttendance_with quot a t p = calculateAttendance a t p.
Proof.
  intros Vp Ft Ht H1 H100 Hq r.
  assert (Np : is_nan p = false) by (eapply le_not_nan_r; eassumption).
  assert (Fp : is_finite p = true).
  { apply (finite_between p (of_Z 1) (of_Z 100)); try apply of_Z_valid;
      try reflexivity; try assumption. now apply lt_le. }
  apply (le_R_of (of_Z 1) p (of_Z_valid 1) Vp eq_refl Np) in H1.
  apply (lt_R_of p (of_Z 100) Vp (of_Z_valid 100) Np eq_refl) in H100.
  rewrite R_of_1 in H1. rewrite R_of_100 in H100.
  assert (Hp : 0 < R_of p < 100) by lra.
  destruct (r_facts p Vp Fp Hp) as (Vr & Fr & Br). fold r in Vr, Fr, Br.
  destruct (d_facts p Vp Fp Hp) as (Vd & Fd & Bd). fold r in Vd, Fd, Bd.
  pose proof (Rounded_r p Fp) as Hr. fold r in Hr.
  assert (Hr0 : 0 < R_of r).
  { pose proof (div_correct (of_Z 1) (of_Z 100) eq_refl eq_refl
                  ltac:(rewrite R_of_100; lra)) as H.
    rewrite R_of_1, R_of_100 in H.
    pose proof (Rounded_le _ _ _ _ H Hr ltac:(lra)) as B.
    assert (0 < R_of (div (of_Z 1) (of_Z 100))); [|lra].
    change (R_of zero < R_of (div (of_Z 1) (of_Z 100))).
    apply lt_R_of; try reflexivity. }
  assert (Lr : lt zero r = true).
  { apply (lt_R_of zero r zero_valid Vr eq_refl (valid_not_nan_of_finite _ Fr)).
    exact Hr0. }
  assert (Ld : lt zero (sub (of_Z 1) r) = true).
  { apply (lt_R_of zero _ zero_valid Vd eq_refl (valid_not_nan_of_finite _ Fd)).
    exact Bd. }
  split; [assumption|]. split; [assumption|]. split; [assumption|].
  split; [assumption|].
  assert (E100 : forall x, quot x (of_Z 100) = div x (of_Z 100))
    by (intros x; apply Hq; reflexivity).
  assert (Et : forall x, quot x t = div x t) by (intros x; now apply Hq).
  assert (Er : forall x, quot x r = div x r) by (intros x; now apply Hq).
  assert (Ed : forall x, quot x (sub (of_Z 1) r) = div x (sub (of_Z 1) r))
    by (intros x; now apply Hq).
  unfold calculateAttendance, calculateAttendance_with. cbn [ToNumber].
  cbv zeta. rewrite !E100, !Et. fold r. rewrite !Er, !Ed. reflexivity.
Qed.

Lemma denominators_positive_witness :
  calculateAttendance_with guarded_div (of_Z 60) (of_Z 100) (of_Z 75) =
  calculateAttendance (of_Z 60) (of_Z 100) (of_Z 75).
Proof.
  apply (denominators_positive guarded_div (of_Z 60) (of_Z 100) (of_Z 75)
           eq_refl eq_refl eq_refl eq_refl eq_refl).
  intros x y F L. unfold guarded_div. rewrite F, L. reflexivity.
Defined.

End Denominators.
